(** * analyze_abstracts: the discourse / stylometric analysis engine

    A shallow embedding of [scripts/analyze_abstracts.py] and the properties
    of it stated by the specification.

    Conventions of the embedding.
    - A Python [str] is a [string]; texts are ASCII.  The classes [\w], [\s],
      [\d], [str.lower], [str.strip], [str.split] and [str.isupper] are the
      ASCII restrictions of Python's; a byte above 127 is an ordinary caseless
      character that is neither a word character nor white space.
    - [re] is embedded as a backtracking matcher with Python's priorities
      (leftmost match, ordered alternation, greedy and lazy repetition,
      look-around, word boundaries, capture groups); the patterns are the
      source's pattern strings, compiled by [Re.compile].  A character that
      is not ASCII in a pattern is carried as its UTF-8 bytes and matches no
      ASCII text.
    - A [dict] / [Counter] is an association list in insertion order.
    - Integers are [nat] or [Z].  A [float] is a binary64 number, embedded as
      the rational it is ([Q]): an operation gives the binary64 number nearest
      its exact result, a tie going to the even significand ([Py.fl]), and
      [round(x, nd)] the binary64 number nearest the decimal of [nd] digits
      nearest [x].  The exponent range is not bounded: no number of the
      analysis leaves the normal range of binary64.  [sum] adds from the
      left, one rounding for each term (the compensated sum of the later
      interpreters is not modelled), and [x ** 2] and [x ** 0.5] are the
      correctly rounded square and root.  The density-shape classifier compares doubles of the kernel
      ([PrimFloat]), with which [Py.fl] agrees; [math.log] is [ln] over [R].
    - An uncaught exception or [sys.exit] is a value of [outcome] / [result]. *)

From Stdlib Require Import Bool Arith List Ascii String ZArith QArith Qround Qpower Lia.
From Stdlib Require Import Sorted Permutation.
From Stdlib Require Import Floats Uint63.
From Stdlib Require Import Reals Psatz.
Import ListNotations.

Set Implicit Arguments.
Local Open Scope string_scope.
Local Open Scope list_scope.
Local Open Scope nat_scope.

(** ** Python strings *)

Module Str.

Definition chars (s : string) : list ascii := list_ascii_of_string s.
Definition of_chars (l : list ascii) : string := string_of_list_ascii l.

Definition code (c : ascii) : nat := nat_of_ascii c.

Definition in_range (lo hi : nat) (c : ascii) : bool :=
  (lo <=? code c) && (code c <=? hi).

Definition is_upper_char : ascii -> bool := in_range 65 90.
Definition is_lower_char : ascii -> bool := in_range 97 122.
Definition is_digit : ascii -> bool := in_range 48 57.
Definition is_alpha (c : ascii) : bool := is_upper_char c || is_lower_char c.

(** [\w] *)
Definition is_word (c : ascii) : bool :=
  is_alpha c || is_digit c || (code c =? 95).

(** [str.isspace] on one character, also [\s]: TAB..CR, FS..US and space. *)
Definition is_space (c : ascii) : bool :=
  in_range 9 13 c || in_range 28 32 c.

Definition lower_char (c : ascii) : ascii :=
  if is_upper_char c then ascii_of_nat (code c + 32) else c.

Definition upper_char (c : ascii) : ascii :=
  if is_lower_char c then ascii_of_nat (code c - 32) else c.

Definition eqc (a b : ascii) : bool := Ascii.eqb a b.

(** [s.lower()] *)
Definition lower (s : string) : string := of_chars (map lower_char (chars s)).

(** [len(s)] *)
Definition len (s : string) : nat := List.length (chars s).

Fixpoint prefixb (p s : list ascii) : bool :=
  match p, s with
  | [], _ => true
  | a :: p', b :: s' => eqc a b && prefixb p' s'
  | _ :: _, [] => false
  end.

Fixpoint drop_while (p : ascii -> bool) (l : list ascii) : list ascii :=
  match l with
  | [] => []
  | c :: t => if p c then drop_while p t else l
  end.

(** [s.strip()] *)
Definition strip (s : string) : string :=
  of_chars (rev (drop_while is_space (rev (drop_while is_space (chars s))))).

(** [s.split()]: the maximal runs of characters that are not white space. *)
Fixpoint split_ws (cur : list ascii) (l : list ascii) : list string :=
  match l with
  | [] => match cur with [] => [] | _ => [of_chars (rev cur)] end
  | c :: t =>
      if is_space c
      then match cur with
           | [] => split_ws [] t
           | _ => of_chars (rev cur) :: split_ws [] t
           end
      else split_ws (c :: cur) t
  end.

Definition split (s : string) : list string := split_ws [] (chars s).

(** [s.split(sep)] for a one-character separator. *)
Fixpoint split_chr (sep : ascii) (cur : list ascii) (l : list ascii) : list string :=
  match l with
  | [] => [of_chars (rev cur)]
  | c :: t =>
      if eqc c sep then of_chars (rev cur) :: split_chr sep [] t
      else split_chr sep (c :: cur) t
  end.

Definition split_on (sep : ascii) (s : string) : list string :=
  split_chr sep [] (chars s).

(** [s.replace(old, new)] for a non-empty [old]: occurrences are replaced
    from the left and do not overlap.  [skip] counts the characters of the
    occurrence just replaced that are still to be dropped. *)
Fixpoint replace_from (old new : list ascii) (skip : nat) (l : list ascii) : list ascii :=
  match l with
  | [] => []
  | c :: t =>
      match skip with
      | S k => replace_from old new k t
      | 0 =>
          if prefixb old l
          then new ++ replace_from old new (List.length old - 1) t
          else c :: replace_from old new 0 t
      end
  end.

Definition replace (old new s : string) : string :=
  of_chars (replace_from (chars old) (chars new) 0 (chars s)).

(** [s.count(sub)]: non-overlapping occurrences; [len(s) + 1] for an empty
    [sub]. *)
Fixpoint count_from (sub : list ascii) (skip : nat) (l : list ascii) : nat :=
  match l with
  | [] => 0
  | _ :: t =>
      match skip with
      | S k => count_from sub k t
      | 0 =>
          if prefixb sub l
          then S (count_from sub (List.length sub - 1) t)
          else count_from sub 0 t
      end
  end.

Definition count (sub s : string) : nat :=
  match chars sub with
  | [] => S (len s)
  | p => count_from p 0 (chars s)
  end.

(** [sub in s] *)
Fixpoint contains_from (sub : list ascii) (l : list ascii) : bool :=
  prefixb sub l ||
  match l with
  | [] => false
  | _ :: t => contains_from sub t
  end.

Definition contains (sub s : string) : bool := contains_from (chars sub) (chars s).

(** [s.isupper()]: some cased character, and no lower-case one. *)
Definition isupper (s : string) : bool :=
  existsb is_upper_char (chars s) && negb (existsb is_lower_char (chars s)).

(** [s[:n]] *)
Definition take (n : nat) (s : string) : string := of_chars (firstn n (chars s)).

(** [sep.join(parts)] *)
Fixpoint join (sep : string) (parts : list string) : string :=
  match parts with
  | [] => ""
  | [p] => p
  | p :: rest => p ++ sep ++ join sep rest
  end.

(** [x in xs] for a list, tuple or set of strings. *)
Definition mem (x : string) (xs : list string) : bool :=
  existsb (String.eqb x) xs.

End Str.

(** ** Regular expressions: Python's [re], as far as the source uses it *)

Module Re.
Import Str.

Inductive regex : Type :=
| Eps                                   (* the empty pattern *)
| Sym (p : ascii -> bool)               (* one character of a set *)
| Cat (a b : regex)
| Alt (a b : regex)                     (* [a|b], [a] tried first *)
| Rep (greedy : bool) (a : regex)       (* [a*] and [a*?] *)
| Grp (n : nat) (a : regex)             (* capture group number [n] *)
| Bol                                   (* [^] *)
| Eol                                   (* [$] *)
| Wordb                                 (* [\b] *)
| Look (ahead positive : bool) (a : regex)
| Never.                                (* a pattern that did not compile *)

(** The matcher's position: the text read so far (reversed), the text still
    to read, and the groups captured on the way. *)
Record mstate : Type := MState {
  pre : list ascii;
  post : list ascii;
  caps : list (nat * (nat * string))
}.

Definition pos (s : mstate) : nat := List.length (pre s).

Definition at_boundary (s : mstate) : bool :=
  let before := match pre s with c :: _ => is_word c | [] => false end in
  let after := match post s with c :: _ => is_word c | [] => false end in
  xorb before after.

Definition at_end (s : mstate) : bool :=
  match post s with
  | [] => true
  | [c] => code c =? 10
  | _ => false
  end.

(** The group matched between two positions of one run: where it starts
    and its text. *)
Definition capture (n : nat) (s0 s1 : mstate) : mstate :=
  MState (pre s1) (post s1)
         ((n, (pos s0, of_chars (rev (firstn (pos s1 - pos s0) (pre s1))))) :: caps s1).

(** The position [j] characters back. *)
Definition back (j : nat) (s : mstate) : mstate :=
  MState (skipn j (pre s)) (rev (firstn j (pre s)) ++ post s) (caps s).

Definition orelse {A} (x : option A) (y : unit -> option A) : option A :=
  match x with Some v => Some v | None => y tt end.

(** A repetition of [body], which matches one iteration: greedy, it first
    tries one more iteration and then to go on with [k]; lazy, the other way
    round.  An iteration that reads nothing is given up, so there is at most
    one iteration per character left ([fuel]). *)
Fixpoint iterate (body : mstate -> (mstate -> option mstate) -> option mstate)
  (greedy : bool) (k : mstate -> option mstate) (fuel : nat) (s : mstate)
  {struct fuel} : option mstate :=
  match fuel with
  | 0 => k s
  | S f =>
      let again (_ : unit) :=
        body s (fun s' => if pos s <? pos s' then iterate body greedy k f s' else None) in
      if greedy then orelse (again tt) (fun _ => k s)
      else orelse (k s) again
  end.

(** [run r s k]: match [r] at [s] and hand the position reached to the
    continuation [k]; [None] makes the matcher backtrack. *)
Fixpoint run (r : regex) (s : mstate) (k : mstate -> option mstate) {struct r}
  : option mstate :=
  match r with
  | Eps => k s
  | Sym p =>
      match post s with
      | c :: t => if p c then k (MState (c :: pre s) t (caps s)) else None
      | [] => None
      end
  | Cat a b => run a s (fun s' => run b s' k)
  | Alt a b => orelse (run a s k) (fun _ => run b s k)
  | Rep greedy a => iterate (run a) greedy k (List.length (post s)) s
  | Grp n a => run a s (fun s' => k (capture n s s'))
  | Bol => match pre s with [] => k s | _ => None end
  | Eol => if at_end s then k s else None
  | Wordb => if at_boundary s then k s else None
  | Look ahead positive a =>
      let found :=
        if ahead
        then match run a s Some with Some _ => true | None => false end
        else existsb
               (fun j =>
                  match run a (back j s)
                          (fun s' => if pos s' =? pos s then Some s' else None)
                  with Some _ => true | None => false end)
               (seq 0 (S (pos s))) in
      if Bool.eqb found positive then k s else None
  | Never => None
  end.

(** *** Compiling a pattern string *)

Record flags : Type := Flags { ignorecase : bool; dotall : bool }.

Definition no_flags := Flags false false.
Definition IGNORECASE := Flags true false.
Definition DOTALL := Flags false true.

Definition chr (n : nat) : ascii := ascii_of_nat n.

(** A set of characters under the flags. *)
Definition sym (fl : flags) (p : ascii -> bool) : regex :=
  if ignorecase fl
  then Sym (fun c => p c || p (lower_char c) || p (upper_char c))
  else Sym p.

Definition lit (fl : flags) (c : ascii) : regex := sym fl (eqc c).

Definition dot (fl : flags) : regex :=
  if dotall fl then Sym (fun _ => true) else Sym (fun c => negb (code c =? 10)).

(** The set named by the letter after a backslash; any other escaped
    character stands for itself. *)
Definition escape_set (c : ascii) : ascii -> bool :=
  if eqc c "w" then is_word
  else if eqc c "s" then is_space
  else if eqc c "d" then is_digit
  else eqc c.

(** The inside of [[...]], up to the closing bracket. *)
Fixpoint parse_class (l : list ascii) (acc : ascii -> bool)
  : option ((ascii -> bool) * list ascii) :=
  match l with
  | [] => None
  | c :: t =>
      if eqc c "]" then Some (acc, t)
      else if eqc c "\" then
        match t with
        | e :: t' => parse_class t' (fun x => acc x || escape_set e x)
        | [] => None
        end
      else
        match t with
        | d :: hi :: t' =>
            if eqc d "-" && negb (eqc hi "]")
            then parse_class t' (fun x => acc x || in_range (code c) (code hi) x)
            else parse_class t (fun x => acc x || eqc c x)
        | _ => parse_class t (fun x => acc x || eqc c x)
        end
  end.

Fixpoint read_nat (l : list ascii) (acc : nat) : nat * list ascii :=
  match l with
  | c :: t => if is_digit c then read_nat t (10 * acc + (code c - 48)) else (acc, l)
  | [] => (acc, l)
  end.

Fixpoint power (n : nat) (a : regex) : regex :=
  match n with
  | 0 => Eps
  | S m => Cat a (power m a)
  end.

(** [a{0,n}], greedy. *)
Fixpoint upto (n : nat) (a : regex) : regex :=
  match n with
  | 0 => Eps
  | S m => Alt (Cat a (upto m a)) Eps
  end.

(** The quantifier after an atom, if there is one. *)
Definition parse_quant (a : regex) (l : list ascii) : option (regex * list ascii) :=
  match l with
  | c :: t =>
      if eqc c "*" then
        match t with
        | q :: t' => if eqc q "?" then Some (Rep false a, t') else Some (Rep true a, t)
        | [] => Some (Rep true a, t)
        end
      else if eqc c "+" then
        match t with
        | q :: t' =>
            if eqc q "?" then Some (Cat a (Rep false a), t')
            else Some (Cat a (Rep true a), t)
        | [] => Some (Cat a (Rep true a), t)
        end
      else if eqc c "?" then Some (Alt a Eps, t)
      else if eqc c "{" then
        let '(lo, t1) := read_nat t 0 in
        match t1 with
        | d :: t2 =>
            if eqc d "}" then Some (power lo a, t2)
            else if eqc d "," then
              match t2 with
              | e :: t3 =>
                  if eqc e "}" then Some (Cat (power lo a) (Rep true a), t3)
                  else
                    let '(hi, t4) := read_nat t2 0 in
                    match t4 with
                    | f :: t5 =>
                        if eqc f "}"
                        then Some (Cat (power lo a) (upto (hi - lo) a), t5)
                        else None
                    | [] => None
                    end
              | [] => None
              end
            else None
        | [] => None
        end
      else Some (a, l)
  | [] => Some (a, l)
  end.

(** What opens a group: [(?:], [(?=], [(?!], [(?<=], [(?<!] or a plain
    parenthesis, which captures. *)
Inductive opener : Type :=
| NonCapturing | Capturing | Around (ahead positive : bool).

Definition parse_opener (l : list ascii) : opener * list ascii :=
  match l with
  | q :: c :: t =>
      if eqc q "?" then
        if eqc c ":" then (NonCapturing, t)
        else if eqc c "=" then (Around true true, t)
        else if eqc c "!" then (Around true false, t)
        else if eqc c "<" then
          match t with
          | d :: t' =>
              if eqc d "=" then (Around false true, t')
              else if eqc d "!" then (Around false false, t')
              else (Capturing, l)
          | [] => (Capturing, l)
          end
        else (Capturing, l)
      else (Capturing, l)
  | _ => (Capturing, l)
  end.

Definition closes (l : list ascii) : option (list ascii) :=
  match l with
  | c :: t => if eqc c ")" then Some t else None
  | [] => None
  end.

(** Recursive descent; [g] is the number of groups opened so far, [fuel]
    bounds the nesting and the length. *)
Fixpoint parse_alt (fuel : nat) (fl : flags) (g : nat) (l : list ascii)
  : option (regex * nat * list ascii) :=
  match fuel with
  | 0 => None
  | S f =>
      match parse_seq f fl g l with
      | Some (a, g1, c :: t) =>
          if eqc c "|" then
            match parse_alt f fl g1 t with
            | Some (b, g2, t') => Some (Alt a b, g2, t')
            | None => None
            end
          else Some (a, g1, c :: t)
      | other => other
      end
  end
with parse_seq (fuel : nat) (fl : flags) (g : nat) (l : list ascii)
  : option (regex * nat * list ascii) :=
  match fuel with
  | 0 => None
  | S f =>
      match l with
      | [] => Some (Eps, g, l)
      | c :: _ =>
          if eqc c "|" || eqc c ")" then Some (Eps, g, l)
          else
            match parse_atom f fl g l with
            | Some (a, g1, t) =>
                match parse_quant a t with
                | Some (q, t') =>
                    match parse_seq f fl g1 t' with
                    | Some (Eps, g2, t'') => Some (q, g2, t'')
                    | Some (b, g2, t'') => Some (Cat q b, g2, t'')
                    | None => None
                    end
                | None => None
                end
            | None => None
            end
      end
  end
with parse_atom (fuel : nat) (fl : flags) (g : nat) (l : list ascii)
  : option (regex * nat * list ascii) :=
  match fuel with
  | 0 => None
  | S f =>
      match l with
      | [] => None
      | c :: t =>
          if eqc c "(" then
            let '(o, t1) := parse_opener t in
            let g1 := match o with Capturing => S g | _ => g end in
            match parse_alt f fl g1 t1 with
            | Some (a, g2, t2) =>
                match closes t2 with
                | Some t3 =>
                    Some (match o with
                          | NonCapturing => a
                          | Capturing => Grp g1 a
                          | Around ahead positive => Look ahead positive a
                          end, g2, t3)
                | None => None
                end
            | None => None
            end
          else if eqc c "[" then
            match parse_class t (fun _ => false) with
            | Some (p, t') => Some (sym fl p, g, t')
            | None => None
            end
          else if eqc c "\" then
            match t with
            | e :: t' =>
                if eqc e "b" then Some (Wordb, g, t')
                else Some (sym fl (escape_set e), g, t')
            | [] => None
            end
          else if eqc c "." then Some (dot fl, g, t)
          else if eqc c "^" then Some (Bol, g, t)
          else if eqc c "$" then Some (Eol, g, t)
          else Some (lit fl c, g, t)
      end
  end.

(** A leading [(?i)] turns on [IGNORECASE]. *)
Definition inline_flags (fl : flags) (l : list ascii) : flags * list ascii :=
  if prefixb (chars "(?i)") l
  then (Flags true (dotall fl), skipn 4 l)
  else (fl, l).

Definition parse (fl : flags) (pattern : string) : option (regex * nat) :=
  let '(fl', l) := inline_flags fl (chars pattern) in
  match parse_alt (3 * List.length l + 3) fl' 0 l with
  | Some (r, g, []) => Some (r, g)
  | _ => None
  end.

(** A compiled pattern: its expression and its number of groups. *)
Record pattern : Type := Pattern { expr : regex; ngroups : nat }.

Definition compile (fl : flags) (p : string) : pattern :=
  match parse fl p with
  | Some (r, g) => Pattern r g
  | None => Pattern Never 0
  end.

Definition compiles (fl : flags) (p : string) : bool :=
  match parse fl p with Some _ => true | None => false end.

(** [re.compile(p)] and [re.compile(p, flags)] *)
Definition re (p : string) : pattern := compile no_flags p.

(** *** Matching *)

(** A match object: [m.start()], [m.end()], [m.group()] and the groups. *)
Record mtch : Type := Mtch {
  m_start : nat;
  m_end : nat;
  m_text : string;
  m_caps : list (nat * (nat * string))
}.

(** [m.group(n)] and [m.start(n)], [n >= 1]; the last capture of a group is
    the one kept. *)
Definition group (n : nat) (m : mtch) : string :=
  match find (fun c => fst c =? n) (m_caps m) with
  | Some c => snd (snd c)
  | None => ""
  end.

Definition group_start (n : nat) (m : mtch) : nat :=
  match find (fun c => fst c =? n) (m_caps m) with
  | Some c => fst (snd c)
  | None => 0
  end.

Definition groups (p : pattern) (m : mtch) : list string :=
  map (fun n => group n m) (seq 1 (ngroups p)).

(** A match of [p] starting exactly at the position [pre | post]. *)
Definition match_at (p : pattern) (pre post : list ascii) : option (mtch * mstate) :=
  match run (expr p) (MState pre post []) Some with
  | Some s =>
      Some (Mtch (List.length pre) (pos s)
                 (of_chars (rev (firstn (pos s - List.length pre) (Re.pre s))))
                 (caps s), s)
  | None => None
  end.

(** The matches of [p] from the left, none overlapping another
    ([re.finditer]).  After a match the scan goes on where the match ended,
    one character further when the match was empty. *)
Fixpoint scan (fuel : nat) (p : pattern) (pre post : list ascii) : list mtch :=
  match fuel with
  | 0 => []
  | S f =>
      let step (_ : unit) :=
        match post with
        | [] => []
        | c :: t => scan f p (c :: pre) t
        end in
      match match_at p pre post with
      | Some (m, s) =>
          if List.length pre <? pos s
          then m :: scan f p (Re.pre s) (Re.post s)
          else m :: step tt
      | None => step tt
      end
  end.

Definition finditer (p : pattern) (text : string) : list mtch :=
  scan (S (len text)) p [] (chars text).

(** [re.search(p, text)] *)
Definition search (p : pattern) (text : string) : option mtch :=
  match finditer p text with
  | m :: _ => Some m
  | [] => None
  end.

Definition found (p : pattern) (text : string) : bool :=
  match search p text with Some _ => true | None => false end.

(** [re.match(p, text)] as a truth value *)
Definition matches (p : pattern) (text : string) : bool :=
  match match_at p [] (chars text) with Some _ => true | None => false end.

(** [re.findall(p, text)] for a pattern with no group (the whole matches) or
    with one group (that group). *)
Definition findall (p : pattern) (text : string) : list string :=
  map (fun m => match ngroups p with 0 => m_text m | _ => group 1 m end)
      (finditer p text).

(** [re.findall(p, text)] for a pattern with several groups: the tuples. *)
Definition findall_groups (p : pattern) (text : string) : list (list string) :=
  map (groups p) (finditer p text).

(** The pieces of [text] between the matches [ms], from offset [from]. *)
Fixpoint between (ms : list mtch) (from : nat) (l : list ascii) : list (list ascii) :=
  match ms with
  | [] => [skipn from l]
  | m :: rest =>
      firstn (m_start m - from) (skipn from l) :: between rest (m_end m) l
  end.

(** [re.split(p, text)] for a pattern without groups. *)
Definition split (p : pattern) (text : string) : list string :=
  map of_chars (between (finditer p text) 0 (chars text)).

(** A replacement template: literal text and group references. *)
Inductive piece : Type := Lit (s : string) | Ref (n : nat).

Definition expand (tpl : list piece) (m : mtch) : string :=
  String.concat "" (map (fun x => match x with Lit s => s | Ref n => group n m end) tpl).

Fixpoint weave (pieces : list (list ascii)) (ms : list mtch) (tpl : list piece)
  : list ascii :=
  match pieces, ms with
  | p :: ps, m :: ms' => p ++ chars (expand tpl m) ++ weave ps ms' tpl
  | p :: _, [] => p
  | [], _ => []
  end.

(** [re.sub(p, repl, text)] *)
Definition sub (p : pattern) (tpl : list piece) (text : string) : string :=
  let ms := finditer p text in
  of_chars (weave (between ms 0 (chars text)) ms tpl).

End Re.

(** ** Python values: counters, exceptions, rounding *)

Module Py.
Import Str.

(** *** [dict] and [collections.Counter]: association lists in insertion order *)

Definition dict (V : Type) : Type := list (string * V).

Fixpoint lookup {V} (k : string) (d : dict V) : option V :=
  match d with
  | [] => None
  | (k', v) :: rest => if String.eqb k k' then Some v else lookup k rest
  end.

(** [d[k] = v]: an existing key keeps its place. *)
Fixpoint store {V} (k : string) (v : V) (d : dict V) : dict V :=
  match d with
  | [] => [(k, v)]
  | (k', v') :: rest =>
      if String.eqb k k' then (k', v) :: rest else (k', v') :: store k v rest
  end.

Definition values {V} (d : dict V) : list V := map snd d.

Definition Counter : Type := dict nat.

(** [c[k]], 0 for a missing key *)
Definition tally (k : string) (c : Counter) : nat :=
  match lookup k c with Some n => n | None => 0 end.

(** [c[k] += n] *)
Definition add (k : string) (n : nat) (c : Counter) : Counter :=
  store k (tally k c + n) c.

(** [Counter(xs)] *)
Definition count_all (xs : list string) : Counter :=
  fold_left (fun c x => add x 1 c) xs [].

(** Stable insertion by decreasing key: [x] goes before the first entry
    whose key is not larger. *)
Fixpoint insert_desc {A} (key : A -> nat) (x : A) (l : list A) : list A :=
  match l with
  | [] => [x]
  | y :: rest => if key x <? key y then y :: insert_desc key x rest else x :: l
  end.

(** [sorted(l, key=..., reverse=True)], also [l.sort(key=lambda x: -key(x))] *)
Definition sort_desc {A} (key : A -> nat) (l : list A) : list A :=
  fold_right (insert_desc key) [] l.

(** [c.most_common(n)]: by decreasing count, equal counts in the order first
    met. *)
Definition most_common (n : nat) (c : Counter) : list (string * nat) :=
  firstn n (sort_desc snd c).

Definition sum (l : list nat) : nat := fold_right Nat.add 0 l.

(** *** Exceptions *)

Inductive exn : Type := ZeroDivisionError | IndexError | ValueError.

Inductive result (A : Type) : Type :=
| Ok (a : A)
| Raise (e : exn).
Arguments Ok {A} a.
Arguments Raise {A} e.

Definition bind {A B} (c : result A) (k : A -> result B) : result B :=
  match c with
  | Ok a => k a
  | Raise e => Raise e
  end.

(** [l[i]] *)
Definition item {A} (l : list A) (i : nat) : result A :=
  match nth_error l i with
  | Some a => Ok a
  | None => Raise IndexError
  end.

(** [min(l)] and [max(l)] *)
Definition minimum (l : list nat) : result nat :=
  match l with
  | [] => Raise ValueError
  | x :: rest => Ok (fold_left Nat.min rest x)
  end.

Definition maximum (l : list nat) : result nat :=
  match l with
  | [] => Raise ValueError
  | x :: rest => Ok (fold_left Nat.max rest x)
  end.

(** [sorted(l)] *)
Fixpoint insert_asc (x : nat) (l : list nat) : list nat :=
  match l with
  | [] => [x]
  | y :: rest => if y <=? x then y :: insert_asc x rest else x :: l
  end.

Definition sorted (l : list nat) : list nat := fold_right insert_asc [] l.

(** *** Floats *)

Definition of_nat (n : nat) : Q := inject_Z (Z.of_nat n).

(** The nearest integer, a tie going to the even one. *)
Definition round_half_even (q : Q) : Z :=
  let f := Qfloor q in
  match Qcompare (q - inject_Z f) (1 # 2) with
  | Lt => f
  | Gt => (f + 1)%Z
  | Eq => if Z.even f then f else (f + 1)%Z
  end.

Definition pow2 (e : Z) : Q := (2 ^ e)%Q.

(** For [q > 0], the [e] with [2^52 <= q / 2^e < 2^53]: the exponent of the
    last bit of a significand of 53 bits. *)
Definition exponent (q : Q) : Z :=
  let c := (Z.log2 (Qnum q) - Z.log2 (Zpos (Qden q)))%Z in
  ((if Qle_bool (pow2 c) q then c else c - 1) - 52)%Z.

(** For [q > 0], the number of 53 significant bits nearest [q]. *)
Definition nearest (q : Q) : Q :=
  let e := exponent q in
  Qred (inject_Z (round_half_even (q / pow2 e)) * pow2 e).

(** The binary64 number nearest [q]: what an operation whose exact result is
    [q] returns. *)
Definition fl (q : Q) : Q :=
  match Qcompare q 0 with
  | Eq => 0%Q
  | Gt => nearest q
  | Lt => Qred (- nearest (- q))
  end.

(** [float(n)], the conversion of an [int] that meets a [float] *)
Definition float_of (n : nat) : Q := fl (of_nat n).

(** [a / b] *)
Definition truediv (a b : Q) : result Q :=
  if Qeq_bool b 0 then Raise ZeroDivisionError else Ok (fl (a / b)).

(** [sum(l)] of floats: from the left, starting from 0 *)
Definition fsum (l : list Q) : Q := fold_left (fun acc x => fl (acc + x)) l 0%Q.

(** [x ** 0.5] for [x >= 0].  The root of [x] scaled by [4^k] has 57 bits or
    more before the point; when it is not whole it lies strictly between
    [s] and [s + 1], where no number of 53 bits nor a midpoint of two lies,
    and [s + 1/2] rounds as it does. *)
Definition fsqrt (q : Q) : Q :=
  match Qcompare q 0 with
  | Gt =>
      let k := (56 - (exponent q + 52) / 2)%Z in
      let x := (q * pow2 (2 * k))%Q in
      let s := Z.sqrt (Qfloor x) in
      let root :=
        if Qeq_bool x (inject_Z (s * s)) then inject_Z s
        else (inject_Z s + (1 # 2))%Q in
      fl (root * pow2 (- k))
  | _ => 0%Q
  end.

Definition pow10 (nd : nat) : Q := inject_Z (10 ^ Z.of_nat nd).

(** [round(x, nd)] for the float [x] nearest [q]: the decimal of [nd] digits
    nearest [x], a tie going to the even digit, as a float. *)
Definition round (q : Q) (nd : nat) : Q :=
  fl (inject_Z (round_half_even (fl q * pow10 nd)) / pow10 nd).

(** [int(q)]: truncation towards zero *)
Definition int (q : Q) : Z :=
  if Qle_bool 0 q then Qfloor q else Qceiling q.

End Py.

Notation "x <- c ;; k" := (Py.bind c (fun x => k))
  (at level 61, c at next level, right associativity).

Import Str Py.

(** ** Verb extraction *)

Definition VERB_PATTERNS : list Re.pattern := [
  Re.re "[Hh]ere\s+we\s+(\w+)";
  Re.re "(?<![Hh]ere\s)\bWe\s+(\w+)";
  Re.re "(?:Our|This|The)\s+(?:approach|method|results?|work|study|findings?|strategy)\s+(\w+)";
  Re.re "(?:thereby|thus|,)\s+(enabling|establishing|opening|revealing|overcoming|introducing|unlocking|harnessing|achieving)\b"
].

Definition VERB_NORMALIZE : dict string := [
  ("demonstrates", "demonstrate"); ("demonstrated", "demonstrate");
  ("shows", "show"); ("showed", "show"); ("shown", "show");
  ("achieves", "achieve"); ("achieved", "achieve");
  ("enables", "enable"); ("enabled", "enable"); ("enabling", "enable");
  ("reveals", "reveal"); ("revealed", "reveal"); ("revealing", "reveal");
  ("overcomes", "overcome"); ("overcame", "overcome"); ("overcoming", "overcome");
  ("introduces", "introduce"); ("introduced", "introduce"); ("introducing", "introduce");
  ("establishes", "establish"); ("established", "establish"); ("establishing", "establish");
  ("presents", "present"); ("presented", "present"); ("presenting", "present");
  ("reports", "report"); ("reported", "report"); ("reporting", "report");
  ("develops", "develop"); ("developed", "develop"); ("developing", "develop");
  ("provides", "provide"); ("provided", "provide"); ("providing", "provide");
  ("opens", "open"); ("opened", "open"); ("opening", "open");
  ("unlocks", "unlock"); ("unlocked", "unlock"); ("unlocking", "unlock");
  ("harnesses", "harness"); ("harnessed", "harness"); ("harnessing", "harness");
  ("uses", "use"); ("used", "use"); ("using", "use");
  ("designs", "design"); ("designed", "design"); ("designing", "design");
  ("proves", "prove"); ("proved", "prove"); ("proving", "prove")
].

Definition STOP_VERBS : list string := [
  "is"; "are"; "was"; "were"; "be"; "been"; "being";
  "have"; "has"; "had"; "having";
  "do"; "does"; "did";
  "can"; "could"; "will"; "would"; "shall"; "should"; "may"; "might";
  "also"; "further"; "not"; "here";
  "substantially"; "recently"; "simultaneously"; "previously";
  "including"; "posing"; "making"; "focusing"; "arising";
  "offering"; "requiring"; "leading"; "limiting"; "resulting"
].

(** [VERB_NORMALIZE.get(verb, verb)] *)
Definition normalize (verb : string) : string :=
  match lookup verb VERB_NORMALIZE with
  | Some base => base
  | None => verb
  end.

(** The body of the inner loop of [extract_verbs]: the verb a match
    contributes, if it is kept. *)
Definition verb_of_match (m : Re.mtch) : option string :=
  let verb := lower (Re.group 1 m) in
  let verb := normalize verb in
  if negb (mem verb STOP_VERBS) && (2 <? len verb) then Some verb else None.

Definition extract_verbs (text : string) : list string :=
  flat_map
    (fun pattern =>
       flat_map
         (fun m => match verb_of_match m with Some verb => [verb] | None => [] end)
         (Re.finditer pattern text))
    VERB_PATTERNS.

(** The same two loops, each verb with the offset in [text] of the match it
    was read from ([m.start()]). *)
Definition pattern_occurrences (pattern : Re.pattern) (text : string)
  : list (nat * string) :=
  flat_map
    (fun m =>
       match verb_of_match m with
       | Some verb => [(Re.m_start m, verb)]
       | None => []
       end)
    (Re.finditer pattern text).

Definition verb_occurrences (text : string) : list (nat * string) :=
  flat_map (fun pattern => pattern_occurrences pattern text) VERB_PATTERNS.

(** ** N-gram extraction *)

Definition tokenize (text : string) : list string :=
  let text := lower text in
  Re.findall (Re.re "[a-z][a-z\-]+[a-z]") text.

Definition STOPWORDS : list string := [
  "the"; "and"; "for"; "that"; "this"; "with"; "from"; "are"; "was";
  "were"; "been"; "being"; "have"; "has"; "had"; "its"; "our"; "their";
  "which"; "these"; "those"; "but"; "not"; "can"; "also"; "such";
  "than"; "into"; "over"; "between"; "through"; "using"; "via";
  "here"; "both"; "well"; "each"; "more"; "most"; "however";
  "yet"; "although"; "while"; "when"; "where"; "how"; "what"
].

(** [tokens[i:i+n]] for [i] in [range(len(tokens) - n + 1)] *)
Fixpoint windows (n : nat) (tokens : list string) : list (list string) :=
  match tokens with
  | [] => if n =? 0 then [[]] else []
  | _ :: rest =>
      if n <=? List.length tokens then firstn n tokens :: windows n rest else []
  end.

Definition extract_ngrams (text : string) (n : nat) : list string :=
  let tokens := tokenize text in
  flat_map
    (fun gram =>
       if existsb (fun t => mem t STOPWORDS || (len t <? 3)) gram then []
       else [join " " gram])
    (windows n tokens).

(** ** Opening / closing classification *)

Definition classify_opening (sentence : string) : string :=
  let s := strip (lower sentence) in
  if Re.matches (Re.re "^(despite|although|the\s+(challenge|problem|limitation|lack|difficulty))") s
  then "problem-first"
  else if Re.matches (Re.re "^(the\s+ability|achieving|controlling|harnessing)") s
  then "bold-claim"
  else if Re.matches (Re.re "^\w[\w\s,-]+\s+(offer|provide|enable|allow|permit)") s
  then "function-first"
  else "object-first".

Definition CLOSING_PATHWAY : Re.pattern :=
  Re.re "open[s]?\s+(a\s+)?pathway|pave[s]?\s+the\s+way|open[s]?\s+.*(route|prospect|door|possibilit)".
Definition CLOSING_PROMISE : Re.pattern :=
  Re.re "promis|potential|exciting|great promise".
Definition CLOSING_PARADIGM : Re.pattern :=
  Re.re "establish|paradigm|new\s+platform|framework|make[s]?\s+this".
Definition CLOSING_APPLICATION : Re.pattern :=
  Re.re "application|sensing|imaging|device|technolog|commerc|future\s+direction".
Definition CLOSING_QUANTITATIVE : Re.pattern :=
  Re.re "\d+-fold|\d+\s*%|factor\s+of".
Definition CLOSING_OUTLOOK : Re.pattern :=
  Re.re "avenue|enable|novel.*science|suitable.*platform|expand.*scope".

Definition classify_closing (sentence : string) : string :=
  let s := strip (lower sentence) in
  if Re.found CLOSING_PATHWAY s then "pathway"
  else if Re.found CLOSING_PROMISE s then "promise"
  else if Re.found CLOSING_PARADIGM s then "paradigm"
  else if Re.found CLOSING_APPLICATION s then "application"
  else if Re.found CLOSING_QUANTITATIVE s then "quantitative-recap"
  else if Re.found CLOSING_OUTLOOK s then "outlook"
  else "other".

(** ** Topic alignment *)

(** [round(x, nd)] for a real [x], a tie going to the even neighbour. *)
Definition Rround_half_even (x : R) : Z :=
  let f := Int_part x in
  if Rlt_dec (frac_part x) (1 / 2) then f
  else if Rlt_dec (1 / 2) (frac_part x) then (f + 1)%Z
  else if Z.even f then f else (f + 1)%Z.

Definition Rround (x : R) (nd : nat) : R :=
  (IZR (Rround_half_even (x * 10 ^ nd)) / 10 ^ nd)%R.

Record keyword_score : Type := KeywordScore {
  doc_frequency : nat;
  total_mentions : nat;
  tf_idf : R;
  coverage : nat * nat          (* "doc_freq/n_docs abstracts" *)
}.

Definition score_keyword (n_docs : nat) (abstract_texts : list string) (kw : string)
  : keyword_score :=
  let kw_lower := lower kw in
  let doc_freq :=
    List.length (filter (fun text => contains kw_lower (lower text)) abstract_texts) in
  let total_freq := sum (map (fun text => count kw_lower (lower text)) abstract_texts) in
  let idf := if 0 <? doc_freq then ln (INR n_docs / (1 + INR doc_freq)) else 0%R in
  let tf_idf := if 0 <? doc_freq then (INR total_freq * idf)%R else 0%R in
  KeywordScore doc_freq total_freq (Rround tf_idf 2) (doc_freq, n_docs).

Definition Rsum (l : list R) : R := fold_left Rplus l 0%R.

Definition compute_topic_alignment (manuscript_keywords abstract_texts : list string)
  : R * dict keyword_score :=
  let n_docs := List.length abstract_texts in
  if n_docs =? 0 then (0%R, [])
  else
    let keyword_scores :=
      fold_left (fun d kw => store kw (score_keyword n_docs abstract_texts kw) d)
                manuscript_keywords [] in
    let max_possible := (INR n_docs * ln (INR n_docs))%R in
    let total_tfidf := Rsum (map tf_idf (values keyword_scores)) in
    let alignment_pct := Rmin 100 (total_tfidf / Rmax max_possible 1 * 100) in
    (Rround alignment_pct 1, keyword_scores).

(** ** Hedging detection *)

Definition HEDGE_LEXICON : dict (list Re.pattern) := [
  ("ability", [Re.re "\bable to\b"; Re.re "\bcapable of\b"; Re.re "\bcan\b(?!not)"]);
  ("permission", [Re.re "\bpermitting\b"; Re.re "\ballowing\b"; Re.re "\benabling\b"]);
  ("promise", [Re.re "\bpromising\b"; Re.re "\bpromise\b"; Re.re "\bpaving the way\b";
               Re.re "\bopening.*?(?:avenues?|doors?|possibilit)\b"]);
  ("epistemic", [Re.re "\bmay\b"; Re.re "\bmight\b"; Re.re "\bsuggest(?:s|ing)?\b";
                 Re.re "\bindicat(?:es?|ing)\b"; Re.re "\bpotentially\b";
                 Re.re "\bpossibly\b"; Re.re "\blikely\b"]);
  ("approximation", [Re.re "\bapproximately\b"; Re.re "\babout\b"; Re.re "~";
                     Re.re "\bnearly\b"; Re.re "\broughly\b"]);
  ("tentative", [Re.re "\bto our knowledge\b"; Re.re "\bbelieve\b";
                 Re.re "\bconsistent with\b"; Re.re "\bcompatible with\b"])
].

Record hedge_info : Type := HedgeInfo {
  h_count : nat;
  h_examples : list string
}.

(** The matches of one category: every pattern in turn, each from the left. *)
Definition category_matches (patterns : list Re.pattern) (t_lower : string)
  : list string :=
  flat_map (fun pat => map Re.m_text (Re.finditer pat t_lower)) patterns.

Definition detect_hedges (text : string) : nat * dict hedge_info :=
  let t_lower := lower text in
  fold_left
    (fun '(total, results) '(category, patterns) =>
       let matches := category_matches patterns t_lower in
       (total + List.length matches,
        store category (HedgeInfo (List.length matches) (firstn 3 matches)) results))
    HEDGE_LEXICON (0, []).

Definition hedge_density (text : string) (n_sentences : nat) : Q :=
  let total := fst (detect_hedges text) in
  round (of_nat total / of_nat (Nat.max n_sentences 1)) 2.

(** ** Information density *)

Definition split_sentences (text : string) : list string :=
  let t := replace "e.g." "EG_PLACEHOLDER" text in
  let t := replace "i.e." "IE_PLACEHOLDER" t in
  let t := replace "et al." "ETAL_PLACEHOLDER" t in
  let t := replace "Fig." "FIG_PLACEHOLDER" t in
  let t := replace "Ext." "EXT_PLACEHOLDER" t in
  let t := Re.sub (Re.re "(\d)\.(\d)")
                  [Re.Ref 1; Re.Lit "DECIMAL_PLACEHOLDER"; Re.Ref 2] t in
  let sents := Re.split (Re.re "(?<=[.!?])\s+(?=[A-Z])") t in
  let restored :=
    map (fun s =>
           let s := replace "EG_PLACEHOLDER" "e.g." s in
           let s := replace "IE_PLACEHOLDER" "i.e." s in
           let s := replace "ETAL_PLACEHOLDER" "et al." s in
           let s := replace "FIG_PLACEHOLDER" "Fig." s in
           let s := replace "EXT_PLACEHOLDER" "Ext." s in
           let s := Re.sub (Re.re "(\d)DECIMAL_PLACEHOLDER(\d)")
                           [Re.Ref 1; Re.Lit "."; Re.Ref 2] s in
           strip s)
        sents in
  filter (fun s => negb (String.eqb s "")) restored.

(** [iu_set.add(x)]; the set is listed in the order of first insertion. *)
Definition set_add (x : string) (s : list string) : list string :=
  if mem x s then s else s ++ [x].

Definition add_all (xs : list string) (s : list string) : list string :=
  fold_left (fun acc x => set_add x acc) xs s.

(** [enumerate(words)] from index [i] on *)
Fixpoint enumerate_from {A} (i : nat) (l : list A) : list (nat * A) :=
  match l with
  | [] => []
  | x :: rest => (i, x) :: enumerate_from (S i) rest
  end.

(** The second pattern is the source's, byte for byte; its alternatives that
    are not ASCII cannot occur in an ASCII sentence.  Python lists a [set]
    in an order of its own; only the size of [iu_set] is used further on. *)
Definition count_information_units (sentence : string) : nat * list string :=
  let iu_set : list string := [] in
  (* 1. technical acronyms *)
  let iu_set :=
    add_all
      (flat_map (fun m => if negb (mem m ["A"; "I"; "We"]) then [("ACRO:" ++ m)%string] else [])
                (Re.findall (Re.re "\b([A-Z][A-Z0-9]{1,5})\b") sentence))
      iu_set in
  (* 2. numbers with units or comparators *)
  let iu_set :=
    add_all
      (map (fun m => ("NUM:" ++ strip m)%string)
           (Re.findall
              (Re.re "\d+(?:\.\d+)?\s*(?:[-Ã—]fold|cmâ»Â¹|nm|MHz|ms|Î¼s|%|samples?|biomarkers?)")
              sentence))
      iu_set in
  let iu_set :=
    add_all
      (map (fun m => ("NUM:" ++ strip m)%string)
           (Re.findall (Re.compile Re.IGNORECASE "(?:more than|greater than|>)\s*\d+")
                       sentence))
      iu_set in
  (* 3. capitalised proper nouns, not at the start of the sentence *)
  let words := split sentence in
  let iu_set :=
    add_all
      (flat_map
         (fun '(i, w) =>
            if (0 <? i) && Re.matches (Re.re "^[A-Z][a-z]{3,}$") w
            then [("PROP:" ++ w)%string] else [])
         (enumerate_from 0 words))
      iu_set in
  (* 4. hyphenated compounds *)
  let iu_set :=
    add_all
      (flat_map (fun m => if 6 <=? len m then [("HYPH:" ++ lower m)%string] else [])
                (Re.findall (Re.re "\b([a-zA-Z]+-[a-zA-Z]+(?:-[a-zA-Z]+)*)\b") sentence))
      iu_set in
  (* 5. domain noun phrases *)
  let domain_patterns := [
    Re.compile Re.IGNORECASE
      "\b(spectral|temporal|spatial|optical|molecular|vibrational|clinical|biological|quantum)\s+(resolution|fidelity|bandwidth|sensitivity|interference|fingerprint\w*|analysis|imaging|detection|scattering|tissue|sample\w*)\b"
  ] in
  let iu_set :=
    fold_left
      (fun acc pat =>
         add_all (map (fun m => ("NP:" ++ lower (join " " m))%string)
                      (Re.findall_groups pat sentence))
                 acc)
      domain_patterns iu_set in
  (List.length iu_set, iu_set).

Record iu_detail : Type := IuDetail {
  d_sentence : string;
  d_iu_count : nat;
  d_iu_items : list string
}.

(** [max(l)] of a list the caller knows is not empty *)
Definition list_max (l : list nat) : nat := fold_right Nat.max 0 l.

(** [l.index(x)]; [len(l)] stands for the [ValueError] of a missing [x]. *)
Fixpoint index (x : nat) (l : list nat) : nat :=
  match l with
  | [] => 0
  | y :: rest => if y =? x then 0 else S (index x rest)
  end.

(** [l[a:b]] *)
Definition slice {A} (a b : nat) (l : list A) : list A :=
  firstn (b - a) (skipn a l).

(** A Python [int] as the double it converts to (exactly, below 2^53). *)
Definition to_float (n : nat) : float :=
  PrimFloat.of_uint63 (Uint63.of_Z (Z.of_nat n)).

(** [a / b] of two [int]s: the double nearest the quotient. *)
Definition fdiv (a b : nat) : float := PrimFloat.div (to_float a) (to_float b).

#[local] Set Warnings "-inexact-float".

(** The shape of a profile of at least three sentences.  The comparisons of
    an [int] with a double and of two doubles are binary64's. *)
Definition classify_shape (densities : list nat) : string :=
  let n := List.length densities in
  let peak_idx := index (list_max densities) densities in
  let max_iu := list_max densities in
  if 6 <? max_iu then "spiky"
  else if PrimFloat.leb (to_float peak_idx) (PrimFloat.mul (to_float n) 0.3%float)
  then "front-loaded"
  else if PrimFloat.leb (PrimFloat.mul (to_float n) 0.7%float) (to_float peak_idx)
  then "back-loaded"
  else
    let mid := slice (n / 3) (2 * n / 3) densities in
    let mid_avg := fdiv (sum mid) (Nat.max (List.length mid) 1) in
    let edge_avg :=
      fdiv (sum (firstn (n / 3) densities) + sum (skipn (2 * n / 3) densities))
           (Nat.max (n - List.length mid) 1) in
    if PrimFloat.ltb (PrimFloat.mul edge_avg 1.2%float) mid_avg then "bell"
    else "flat".

Definition info_density_profile (text : string)
  : list nat * string * list iu_detail :=
  let sentences := split_sentences text in
  match sentences with
  | [] => ([], "empty", [])
  | _ =>
      let units := map (fun s => (s, count_information_units s)) sentences in
      let densities := map (fun '(_, (iu_count, _)) => iu_count) units in
      let details :=
        map (fun '(s, (iu_count, iu_items)) => IuDetail (take 80 s) iu_count iu_items)
            units in
      let n := List.length densities in
      if n <? 3 then (densities, "short", details)
      else (densities, classify_shape densities, details)
  end.

(** ** Domain-shift markers *)

Definition DOMAIN_SHIFT_PATTERNS : list Re.pattern := [
  Re.re "(?i)as a (?:medical|clinical|practical|industrial) (?:application|demonstration|validation)";
  Re.re "(?i)for (?:clinical|practical|industrial|medical) (?:use|deployment|validation|translation)";
  Re.re "(?i)in (?:clinical|in vivo|ex vivo|human|patient) (?:settings?|samples?|tests?|studies|trials?)";
  Re.re "(?i)towards? (?:clinical|practical|medical|real-world)";
  Re.re "(?i)we (?:further|also) (?:demonstrate|show|apply|validate)"
].

Record marker : Type := Marker {
  mk_match : string;
  mk_position : nat
}.

Definition detect_domain_shifts (text : string) : list marker :=
  flat_map
    (fun pat => map (fun m => Marker (Re.m_text m) (Re.m_start m)) (Re.finditer pat text))
    DOMAIN_SHIFT_PATTERNS.

(** ** The aggregator *)

(** One record of the corpus file: [a['doi']], [a['title']] and the
    optional [a.get(...)] fields. *)
Record sentence : Type := Sentence {
  s_position : nat;
  s_text : string
}.

Record abstract : Type := Abstract {
  doi : string;
  title : string;
  full_abstract : option string;
  sentences : option (list sentence);
  sentence_count : option nat
}.

(** [a.get('full_abstract')] as a truth value *)
Definition has_content (a : abstract) : bool :=
  match full_abstract a with
  | Some t => negb (String.eqb t "")
  | None => false
  end.

(** [a['full_abstract']] of a record that has content *)
Definition body (a : abstract) : string :=
  match full_abstract a with Some t => t | None => "" end.

(** [a.get('sentences', [])] *)
Definition get_sentences (a : abstract) : list sentence :=
  match sentences a with Some l => l | None => [] end.

(** [a.get('sentence_count', 0) or len(a.get('sentences', []))] *)
Definition count_or_len (a : abstract) : nat :=
  match sentence_count a with
  | Some (S k) => S k
  | _ => List.length (get_sentences a)
  end.

Record verb_entry : Type := VerbEntry {
  ve_verb : string;
  ve_count : nat;
  ve_rank : nat
}.

Record word_stats : Type := WordStats {
  wc_mean : Q;
  wc_median : nat;
  wc_min : nat;
  wc_max : nat;
  wc_std : Q
}.

Record sentence_stats : Type := SentenceStats {
  sc_mean : Q;
  sc_median : nat;
  sc_min : nat;
  sc_max : nat
}.

Record statistics : Type := Statistics {
  n_abstracts : nat;
  word_count : word_stats;
  sentence_count_stats : sentence_stats;
  words_per_sentence : Q
}.

Record pattern_report : Type := PatternReport {
  distribution : Counter;
  pr_total : nat;
  dominant : string * nat;
  pr_examples : dict string
}.

Record pivot_report : Type := PivotReport {
  abstracts_with_here_we : nat;
  pivot_percentage : Q;
  verb_after_here_we : list (string * nat)
}.

Record alignment_report : Type := AlignmentReport {
  score_pct : R;
  manuscript_keywords : list string;
  keyword_detail : dict keyword_score
}.

Record hedging_report : Type := HedgingReport {
  mean_hedges_per_sentence : Q;
  total_hedges : nat;
  category_totals : Counter;
  density_per_abstract : list Q
}.

Record density_example : Type := DensityExample {
  de_doi : string;
  de_shape : string;
  de_profile : list nat
}.

Record density_report : Type := DensityReport {
  mean_iu_per_sentence : Q;
  max_iu_in_corpus : nat;
  shape_distribution : Counter;
  density_examples : list density_example;
  target_peak : Z               (* the number in the recommendation text *)
}.

Record shift_report : Type := ShiftReport {
  abstracts_with_markers : nat;
  shift_percentage : Q;
  shift_examples : list (string * list string)
}.

Record report : Type := Report {
  n_analyzed : nat;
  n_total : nat;
  verb_frequency : list verb_entry;
  here_we_pivot : pivot_report;
  bigrams : list (string * nat);
  trigrams : list (string * nat);
  sentence_statistics : statistics;
  opening_patterns : pattern_report;
  closing_patterns : pattern_report;
  topic_alignment : alignment_report;
  discourse_hedging : hedging_report;
  discourse_info_density : density_report;
  discourse_domain_shift : shift_report
}.

(** How a run ends: [sys.exit] after a diagnostic, an uncaught exception
    before anything is saved, or the report saved, the closing [print]s
    possibly raising after that. *)
Inductive outcome : Type :=
| Exit (status : nat) (diagnostic : string)
| Uncaught (e : exn)
| Saved (r : report) (afterwards : option exn).

Fixpoint map_result {A B} (f : A -> result B) (l : list A) : result (list B) :=
  match l with
  | [] => Ok []
  | x :: rest =>
      y <- f x ;;
      ys <- map_result f rest ;;
      Ok (y :: ys)
  end.

(** Section 3 of [analyze]: the [stats] dictionary, its entries evaluated in
    the order they are written. *)
Definition compute_statistics (valid : list abstract) : result statistics :=
  let word_counts := map (fun a => List.length (split (body a))) valid in
  let sentence_counts := map count_or_len valid in
  let n_words := of_nat (List.length word_counts) in
  mean <- truediv (of_nat (sum word_counts)) n_words ;;
  median <- item (sorted word_counts) (List.length word_counts / 2) ;;
  lo <- minimum word_counts ;;
  hi <- maximum word_counts ;;
  squares <- map_result
               (fun x =>
                  m <- truediv (of_nat (sum word_counts)) n_words ;;
                  let d := fl (float_of x - m) in
                  Ok (fl (d * d)))
               word_counts ;;
  variance <- truediv (fsum squares) (float_of (List.length word_counts)) ;;
  s_mean <- truediv (of_nat (sum sentence_counts))
                    (of_nat (List.length sentence_counts)) ;;
  s_median <- item (sorted sentence_counts) (List.length sentence_counts / 2) ;;
  s_lo <- minimum sentence_counts ;;
  s_hi <- maximum sentence_counts ;;
  Ok (Statistics
        (List.length valid)
        (WordStats (round mean 1) median lo hi (round (fsqrt variance) 1))
        (SentenceStats (round s_mean 1) s_median s_lo s_hi)
        (round (of_nat (sum word_counts) / of_nat (Nat.max (sum sentence_counts) 1)) 1)).

(** Section 4: one opening and one closing label for every abstract that
    has sentences, with the first example of each label. *)
Definition classify_patterns (valid : list abstract)
  : Counter * Counter * dict string * dict string :=
  fold_left
    (fun '(opening, closing, ex_open, ex_close) a =>
       match get_sentences a with
       | [] => (opening, closing, ex_open, ex_close)
       | s0 :: rest =>
           let first := s_text s0 in
           let last := s_text (List.last rest s0) in
           let op := classify_opening first in
           let cl := classify_closing last in
           (add op 1 opening, add cl 1 closing,
            match lookup op ex_open with
            | None => store op (take 100 first) ex_open
            | Some _ => ex_open
            end,
            match lookup cl ex_close with
            | None => store cl (take 100 last) ex_close
            | Some _ => ex_close
            end)
       end)
    valid ([], [], [], []).

Definition pattern_summary (c : Counter) (examples : dict string) : pattern_report :=
  PatternReport c (sum (values c))
    (match most_common 1 c with x :: _ => x | [] => ("unknown", 0) end)
    examples.

(** Section 7: the sentence count the hedge density of a record is taken
    over. *)
Definition n_sents (a : abstract) : nat := count_or_len a.

Definition hedging (valid : list abstract) : hedging_report :=
  let hedge_densities :=
    map (fun a => hedge_density (body a) (Nat.max (n_sents a) 1)) valid in
  let hedge_totals := map (fun a => fst (detect_hedges (body a))) valid in
  let all_hedge_categories :=
    fold_left
      (fun acc a =>
         fold_left (fun acc' '(cat, info) => add cat (h_count info) acc')
                   (snd (detect_hedges (body a))) acc)
      valid [] in
  HedgingReport
    (round (fsum hedge_densities / float_of (Nat.max (List.length hedge_densities) 1)) 2)
    (sum hedge_totals) all_hedge_categories hedge_densities.

(** Section 8 *)
Definition information_density (valid : list abstract) : density_report :=
  let profiles := map (fun a => (doi a, info_density_profile (body a))) valid in
  let density_shapes :=
    fold_left (fun acc '(_, (_, shape, _)) => add shape 1 acc) profiles [] in
  let all_densities := flat_map (fun '(_, (densities, _, _)) => densities) profiles in
  let examples :=
    map (fun '(d, (densities, shape, _)) => DensityExample d shape densities)
        (firstn 3 profiles) in
  let mean_iu :=
    round (of_nat (sum all_densities) / of_nat (Nat.max (List.length all_densities) 1)) 1 in
  let max_iu := list_max all_densities in
  DensityReport mean_iu max_iu density_shapes examples
                (Z.max 5 (int (fl (mean_iu + (3 # 2))))).

(** Section 9 *)
Definition domain_shift (valid : list abstract) : shift_report :=
  let marked :=
    filter (fun '(_, markers) => negb (Nat.eqb (List.length markers) 0))
           (map (fun a => (doi a, map mk_match (detect_domain_shifts (body a)))) valid) in
  let n_with_markers := List.length marked in
  ShiftReport n_with_markers
    (round (of_nat (100 * n_with_markers) / of_nat (Nat.max (List.length valid) 1)) 1)
    (firstn 5 marked).

(** Section 6: the verbs after "Here we". *)
Definition here_we (valid : list abstract) : nat * Counter :=
  fold_left
    (fun '(here_we_count, here_we_verbs) a =>
       match Re.findall (Re.re "[Hh]ere\s+we\s+(\w+)") (body a) with
       | [] => (here_we_count, here_we_verbs)
       | matches =>
           (here_we_count + 1,
            fold_left (fun acc v => add (normalize (lower v)) 1 acc) matches here_we_verbs)
       end)
    valid (0, []).

Definition analyze (abstracts : list abstract) (keywords : option (list string))
  : outcome :=
  match abstracts with
  | [] => Exit 1 "No abstracts to analyze"
  | _ =>
      let valid := filter has_content abstracts in
      (* 1. verb frequency *)
      let all_verbs := flat_map (fun a => extract_verbs (body a)) valid in
      let verb_freq := most_common 20 (count_all all_verbs) in
      (* 2. n-gram frequency *)
      let bigram_freq :=
        most_common 30 (count_all (flat_map (fun a => extract_ngrams (body a) 2) valid)) in
      let trigram_freq :=
        most_common 20 (count_all (flat_map (fun a => extract_ngrams (body a) 3) valid)) in
      (* 3. sentence statistics *)
      match compute_statistics valid with
      | Raise e => Uncaught e
      | Ok stats =>
          (* 4. opening / closing patterns *)
          let '(opening, closing, ex_open, ex_close) := classify_patterns valid in
          (* 5. topic alignment *)
          let manuscript_keywords := match keywords with Some k => k | None => [] end in
          let abstract_texts := map body valid in
          let '(alignment_score, keyword_detail) :=
            compute_topic_alignment manuscript_keywords abstract_texts in
          (* 7 - 9. discourse features; 6. the "Here we" pivot *)
          let '(here_we_count, here_we_verbs) := here_we valid in
          (* the report; its pivot percentage is an unguarded quotient *)
          match truediv (of_nat (100 * here_we_count)) (of_nat (List.length valid)) with
          | Raise e => Uncaught e
          | Ok pct =>
              Saved
                (Report
                   (List.length valid) (List.length abstracts)
                   (map (fun '(i, (v, c)) => VerbEntry v c (i + 1))
                        (enumerate_from 0 verb_freq))
                   (PivotReport here_we_count (round pct 1)
                                (most_common 10 here_we_verbs))
                   (firstn 20 bigram_freq) (firstn 15 trigram_freq)
                   stats
                   (pattern_summary opening ex_open)
                   (pattern_summary closing ex_close)
                   (AlignmentReport alignment_score manuscript_keywords keyword_detail)
                   (hedging valid)
                   (information_density valid)
                   (domain_shift valid))
                (* print(... verb_freq[0][0] ...) after the report is saved *)
                (match verb_freq with [] => Some IndexError | _ => None end)
          end
      end
  end.

(** ** Adaptive keyword extraction *)

Definition _KW_STOPS : list string := [
  (* English function words and auxiliaries *)
  "the"; "for"; "with"; "from"; "this"; "and"; "not"; "while"; "here";
  "what"; "how"; "but"; "also"; "only"; "most"; "each"; "both"; "all";
  "can"; "may"; "will"; "should"; "must"; "has"; "had"; "was"; "were";
  "are"; "been"; "being"; "more"; "less"; "than"; "does"; "into"; "over";
  "between"; "through"; "about"; "under"; "after"; "before"; "where";
  (* academic section / table headers / Markdown template words *)
  "abstract"; "introduction"; "results"; "discussion"; "methods";
  "references"; "figure"; "table"; "source"; "context"; "metric";
  "value"; "priority"; "claim"; "section"; "supporting"; "strength";
  "gap"; "key"; "result"; "impact"; "novelty"; "mechanism"; "one";
  "fact"; "base"; "logic"; "graph"; "narrative"; "inventory";
  "sentence"; "coverage"; "check"; "paragraph";
  (* common scientific verbs / adjectives *)
  "covers"; "converts"; "produces"; "enables"; "first"; "novel";
  "using"; "based"; "compared"; "across"; "applied"; "measured";
  "demonstrated"; "achieved"; "show"; "shows"; "shown"; "report";
  "strong"; "moderate"; "weak"; "direct"; "indirect"; "overall";
  "high"; "low"; "new"; "large"; "small"; "per"; "non"; "pre"; "sub";
  (* Markdown / formatting noise and generic scientific nouns *)
  "auto"; "epi"; "fig"; "ref"; "see"; "note"; "data"; "ext";
  "experimental"; "commercial"; "standard"; "single"; "no";
  "off"; "on"; "focus"; "side"; "optimization"; "resolution";
  "sample"; "imaging"; "detection"; "analysis"; "technique";
  "approach"; "system"; "mode"; "band"; "range"; "type"; "step";
  "level"; "rate"; "field"; "point"; "time"; "speed"; "limit";
  (* ultra-common scientific domain terms *)
  "raman"; "spectral"; "spectrum"; "spectra"; "clinical"; "laser";
  "optical"; "signal"; "fluorescence"; "microscopy"; "microscope";
  "wavelength"; "power"; "pulse"; "pulses"; "measurement";
  (* common hyphenated modifier phrases *)
  "state-of-the-art"; "high-quality"; "high-speed"; "high-fidelity";
  "high-performance"; "high-throughput"; "high-resolution"; "high-sensitivity";
  "label-free"; "real-time"; "large-scale"; "long-term"; "low-cost"
].

Definition ACRONYM : Re.pattern := Re.re "\b([A-Z][A-Z0-9]{2,5})\b".
Definition HYPHENATED : Re.pattern := Re.re "\b([a-zA-Z]+-[a-zA-Z]+(?:-[a-zA-Z]+)*)\b".
Definition PROPER_NOUN : Re.pattern := Re.re "\b([A-Z][a-z]{3,})\b".

(** The pre-cleaning of [_extract_terms]. *)
Definition clean_text (text : string) : string :=
  let clean := Re.sub (Re.re "\b[FC]\d{1,2}\b") [] text in
  let clean := Re.sub (Re.re "[|â˜…#]") [Re.Lit " "] clean in
  Re.sub (Re.re "\s+") [Re.Lit " "] clean.

(** The bodies of the three loops of [_extract_terms]: the key a match
    counts under, if it passes the stop-word filter. *)
Definition acronym_key (m : string) : option string :=
  if negb (mem (lower m) _KW_STOPS) then Some m else None.

Definition hyphenated_key (m : string) : option string :=
  let parts := split_on "-" (lower m) in
  if (6 <=? len m) && negb (forallb (fun p => mem p _KW_STOPS) parts) then
    let normalized := lower m in
    if negb (mem normalized _KW_STOPS) then Some normalized else None
  else None.

Definition proper_noun_key (m : string) : option string :=
  if negb (mem (lower m) _KW_STOPS) then Some m else None.

(** [for m in matches: if key(m): counter[key(m)] += 1] *)
Definition count_matches (key : string -> option string) (matches : list string)
  (counter : Counter) : Counter :=
  fold_left
    (fun c m => match key m with Some k => add k 1 c | None => c end)
    matches counter.

(** The counter is updated in place in the source; here the updated counter
    is returned. *)
Definition _extract_terms (text : string) (counter : Counter) : Counter :=
  let clean := clean_text text in
  let counter := count_matches acronym_key (Re.findall ACRONYM clean) counter in
  let counter := count_matches hyphenated_key (Re.findall HYPHENATED clean) counter in
  count_matches proper_noun_key (Re.findall PROPER_NOUN clean) counter.

(** [re.search(p, content, re.DOTALL)] followed by
    [if section: _extract_terms(section.group(), candidates)] *)
Definition scan_section (p : string) (content : string) (candidates : Counter)
  : Counter :=
  match Re.search (Re.compile Re.DOTALL p) content with
  | Some section => _extract_terms (Re.m_text section) candidates
  | None => candidates
  end.

(** The candidates of the three structured sections. *)
Definition section_candidates (content : string) : Counter :=
  let candidates : Counter := [] in
  let candidates := scan_section "## 1\. Fact Base.*?(?=## 2\.|$)" content candidates in
  let candidates := scan_section "## 3\. Claims.*?(?=$)" content candidates in
  scan_section "## 2\. Logic Graph.*?(?=## 3\.|$)" content candidates.

(** The candidates after the fallback. *)
Definition all_candidates (content : string) : Counter :=
  let candidates := section_candidates content in
  if List.length candidates <? 5 then _extract_terms content candidates
  else candidates.

(** [re.escape(term)] as a pattern: the characters of [term], literally. *)
Definition escape (term : string) : Re.pattern :=
  Re.Pattern (fold_right (fun c r => Re.Cat (Re.Sym (eqc c)) r) Re.Eps (chars term)) 0.

Definition doc_freq_of (content term : string) : nat :=
  if isupper term then List.length (Re.findall (escape term) content)
  else count (lower term) (lower content).

(** The type weights 3.0, 2.0 and 1.0; they are whole, so the scores are. *)
Definition weight_of (term : string) : nat :=
  if isupper term then 3
  else if contains "-" term then 2
  else 1.

(** One entry of [scored]: [(term, score, doc_freq)]. *)
Definition score_entry (content : string) (entry : string * nat)
  : string * nat * nat :=
  let '(term, section_freq) := entry in
  let doc_freq := doc_freq_of content term in
  (term, weight_of term * Nat.max doc_freq section_freq, doc_freq).

Definition scored (content : string) : list (string * nat * nat) :=
  map (score_entry content) (all_candidates content).

Definition extract_keywords_from_semantic_core (content : string) : list string :=
  let ranked := sort_desc (fun x => snd (fst x)) (scored content) in
  map (fun t => fst (fst t)) (firstn 15 ranked).

(** ** The specification's readings *)

(** The closing rules as an ordered table, the first rule whose pattern is
    found giving the label. *)
Definition CLOSING_RULES : list (Re.pattern * string) := [
  (CLOSING_PATHWAY, "pathway");
  (CLOSING_PROMISE, "promise");
  (CLOSING_PARADIGM, "paradigm");
  (CLOSING_APPLICATION, "application");
  (CLOSING_QUANTITATIVE, "quantitative-recap");
  (CLOSING_OUTLOOK, "outlook")
].

Fixpoint first_matching (rules : list (Re.pattern * string)) (s default : string)
  : string :=
  match rules with
  | [] => default
  | (p, label) :: rest =>
      if Re.found p s then label else first_matching rest s default
  end.

(** Verbs "in textual order": the offsets of their matches never decrease
    along the sequence. *)
Definition textual_order (occurrences : list (nat * string)) : Prop :=
  StronglySorted le (map fst occurrences).

(** The mean of a list of IU counts, as a double. *)
Definition mean (l : list nat) : float := fdiv (sum l) (List.length l).

#[local] Set Warnings "-inexact-float".

(** The shape rule in the specification's words, for a profile [d] of
    length [n]: short below three sentences; spiky above six units; else
    front-loaded or back-loaded by the place of the first maximum against
    [0.3 n] and [0.7 n]; else bell when the mean of the middle third
    [d[n/3 : 2n/3]] exceeds 1.2 times the mean of the other entries, flat
    otherwise.  The products and quotients are binary64's. *)
Definition spec_shape (d : list nat) : string :=
  let n := List.length d in
  if n <? 3 then "short"
  else if 6 <? list_max d then "spiky"
  else
    let peak := index (list_max d) d in
    if PrimFloat.leb (to_float peak) (PrimFloat.mul (to_float n) 0.3%float)
    then "front-loaded"
    else if PrimFloat.leb (PrimFloat.mul (to_float n) 0.7%float) (to_float peak)
    then "back-loaded"
    else
      let middle := slice (n / 3) (2 * n / 3) d in
      let others := firstn (n / 3) d ++ skipn (2 * n / 3) d in
      if PrimFloat.ltb (PrimFloat.mul (mean others) 1.2%float) (mean middle)
      then "bell"
      else "flat".

(** The profile of a text: the IU count of each of its sentences. *)
Definition iu_profile (text : string) : list nat :=
  map (fun s => fst (count_information_units s)) (split_sentences text).

(** A hyphenated match is kept as a candidate when it has six characters or
    more, one of its hyphen-separated parts is not a stop word, and its
    lower-case form is not itself a stop word. *)
Definition hyphenated_kept (m : string) : bool :=
  (6 <=? len m)
  && existsb (fun p => negb (mem p _KW_STOPS)) (split_on "-" (lower m))
  && negb (mem (lower m) _KW_STOPS).

(** The occurrences of a term in a text: the matches of the three term
    patterns in the cleaned text that are counted under the term. *)
Definition counted_as (key : string -> option string) (term : string)
  (matches : list string) : nat :=
  List.length
    (filter (fun m => match key m with
                      | Some k => String.eqb term k
                      | None => false
                      end) matches).

Definition occurrences (term text : string) : nat :=
  let clean := clean_text text in
  counted_as acronym_key term (Re.findall ACRONYM clean)
  + counted_as hyphenated_key term (Re.findall HYPHENATED clean)
  + counted_as proper_noun_key term (Re.findall PROPER_NOUN clean).

(** The structured sections of a semantic core that are found in it, in the
    order in which they are scanned: Fact Base, Claims, Logic Graph. *)
Definition SECTIONS : list string := [
  "## 1\. Fact Base.*?(?=## 2\.|$)";
  "## 3\. Claims.*?(?=$)";
  "## 2\. Logic Graph.*?(?=## 3\.|$)"
].

Definition sections (content : string) : list string :=
  flat_map
    (fun p => match Re.search (Re.compile Re.DOTALL p) content with
              | Some section => [Re.m_text section]
              | None => []
              end)
    SECTIONS.

(** The section occurrences of a term: its occurrences in the sections. *)
Definition section_occurrences (term content : string) : nat :=
  sum (map (occurrences term) (sections content)).

(** A semantic core: a line of text, a Fact Base that names SRS twice and a
    Logic Graph that names one compound. *)
Definition sample_core : string :=
  "A near-field SRS probe. ## 1. Fact Base SRS gain SRS ## 2. Logic Graph near-field".

(** The hedging matches of a text, each with its category: what
    [detect_hedges] counts. *)
Definition hedge_matches (text : string) : list (string * string) :=
  flat_map
    (fun '(category, patterns) =>
       map (pair category) (category_matches patterns (lower text)))
    HEDGE_LEXICON.

(** The precomputed sentence count of a record: its [sentence_count] when
    that is not zero, else the number of its precomputed sentences; at
    least 1. *)
Definition precomputed_count (a : abstract) : nat :=
  match sentence_count a with
  | Some (S k) => S k
  | _ => Nat.max (List.length (get_sentences a)) 1
  end.

(** A record with text and nothing precomputed, and a record without text. *)
Definition bare_record : abstract :=
  Abstract "10.1000/example" "Example" (Some "We can do X. It may work.") None None.

Definition blank_record : abstract :=
  Abstract "10.1000/blank" "Untitled" None None None.

(** A small corpus: three records with their sentences precomputed, the
    record with text only and the record without text. *)
Definition raman_record : abstract :=
  Abstract "10.1000/raman" "Fast Raman imaging"
    (Some "Despite progress, fast Raman imaging is slow. Here we demonstrate a label-free SRS probe with 5-fold gain. We show fast Raman imaging in clinical samples. This opens a pathway towards clinical use.")
    (Some [Sentence 0 "Despite progress, fast Raman imaging is slow.";
           Sentence 1 "Here we demonstrate a label-free SRS probe with 5-fold gain.";
           Sentence 2 "We show fast Raman imaging in clinical samples.";
           Sentence 3 "This opens a pathway towards clinical use."])
    (Some 4).

Definition comb_record : abstract :=
  Abstract "10.1000/comb" "A compact comb source"
    (Some "Optical combs offer precise rulers. Here we demonstrate a compact comb source. We also show stable locking in clinical samples. The results establish a new platform for sensing.")
    (Some [Sentence 0 "Optical combs offer precise rulers.";
           Sentence 1 "Here we demonstrate a compact comb source.";
           Sentence 2 "We also show stable locking in clinical samples.";
           Sentence 3 "The results establish a new platform for sensing."])
    None.

Definition lidar_record : abstract :=
  Abstract "10.1000/lidar" "Dual-comb ranging"
    (Some "Although lidar is mature, ranging is slow. Here we report a dual-comb ranging method with 3 nm precision, thereby enabling fast ranging. Our method paves the way to precise metrology.")
    (Some [Sentence 0 "Although lidar is mature, ranging is slow.";
           Sentence 1 "Here we report a dual-comb ranging method with 3 nm precision, thereby enabling fast ranging.";
           Sentence 2 "Our method paves the way to precise metrology."])
    (Some 3).

Definition sample_corpus : list abstract :=
  [raman_record; comb_record; blank_record; lidar_record; bare_record].

(** A record whose sentences are packed with acronyms, quantities and
    compounds, and a corpus with it. *)
Definition dense_record : abstract :=
  Abstract "10.1000/dense" "Packed"
    (Some "SRS, FID and TERS reach 5 nm, 10 MHz and 92% in label-free near-field Raman imaging. XPS, AFM and STM resolve 3 nm, 7 ms and 40% with mode-locked few-cycle Kerr combs. CARS and SERS detect 12 samples at 2 MHz in Bragg gratings.")
    None None.

Definition dense_corpus : list abstract := [dense_record; bare_record].

(** ** Invariants of the matcher *)

(** The text a position lies in. *)
Definition text_of (s : Re.mstate) : list ascii := rev (Re.pre s) ++ Re.post s.

(** [s'] lies in the same text as [s], not before it. *)
Definition ahead_of (s s' : Re.mstate) : Prop :=
  text_of s' = text_of s /\ Re.pos s <= Re.pos s'.

(** What a matcher of one expression must satisfy for the lemmas on
    repetition: a success goes through the continuation, at a position
    ahead in the same text; and the result depends on the continuation at
    such positions only. *)
Definition reaches_ahead (body : Re.mstate -> (Re.mstate -> option Re.mstate) -> option Re.mstate)
  : Prop :=
  forall s k sf, body s k = Some sf -> exists s', ahead_of s s' /\ k s' = Some sf.

Definition depends_ahead (body : Re.mstate -> (Re.mstate -> option Re.mstate) -> option Re.mstate)
  : Prop :=
  forall s k k', (forall s', ahead_of s s' -> k s' = k' s') -> body s k = body s k'.


(** ** Readings for the further properties *)

(** A list by non-increasing key. *)
Definition descending {A} (key : A -> nat) (l : list A) : Prop :=
  StronglySorted (fun a b => key b <= key a) l.

(** [l1] is the beginning of [l2]. *)
Definition prefix_of {A} (l1 l2 : list A) : Prop := exists rest, l1 ++ rest = l2.

(** The distinct elements of a list, in the order first met. *)
Definition first_seen (xs : list string) : list string := add_all xs [].

(** The abstracts a run analyses, and all the verbs extracted from them. *)
Definition valid_of (abstracts : list abstract) : list abstract :=
  filter has_content abstracts.

Definition all_verbs_of (abstracts : list abstract) : list string :=
  flat_map (fun a => extract_verbs (body a)) (valid_of abstracts).

(** What [Counter(xs).most_common(n)] is, against [xs]: at most [n] entries,
    no key twice; the count of a key is its number of occurrences in [xs];
    counts never increase down the list, and keys of equal count stand in
    the order first met; a key of [xs] left out has no more occurrences
    than any key listed; with [n] distinct keys or fewer every key is
    listed. *)
Definition ranked (n : nat) (xs : list string) (top : list (string * nat)) : Prop :=
  List.length top <= n
  /\ NoDup (map fst top)
  /\ Forall (fun e => snd e = count_occ string_dec xs (fst e) /\ 1 <= snd e) top
  /\ descending snd top
  /\ (forall k,
        prefix_of (map fst (filter (fun e => snd e =? k) top))
                  (filter (fun v => count_occ string_dec xs v =? k) (first_seen xs)))
  /\ (forall v, In v xs -> ~ In v (map fst top) ->
                List.length top = n
                /\ Forall (fun e => count_occ string_dec xs v <= snd e) top)
  /\ (List.length (first_seen xs) <= n -> Permutation (map fst top) (first_seen xs)).

(** The verb ranking of a report, against the verbs extracted: the twenty
    most common, numbered 1, 2, ... *)
Definition ranked_verbs (all_verbs : list string) (vf : list verb_entry) : Prop :=
  map ve_rank vf = seq 1 (List.length vf)
  /\ ranked 20 all_verbs (map (fun e => (ve_verb e, ve_count e)) vf).

(** ** What a match can be made of *)

(** A lower bound on the number of characters an expression reads, and the
    characters it can read. *)
Fixpoint min_len (r : Re.regex) : nat :=
  match r with
  | Re.Sym _ => 1
  | Re.Cat a b => min_len a + min_len b
  | Re.Alt a b => Nat.min (min_len a) (min_len b)
  | Re.Grp _ a => min_len a
  | _ => 0
  end.

Fixpoint alphabet (r : Re.regex) (c : ascii) : bool :=
  match r with
  | Re.Sym p => p c
  | Re.Cat a b | Re.Alt a b => alphabet a c || alphabet b c
  | Re.Rep _ a | Re.Grp _ a => alphabet a c
  | _ => false
  end.

(** From [s] to [s'] the matcher has read [l], at least [w] characters, all
    of them in [ok]. *)
Definition spans (ok : ascii -> bool) (w : nat) (s s' : Re.mstate) (l : list ascii)
  : Prop :=
  Re.post s = l ++ Re.post s' /\ Re.pre s' = rev l ++ Re.pre s
  /\ w <= List.length l /\ forallb ok l = true.

(** A matcher of one expression reads only such spans. *)
Definition reads_spans (ok : ascii -> bool) (w : nat)
  (body : Re.mstate -> (Re.mstate -> option Re.mstate) -> option Re.mstate) : Prop :=
  forall s k sf, body s k = Some sf ->
    exists s' l, spans ok w s s' l /\ k s' = Some sf.

(** A match lies in a text: the text is [before ++ m.group() ++ after] with
    [before] as long as [m.start()], and [m.end()] is where [after] begins. *)
Definition lies_in (text : list ascii) (m : Re.mtch) : Prop :=
  exists before after,
    text = before ++ chars (Re.m_text m) ++ after
    /\ List.length before = Re.m_start m
    /\ Re.m_end m = Re.m_start m + len (Re.m_text m).

(** All the 256 characters. *)
Definition all_chars : list ascii := map ascii_of_nat (seq 0 256).

(** The kinds of information unit, as the tags of the items. *)
Definition IU_TAGS : list string := ["ACRO:"; "NUM:"; "PROP:"; "HYPH:"; "NP:"].

Definition tagged (item : string) : Prop :=
  exists tag rest, In tag IU_TAGS /\ item = (tag ++ rest)%string.

(** The shapes a profile can have. *)
Definition SHAPES : list string :=
  ["empty"; "short"; "spiky"; "front-loaded"; "back-loaded"; "bell"; "flat"].

(** The rational a double of the kernel is. *)
Definition value (x : float) : Q :=
  match Prim2SF x with
  | S754_finite s m e =>
      Qred ((if s then - 1 else 1) * inject_Z (Zpos m) * pow2 e)%Q
  | _ => 0%Q
  end.

(** [fl], the quotient, the sum, the difference, the square and the root
    against the kernel's on the doubles [a / b], [1 <= a, b <= k]. *)
Definition floats_agree (k : nat) : bool :=
  forallb
    (fun a =>
       forallb
         (fun b =>
            let x := fdiv (S a) (S b) in
            Qeq_bool (value x) (fl (of_nat (S a) / of_nat (S b)))
            && Qeq_bool (value (PrimFloat.add x (to_float (S b))))
                        (fl (value x + float_of (S b)))
            && Qeq_bool (value (PrimFloat.sub (to_float (S b)) x))
                        (fl (float_of (S b) - value x))
            && Qeq_bool (value (PrimFloat.mul x x)) (fl (value x * value x))
            && Qeq_bool (value (PrimFloat.sqrt x)) (fsqrt (value x)))
         (seq 0 k))
    (seq 0 k).

(** The two threshold tests of [classify_shape] on doubles, and in exact
    arithmetic. *)
Definition float_tests (n peak : nat) : bool * bool :=
  (PrimFloat.leb (to_float peak) (PrimFloat.mul (to_float n) 0.3%float),
   PrimFloat.leb (PrimFloat.mul (to_float n) 0.7%float) (to_float peak)).

Definition exact_tests (n peak : nat) : bool * bool :=
  let n := N.of_nat n in
  let peak := N.of_nat peak in
  ((10 * peak <=? 3 * n)%N, (7 * n <=? 10 * peak)%N).

Definition same_tests (n peak : nat) : bool :=
  let '(f1, f2) := float_tests n peak in
  let '(e1, e2) := exact_tests n peak in
  Bool.eqb f1 e1 && Bool.eqb f2 e2.

(** What [detect_hedges] records for one category of the lexicon. *)
Definition hedge_entry (t_lower : string) (entry : string * list Re.pattern)
  : string * hedge_info :=
  let matches := category_matches (snd entry) t_lower in
  (fst entry, HedgeInfo (List.length matches) (firstn 3 matches)).

Definition HEDGE_CATEGORIES : list string :=
  ["ability"; "permission"; "promise"; "epistemic"; "approximation"; "tentative"].

(** What the statistics of a list of counts must satisfy: the extremes and
    the median are counts of the list, every count lies between the
    extremes, and so does the mean, a float, between the floats of the
    extremes. *)
Definition summarises (counts : list nat) (lo hi median : nat) (mean : Q) : Prop :=
  In lo counts /\ In hi counts /\ In median counts
  /\ Forall (fun x => lo <= x <= hi) counts
  /\ (float_of lo <= mean <= float_of hi)%Q.

(** All the n-grams of the abstracts a run analyses. *)
Definition all_ngrams_of (n : nat) (abstracts : list abstract) : list string :=
  flat_map (fun a => extract_ngrams (body a) n) (valid_of abstracts).

(** The keywords a run is given ([None] stands for no argument). *)
Definition given (keywords : option (list string)) : list string :=
  match keywords with Some k => k | None => [] end.

(** The words after "Here we" in an abstract, lower-cased and normalised
    (stop verbs included), and whether there is one. *)
Definition pivot_verbs (a : abstract) : list string :=
  map (fun v => normalize (lower v)) (Re.findall (Re.re "[Hh]ere\s+we\s+(\w+)") (body a)).

Definition has_pivot (a : abstract) : bool :=
  match pivot_verbs a with [] => false | _ => true end.

(** A percentage of [k] out of [n], to one decimal. *)
Definition percentage_of (k n : nat) (pct : Q) : Prop :=
  k <= n /\ (0 <= pct <= 100)%Q /\ (k = 0 -> (pct == 0)%Q)
  /\ (k = n -> 0 < n -> (pct == 100)%Q).

(** Whether an abstract reports a domain-shift marker. *)
Definition has_marker (a : abstract) : bool :=
  negb (List.length (detect_domain_shifts (body a)) =? 0).

(** The abstracts with precomputed sentences, the only ones whose opening
    and closing are classified; their first and last sentence, and the
    labels of these. *)
Definition has_sentences (a : abstract) : bool :=
  match get_sentences a with [] => false | _ => true end.

Definition first_text (a : abstract) : string :=
  match get_sentences a with s0 :: _ => s_text s0 | [] => "" end.

Definition last_text (a : abstract) : string :=
  match get_sentences a with s0 :: rest => s_text (List.last rest s0) | [] => "" end.

Definition OPENINGS : list string :=
  ["problem-first"; "bold-claim"; "function-first"; "object-first"].

Definition CLOSINGS : list string :=
  ["pathway"; "promise"; "paradigm"; "application"; "quantitative-recap"; "outlook";
   "other"].

(** The classified sentences of a corpus, each with its label. *)
Definition openings (valid : list abstract) : list (string * string) :=
  map (fun a => (classify_opening (first_text a), first_text a))
      (filter has_sentences valid).

Definition closings (valid : list abstract) : list (string * string) :=
  map (fun a => (classify_closing (last_text a), last_text a))
      (filter has_sentences valid).

(** [if label not in examples: examples[label] = text[:100]], for every
    labelled sentence in turn. *)
Definition examples_of (labelled : list (string * string)) (examples : dict string)
  : dict string :=
  fold_left
    (fun ex '(label, text) =>
       match lookup label ex with
       | None => store label (take 100 text) ex
       | Some _ => ex
       end)
    labelled examples.

(** What a section on opening or closing patterns is, against the labels of
    the classified sentences: the distribution counts the labels, the total
    is their number, the dominant label is one of the most frequent
    ("unknown" when nothing was classified), and every label met has one
    example, the first 100 characters of the first sentence with it. *)
Definition summarises_patterns (labelled : list (string * string)) (p : pattern_report)
  : Prop :=
  distribution p = count_all (map fst labelled)
  /\ pr_total p = List.length labelled
  /\ (forall label, count_occ string_dec (map fst labelled) label <= snd (dominant p))
  /\ match labelled with
     | [] => dominant p = ("unknown", 0)
     | _ => snd (dominant p) = count_occ string_dec (map fst labelled) (fst (dominant p))
            /\ 1 <= snd (dominant p)
     end
  /\ map fst (pr_examples p) = first_seen (map fst labelled)
  /\ Forall (fun e => exists before text rest,
                        labelled = before ++ (fst e, text) :: rest
                        /\ ~ In (fst e) (map fst before)
                        /\ snd e = take 100 text)
            (pr_examples p).

(** The shape of the profile of an abstract, and the densities of all the
    sentences of a corpus. *)
Definition shape_of (a : abstract) : string :=
  snd (fst (info_density_profile (body a))).

Definition all_densities_of (valid : list abstract) : list nat :=
  flat_map (fun a => iu_profile (body a)) valid.

(** The score a candidate keyword is ranked by. *)
Definition score_of (content term : string) : nat :=
  weight_of term
  * Nat.max (doc_freq_of content term) (tally term (all_candidates content)).

(** The documents that contain a keyword, case apart ([doc_freq]). *)
Definition documents_with (kw : string) (texts : list string) : nat :=
  List.length (filter (fun text => contains (lower kw) (lower text)) texts).

(** ** The entry point *)

(** [main], the files as what they hold: the corpus file as its records and
    the semantic core as its text, [None] for a file that does not exist.
    The keywords are those of the semantic core, none without it. *)
Definition main (abstracts_file : option (list abstract)) (semantic_core : option string)
  : outcome :=
  match abstracts_file with
  | None => Exit 1 "abstracts_20.yaml not found. Run fetch_learning_abstracts.py first."
  | Some abstracts =>
      let keywords :=
        match semantic_core with
        | Some content => extract_keywords_from_semantic_core content
        | None => []
        end in
      analyze abstracts (Some keywords)
  end.
(** * Properties *)

(** ** Floats *)

Unset Implicit Arguments.
Local Open Scope Q_scope.

(** Rounding to an integer never reverses an order. *)
Lemma round_half_even_mono (p q : Q) :
  (p <= q)%Q -> (round_half_even p <= round_half_even q)%Z.
Proof.
  intros Hpq. unfold round_half_even.
  pose proof (Qfloor_resp_le p q Hpq) as Hfl.
  pose proof (Qfloor_le p) as Hp0. pose proof (Qlt_floor p) as Hp1.
  pose proof (Qfloor_le q) as Hq0. pose proof (Qlt_floor q) as Hq1.
  set (fp := Qfloor p) in *. set (fq := Qfloor q) in *.
  destruct (Z.eq_dec fp fq) as [E|N].
  - rewrite <- E in *. clear E.
    destruct (Qcompare_spec (p - inject_Z fp) (1 # 2)) as [Ep|Lp|Gp];
      destruct (Qcompare_spec (q - inject_Z fp) (1 # 2)) as [Eq|Lq|Gq];
      try lia; try (exfalso; lra);
      destruct (Z.even fp); lia.
  - assert (fp + 1 <= fq)%Z by lia.
    destruct (Qcompare (p - inject_Z fp) (1 # 2));
      destruct (Qcompare (q - inject_Z fq) (1 # 2));
      try destruct (Z.even fp); try destruct (Z.even fq); lia.
Qed.

Lemma round_half_even_int k : round_half_even (inject_Z k) = k.
Proof.
  unfold round_half_even. rewrite Qfloor_Z.
  assert (E : (inject_Z k - inject_Z k ?= 1 # 2)%Q = Lt).
  { apply Qlt_alt. setoid_replace (inject_Z k - inject_Z k)%Q with 0%Q by ring.
    reflexivity. }
  rewrite E. reflexivity.
Qed.

Lemma round_half_even_eq p q : (p == q)%Q -> round_half_even p = round_half_even q.
Proof.
  intros E. apply Z.le_antisymm; apply round_half_even_mono; rewrite E; apply Qle_refl.
Qed.

(** *** Powers of two *)

Lemma two_nonzero : ~ 2 == 0.
Proof. intros E. discriminate E. Qed.

Lemma pow2_pos e : 0 < pow2 e.
Proof. apply Qpower_0_lt. reflexivity. Qed.

Lemma pow2_plus a b : pow2 (a + b) == pow2 a * pow2 b.
Proof. apply Qpower_plus, two_nonzero. Qed.

Lemma pow2_le a b : (a <= b)%Z -> pow2 a <= pow2 b.
Proof. intros H. apply Qpower_le_compat_l; [exact H|discriminate]. Qed.

Lemma pow2_lt_inv a b : pow2 a < pow2 b -> (a < b)%Z.
Proof. intros H. apply (Qpower_lt_compat_l_inv 2); [exact H|reflexivity]. Qed.

Lemma pow2_inject a : (0 <= a)%Z -> pow2 a == inject_Z (2 ^ a).
Proof. intros H. unfold pow2. rewrite Zpower_Qpower by exact H. reflexivity. Qed.

Lemma pow2_cancel q e : q / pow2 e * pow2 e == q.
Proof. field. pose proof (pow2_pos e). lra. Qed.

(** *** The exponent of a positive rational *)

Lemma exponent_spec q :
  0 < q -> pow2 (exponent q + 52) <= q < pow2 (exponent q + 53).
Proof.
  intros Hq. destruct q as [n d]. unfold exponent. cbn [Qnum Qden].
  assert (Hn : (0 < n)%Z).
  { unfold Qlt in Hq. simpl in Hq. lia. }
  pose proof (Z.log2_spec n Hn) as [Hn1 Hn2].
  pose proof (Z.log2_spec (Z.pos d) ltac:(lia)) as [Hd1 Hd2].
  pose proof (Z.log2_nonneg n) as Ha. pose proof (Z.log2_nonneg (Z.pos d)) as Hb.
  set (a := Z.log2 n) in *. set (b := Z.log2 (Z.pos d)) in *.
  assert (Hq' : n # d == inject_Z n / inject_Z (Z.pos d)) by apply Qmake_Qdiv.
  assert (Hpd : 0 < inject_Z (Z.pos d)) by (unfold Qlt; simpl; lia).
  assert (Hup : n # d < pow2 (a - b + 1)).
  { replace (a - b + 1)%Z with ((a + 1) + - b)%Z by lia.
    rewrite pow2_plus. unfold pow2 at 2. rewrite Qpower_opp. fold (pow2 b).
    rewrite (pow2_inject (a + 1)), (pow2_inject b), Hq' by lia.
    assert (Hb2 : 0 < inject_Z (2 ^ b)).
    { unfold Qlt; simpl. pose proof (Z.pow_pos_nonneg 2 b). lia. }
    apply Qlt_shift_div_r; [exact Hpd|].
    assert (E : inject_Z (2 ^ (a + 1)) * / inject_Z (2 ^ b) * inject_Z (Z.pos d)
                == inject_Z (2 ^ (a + 1)) * inject_Z (Z.pos d) / inject_Z (2 ^ b))
      by (field; lra).
    rewrite E. apply Qlt_shift_div_l; [exact Hb2|].
    rewrite <- !inject_Z_mult, <- Zlt_Qlt. nia. }
  assert (Hlo : pow2 (a - b - 1) <= n # d).
  { replace (a - b - 1)%Z with (a + - (b + 1))%Z by lia.
    rewrite pow2_plus. unfold pow2 at 2. rewrite Qpower_opp. fold (pow2 (b + 1)).
    rewrite (pow2_inject a), (pow2_inject (b + 1)), Hq' by lia.
    assert (Hb2 : 0 < inject_Z (2 ^ (b + 1))).
    { unfold Qlt; simpl. pose proof (Z.pow_pos_nonneg 2 (b + 1)). lia. }
    apply Qle_shift_div_l; [exact Hpd|].
    assert (E : inject_Z (2 ^ a) * / inject_Z (2 ^ (b + 1)) * inject_Z (Z.pos d)
                == inject_Z (2 ^ a) * inject_Z (Z.pos d) / inject_Z (2 ^ (b + 1)))
      by (field; lra).
    rewrite E. apply Qle_shift_div_r; [exact Hb2|].
    rewrite <- !inject_Z_mult, <- Zle_Qle. nia. }
  destruct (Qle_bool (pow2 (a - b)) (n # d)) eqn:E.
  - apply Qle_bool_iff in E.
    replace (a - b - 52 + 52)%Z with (a - b)%Z by lia.
    replace (a - b - 52 + 53)%Z with (a - b + 1)%Z by lia.
    split; assumption.
  - assert (Hlt : n # d < pow2 (a - b)).
    { apply Qnot_le_lt. intros H. apply Qle_bool_iff in H. congruence. }
    replace (a - b - 1 - 52 + 52)%Z with (a - b - 1)%Z by lia.
    replace (a - b - 1 - 52 + 53)%Z with (a - b)%Z by lia.
    split; assumption.
Qed.

(** *** Rounding to the nearest number of 53 bits *)

Lemma scaled_bounds q :
  0 < q -> inject_Z (2 ^ 52) <= q / pow2 (exponent q) < inject_Z (2 ^ 53).
Proof.
  intros Hq. destruct (exponent_spec q Hq) as [Hlo Hhi].
  pose proof (pow2_pos (exponent q)) as He.
  rewrite Z.add_comm, pow2_plus, (pow2_inject 52) in Hlo by lia.
  rewrite Z.add_comm, pow2_plus, (pow2_inject 53) in Hhi by lia.
  split.
  - apply Qle_shift_div_l; assumption.
  - apply Qlt_shift_div_r; assumption.
Qed.

Lemma mantissa_bounds q :
  0 < q -> (2 ^ 52 <= round_half_even (q / pow2 (exponent q)) <= 2 ^ 53)%Z.
Proof.
  intros Hq. destruct (scaled_bounds q Hq) as [Hlo Hhi]. split.
  - rewrite <- (round_half_even_int (2 ^ 52)). apply round_half_even_mono. exact Hlo.
  - rewrite <- (round_half_even_int (2 ^ 53)). apply round_half_even_mono.
    apply Qlt_le_weak. exact Hhi.
Qed.

Lemma nearest_eq q :
  nearest q == inject_Z (round_half_even (q / pow2 (exponent q))) * pow2 (exponent q).
Proof. unfold nearest. cbv zeta. apply Qred_correct. Qed.

Lemma nearest_bounds q :
  0 < q -> pow2 (exponent q + 52) <= nearest q <= pow2 (exponent q + 53).
Proof.
  intros Hq. destruct (mantissa_bounds q Hq) as [Hlo Hhi].
  pose proof (pow2_pos (exponent q)) as He.
  rewrite nearest_eq.
  rewrite (Z.add_comm _ 52), (Z.add_comm _ 53), !pow2_plus.
  rewrite (pow2_inject 52), (pow2_inject 53) by lia.
  split; apply Qmult_le_compat_r; try (apply Qlt_le_weak; exact He);
    rewrite <- Zle_Qle; assumption.
Qed.

Lemma nearest_pos q : 0 < q -> 0 < nearest q.
Proof.
  intros Hq. destruct (nearest_bounds q Hq) as [Hlo _].
  eapply Qlt_le_trans; [apply pow2_pos|exact Hlo].
Qed.

Lemma nearest_mono p q : 0 < p -> p <= q -> nearest p <= nearest q.
Proof.
  intros Hp Hpq.
  assert (Hq : 0 < q) by (eapply Qlt_le_trans; eassumption).
  destruct (exponent_spec p Hp) as [Hp1 _].
  destruct (exponent_spec q Hq) as [_ Hq2].
  assert (He : (exponent p <= exponent q)%Z).
  { assert (H : pow2 (exponent p + 52) < pow2 (exponent q + 53)).
    { eapply Qle_lt_trans; [exact Hp1|]. eapply Qle_lt_trans; eassumption. }
    apply pow2_lt_inv in H. lia. }
  destruct (Z.eq_dec (exponent p) (exponent q)) as [E|N].
  - rewrite !nearest_eq, E. pose proof (pow2_pos (exponent q)) as Hpos.
    apply Qmult_le_compat_r; [|apply Qlt_le_weak; exact Hpos].
    rewrite <- Zle_Qle. apply round_half_even_mono.
    apply Qmult_le_compat_r; [exact Hpq|].
    apply Qlt_le_weak, Qinv_lt_0_compat, Hpos.
  - destruct (nearest_bounds p Hp) as [_ Hup].
    destruct (nearest_bounds q Hq) as [Hlo _].
    eapply Qle_trans; [exact Hup|]. eapply Qle_trans; [|exact Hlo].
    apply pow2_le. lia.
Qed.

Lemma fl_pos q : 0 < q -> fl q = nearest q.
Proof.
  intros H. unfold fl. destruct (Qcompare_spec q 0) as [E|L|G]; [|exfalso|reflexivity].
  - rewrite E in H. discriminate H.
  - apply (Qlt_irrefl 0). eapply Qlt_trans; eassumption.
Qed.

Lemma fl_neg q : q < 0 -> fl q == - nearest (- q).
Proof.
  intros H. unfold fl.
  destruct (Qcompare_spec q 0) as [E|L|G]; [exfalso| |exfalso].
  - rewrite E in H. discriminate H.
  - apply Qred_correct.
  - apply (Qlt_irrefl 0). eapply Qlt_trans; eassumption.
Qed.

Lemma fl_zero q : q == 0 -> fl q = 0.
Proof.
  intros H. unfold fl. destruct (Qcompare_spec q 0) as [E|L|G]; [reflexivity|exfalso|exfalso].
  - rewrite H in L. discriminate L.
  - rewrite H in G. discriminate G.
Qed.

(** Rounding to binary64 keeps the order. *)
Lemma fl_mono p q : p <= q -> fl p <= fl q.
Proof.
  intros H.
  destruct (Qlt_le_dec 0 p) as [Hp|Hp].
  - assert (Hq : 0 < q) by (eapply Qlt_le_trans; eassumption).
    rewrite (fl_pos p Hp), (fl_pos q Hq). apply nearest_mono; assumption.
  - destruct (Qlt_le_dec 0 q) as [Hq|Hq].
    + rewrite (fl_pos q Hq).
      apply Qle_trans with 0; [|apply Qlt_le_weak, nearest_pos, Hq].
      destruct (Qle_lt_or_eq _ _ Hp) as [Hlt|Heq].
      * rewrite (fl_neg p Hlt). pose proof (nearest_pos (- p)) as Hn.
        assert (0 < - p) by lra. specialize (Hn H0). lra.
      * rewrite (fl_zero p Heq). apply Qle_refl.
    + destruct (Qle_lt_or_eq _ _ Hq) as [Hqlt|Hqeq].
      * assert (Hplt : p < 0) by lra.
        rewrite (fl_neg p Hplt), (fl_neg q Hqlt).
        assert (Hm : nearest (- q) <= nearest (- p)) by (apply nearest_mono; lra).
        lra.
      * rewrite (fl_zero q Hqeq).
        destruct (Qle_lt_or_eq _ _ Hp) as [Hlt|Heq].
        -- rewrite (fl_neg p Hlt). pose proof (nearest_pos (- p)) as Hn.
           assert (0 < - p) by lra. specialize (Hn H0). lra.
        -- rewrite (fl_zero p Heq). apply Qle_refl.
Qed.

Lemma fl_nonneg q : 0 <= q -> 0 <= fl q.
Proof. intros H. apply (fl_mono 0 q) in H. exact H. Qed.

(** A whole number below [2^53] is a binary64 number. *)
Lemma fl_int (k : Z) : (0 <= k < 2 ^ 53)%Z -> fl (inject_Z k) == inject_Z k.
Proof.
  intros [H0 H1]. destruct (Z.eq_dec k 0) as [->|Hk]; [reflexivity|].
  assert (Hq : 0 < inject_Z k) by (change 0 with (inject_Z 0); rewrite <- Zlt_Qlt; lia).
  rewrite (fl_pos _ Hq), nearest_eq.
  destruct (exponent_spec _ Hq) as [Hlo _].
  set (e := exponent (inject_Z k)) in *.
  assert (He : (e <= 0)%Z).
  { assert (H : pow2 (e + 52) < pow2 53).
    { eapply Qle_lt_trans; [exact Hlo|]. rewrite (pow2_inject 53) by lia.
      rewrite <- Zlt_Qlt. exact H1. }
    apply pow2_lt_inv in H. lia. }
  assert (Es : inject_Z k / pow2 e == inject_Z (k * 2 ^ (- e))).
  { rewrite inject_Z_mult, <- (pow2_inject (- e)) by lia.
    unfold pow2 at 2. rewrite Qpower_opp. reflexivity. }
  rewrite (round_half_even_eq _ _ Es), round_half_even_int, <- Es.
  apply pow2_cancel.
Qed.

Lemma pow10_pos nd : (0 < pow10 nd)%Q.
Proof.
  unfold pow10. change 0%Q with (inject_Z 0). rewrite <- Zlt_Qlt.
  apply Z.pow_pos_nonneg; lia.
Qed.

(** [round] keeps the order. *)
Lemma round_mono (p q : Q) (nd : nat) :
  (p <= q)%Q -> (round p nd <= round q nd)%Q.
Proof.
  intros Hpq. unfold round. apply fl_mono.
  pose proof (pow10_pos nd) as Hpos.
  apply Qmult_le_compat_r; [|apply Qlt_le_weak, Qinv_lt_0_compat, Hpos].
  rewrite <- Zle_Qle. apply round_half_even_mono.
  apply Qmult_le_compat_r; [apply fl_mono, Hpq|apply Qlt_le_weak, Hpos].
Qed.

(** [round] leaves a whole number below [2^53] as it is. *)
Lemma round_whole (k : Z) nd :
  (0 <= k < 2 ^ 53)%Z -> (round (inject_Z k) nd == inject_Z k)%Q.
Proof.
  intros Hk. unfold round. pose proof (pow10_pos nd) as Hpos.
  assert (E : inject_Z (round_half_even (fl (inject_Z k) * pow10 nd)) / pow10 nd
              == inject_Z k).
  { rewrite (round_half_even_eq _ (inject_Z (k * 10 ^ Z.of_nat nd))).
    - rewrite round_half_even_int, inject_Z_mult. fold (pow10 nd). field. lra.
    - rewrite (fl_int k Hk). unfold pow10. rewrite inject_Z_mult. reflexivity. }
  assert (E2 : fl (inject_Z (round_half_even (fl (inject_Z k) * pow10 nd)) / pow10 nd)
               == fl (inject_Z k)).
  { apply Qle_antisym; apply fl_mono; rewrite E; apply Qle_refl. }
  rewrite E2. apply fl_int, Hk.
Qed.

(** *** Binary64 numbers are left as they are *)

Lemma exponent_unique q e :
  0 < q -> pow2 (e + 52) <= q < pow2 (e + 53) -> exponent q = e.
Proof.
  intros Hq [Hlo Hhi]. destruct (exponent_spec q Hq) as [Hlo' Hhi'].
  assert (H1 : pow2 (e + 52) < pow2 (exponent q + 53))
    by (eapply Qle_lt_trans; eassumption).
  assert (H2 : pow2 (exponent q + 52) < pow2 (e + 53))
    by (eapply Qle_lt_trans; eassumption).
  apply pow2_lt_inv in H1, H2. lia.
Qed.

Lemma nearest_proper p q : 0 < p -> p == q -> nearest p == nearest q.
Proof.
  intros Hp E. assert (Hq : 0 < q) by (rewrite <- E; exact Hp).
  apply Qle_antisym; apply nearest_mono; try assumption; rewrite E; apply Qle_refl.
Qed.

Lemma nearest_fixed (m e : Z) :
  (2 ^ 52 <= m <= 2 ^ 53)%Z ->
  nearest (inject_Z m * pow2 e) == inject_Z m * pow2 e.
Proof.
  intros [Hlo Hhi]. pose proof (pow2_pos e) as He.
  assert (Hm : 0 < inject_Z m)
    by (change 0 with (inject_Z 0); rewrite <- Zlt_Qlt; lia).
  assert (Hq : 0 < inject_Z m * pow2 e) by (apply Qmult_lt_0_compat; assumption).
  destruct (Z.eq_dec m (2 ^ 53)) as [E|N].
  - assert (Ee : exponent (inject_Z m * pow2 e) = (e + 1)%Z).
    { apply exponent_unique; [exact Hq|]. subst m.
      replace (e + 1 + 52)%Z with (53 + e)%Z by lia.
      replace (e + 1 + 53)%Z with (54 + e)%Z by lia.
      rewrite !pow2_plus, (pow2_inject 53), (pow2_inject 54) by lia. split.
      - apply Qle_refl.
      - apply Qmult_lt_compat_r; [exact He|]. rewrite <- Zlt_Qlt. reflexivity. }
    rewrite nearest_eq, Ee.
    assert (Es : inject_Z m * pow2 e / pow2 (e + 1) == inject_Z (2 ^ 52)).
    { subst m. rewrite pow2_plus. change (pow2 1) with 2.
      change (inject_Z (2 ^ 53)) with (inject_Z (2 ^ 52) * 2). field. lra. }
    rewrite (round_half_even_eq _ _ Es), round_half_even_int.
    subst m. rewrite pow2_plus. change (pow2 1) with 2.
    change (inject_Z (2 ^ 53)) with (inject_Z (2 ^ 52) * 2). ring.
  - assert (Ee : exponent (inject_Z m * pow2 e) = e).
    { apply exponent_unique; [exact Hq|].
      rewrite (Z.add_comm e 52), (Z.add_comm e 53), !pow2_plus.
      rewrite (pow2_inject 52), (pow2_inject 53) by lia. split.
      - apply Qmult_le_compat_r; [|apply Qlt_le_weak, He]. rewrite <- Zle_Qle. exact Hlo.
      - apply Qmult_lt_compat_r; [exact He|]. rewrite <- Zlt_Qlt. lia. }
    rewrite nearest_eq, Ee.
    assert (Es : inject_Z m * pow2 e / pow2 e == inject_Z m) by (field; lra).
    rewrite (round_half_even_eq _ _ Es), round_half_even_int. reflexivity.
Qed.

Lemma nearest_idem q : 0 < q -> nearest (nearest q) == nearest q.
Proof.
  intros Hq. pose proof (nearest_pos q Hq) as Hn.
  rewrite (nearest_proper _ _ Hn (nearest_eq q)).
  rewrite nearest_fixed by (apply mantissa_bounds; exact Hq).
  symmetry. apply nearest_eq.
Qed.

(** The results of [fl] are in lowest terms, so that equal ones are
    identical. *)
Lemma Qred_again q : Qred (Qred q) = Qred q.
Proof. apply Qred_complete, Qred_correct. Qed.

Lemma fl_red q : Qred (fl q) = fl q.
Proof.
  unfold fl, nearest. destruct (q ?= 0); [reflexivity| |]; cbv zeta; apply Qred_again.
Qed.

Lemma fl_proper p q : p == q -> fl p = fl q.
Proof.
  intros E. transitivity (Qred (fl p)); [symmetry; apply fl_red|].
  transitivity (Qred (fl q)); [|apply fl_red]. apply Qred_complete.
  apply Qle_antisym; apply fl_mono; rewrite E; apply Qle_refl.
Qed.

(** A float is not changed by a second rounding. *)
Lemma fl_idem q : fl (fl q) = fl q.
Proof.
  transitivity (Qred (fl (fl q))); [symmetry; apply fl_red|].
  transitivity (Qred (fl q)); [|apply fl_red]. apply Qred_complete.
  destruct (Qlt_le_dec 0 q) as [Hq|Hq].
  - rewrite (fl_pos q Hq), (fl_pos _ (nearest_pos q Hq)). apply nearest_idem, Hq.
  - destruct (Qle_lt_or_eq _ _ Hq) as [Hlt|Heq].
    + assert (Hn : 0 < - q) by lra. pose proof (nearest_pos _ Hn) as Hp.
      pose proof (fl_neg q Hlt) as Hfq.
      assert (Hf : fl q < 0) by lra.
      pose proof (fl_neg _ Hf) as Hff.
      assert (E : - fl q == nearest (- q)) by lra.
      assert (Hpos : 0 < - fl q) by lra.
      pose proof (nearest_proper _ _ Hpos E) as Hnn.
      pose proof (nearest_idem _ Hn) as Hid. lra.
    + rewrite (fl_zero q Heq). reflexivity.
Qed.

Lemma round_proper p q nd : p == q -> round p nd = round q nd.
Proof. intros E. unfold round. rewrite (fl_proper _ _ E). reflexivity. Qed.

(** [round(x, nd)] where [x] is the float of a quotient. *)
Lemma round_fl q nd : round (fl q) nd = round q nd.
Proof. unfold round. rewrite fl_idem. reflexivity. Qed.

Lemma round_nonneg q nd : 0 <= q -> 0 <= round q nd.
Proof.
  intros H. unfold round. apply fl_nonneg. pose proof (pow10_pos nd) as Hpos.
  apply Qle_shift_div_l; [exact Hpos|]. rewrite Qmult_0_l.
  change 0 with (inject_Z 0). rewrite <- Zle_Qle.
  rewrite <- (round_half_even_int 0). apply round_half_even_mono.
  apply Qmult_le_0_compat; [apply fl_nonneg, H|apply Qlt_le_weak, Hpos].
Qed.

(** *** Whole numbers *)

(** The float of a whole number is whole. *)
Lemma fl_whole (k : Z) :
  (0 <= k)%Z -> exists z, (0 <= z)%Z /\ fl (inject_Z k) == inject_Z z.
Proof.
  intros H0. destruct (Z_lt_le_dec k (2 ^ 53)) as [Hs|Hb].
  - exists k. split; [exact H0|]. apply fl_int. lia.
  - assert (Hq : 0 < inject_Z k).
    { change 0 with (inject_Z 0). rewrite <- Zlt_Qlt.
      pose proof (Z.pow_pos_nonneg 2 53). lia. }
    destruct (exponent_spec _ Hq) as [_ Hhi].
    set (e := exponent (inject_Z k)) in *.
    assert (He : (0 <= e)%Z).
    { assert (H : pow2 53 < pow2 (e + 53)).
      { eapply Qle_lt_trans; [|exact Hhi]. rewrite (pow2_inject 53) by lia.
        rewrite <- Zle_Qle. exact Hb. }
      apply pow2_lt_inv in H. lia. }
    exists (round_half_even (inject_Z k / pow2 e) * 2 ^ e)%Z. split.
    + apply Z.mul_nonneg_nonneg; [|apply Z.pow_nonneg; lia].
      rewrite <- (round_half_even_int 0). apply round_half_even_mono.
      apply Qle_shift_div_l; [apply pow2_pos|]. rewrite Qmult_0_l.
      apply Qlt_le_weak, Hq.
    + rewrite (fl_pos _ Hq), nearest_eq. fold e.
      rewrite inject_Z_mult.
      apply Qmult_comp; [reflexivity|apply pow2_inject, He].
Qed.

(** Rounding to decimals leaves the float of a whole number as it is. *)
Lemma round_float_of (n nd : nat) : round (of_nat n) nd = float_of n.
Proof.
  unfold round, float_of, of_nat.
  destruct (fl_whole (Z.of_nat n) ltac:(lia)) as [z [Hz E]].
  pose proof (pow10_pos nd) as Hpos.
  rewrite <- (fl_idem (inject_Z (Z.of_nat n))) at 2. apply fl_proper.
  rewrite (round_half_even_eq _ (inject_Z (z * 10 ^ Z.of_nat nd))).
  - rewrite round_half_even_int, inject_Z_mult, E. fold (pow10 nd). field. lra.
  - rewrite E. unfold pow10. rewrite inject_Z_mult. reflexivity.
Qed.

Lemma Qred_inject (k : Z) : Qred (inject_Z k) = inject_Z k.
Proof.
  unfold Qred, inject_Z.
  pose proof (Z.ggcd_gcd k 1) as Hg. pose proof (Z.ggcd_correct_divisors k 1) as Hd.
  destruct (Z.ggcd k 1) as [g [aa bb]]. cbn [fst snd] in *.
  rewrite Z.gcd_1_r in Hg. subst g. destruct Hd as [Ha Hb].
  replace aa with k by lia. replace bb with 1%Z by lia. reflexivity.
Qed.

(** A count below [2^53] is its own float. *)
Lemma float_of_small (n : nat) : (Z.of_nat n < 2 ^ 53)%Z -> float_of n = of_nat n.
Proof.
  intros H. unfold float_of, of_nat.
  transitivity (Qred (fl (inject_Z (Z.of_nat n)))); [symmetry; apply fl_red|].
  transitivity (Qred (inject_Z (Z.of_nat n))); [|apply Qred_inject].
  apply Qred_complete, fl_int. lia.
Qed.

Lemma float_of_mono (a b : nat) : (a <= b)%nat -> float_of a <= float_of b.
Proof.
  intros H. apply fl_mono. unfold of_nat. rewrite <- Zle_Qle. lia.
Qed.

Lemma float_of_nonneg (n : nat) : 0 <= float_of n.
Proof.
  apply fl_nonneg. unfold of_nat. change 0 with (inject_Z 0).
  rewrite <- Zle_Qle. lia.
Qed.

(** *** Sums and roots *)

Lemma fsum_from_nonneg (l : list Q) : forall acc,
  0 <= acc -> Forall (fun x => 0 <= x) l ->
  0 <= fold_left (fun acc x => fl (acc + x)) l acc.
Proof.
  induction l as [|x l IH]; intros acc Ha Hl; simpl; [exact Ha|].
  inversion Hl as [|? ? Hx Hl']; subst.
  apply IH; [|exact Hl']. apply fl_nonneg. lra.
Qed.

Lemma fsum_nonneg (l : list Q) : Forall (fun x => 0 <= x) l -> 0 <= fsum l.
Proof. intros H. apply fsum_from_nonneg; [lra|exact H]. Qed.

Lemma fsqrt_nonneg (q : Q) : 0 <= fsqrt q.
Proof.
  unfold fsqrt. destruct (Qcompare q 0); try lra. cbv zeta.
  apply fl_nonneg.
  set (k := (56 - (exponent q + 52) / 2)%Z).
  set (s := Z.sqrt (Qfloor (q * pow2 (2 * k)))).
  assert (Hs : 0 <= inject_Z s).
  { change 0 with (inject_Z 0). rewrite <- Zle_Qle. apply Z.sqrt_nonneg. }
  pose proof (pow2_pos (- k)) as Hp.
  destruct (Qeq_bool _ _); apply Qmult_le_0_compat; lra.
Qed.

(** *** The kernel's doubles *)

(** [Py.fl] and the operations built on it agree with the doubles of the
    kernel on the quotients of the counts up to 40, and [round] gives the
    doubles that Python prints as 0.03, 5.3 and 4.5. *)
Example floats_checked :
  floats_agree 40 = true
  /\ round (1 # 40) 2 = value 0.03
  /\ round (107 # 20) 1 = value 5.3
  /\ round (89 # 20) 1 = value 4.5
  /\ round (1 # 8) 2 = value 0.12
  /\ fsqrt 2 = value 1.4142135623730951.
Proof. vm_compute. repeat split; reflexivity. Qed.

Local Close Scope Q_scope.
Set Implicit Arguments.

(** ** The matcher *)

Lemma ahead_refl s : ahead_of s s.
Proof. split; [reflexivity|lia]. Qed.

Lemma ahead_trans s1 s2 s3 : ahead_of s1 s2 -> ahead_of s2 s3 -> ahead_of s1 s3.
Proof. intros [E1 L1] [E2 L2]. split; [congruence|lia]. Qed.

Lemma ahead_remaining s s' :
  ahead_of s s' ->
  List.length (Re.post s') + (Re.pos s' - Re.pos s) = List.length (Re.post s).
Proof.
  intros [E L]. apply (f_equal (@List.length ascii)) in E.
  unfold text_of in E. rewrite !length_app, !length_rev in E.
  unfold Re.pos in *. lia.
Qed.

Lemma iterate_reaches body greedy :
  reaches_ahead body -> forall fuel, reaches_ahead (fun s k' => Re.iterate body greedy k' fuel s).
Proof.
  intros Hb fuel. unfold reaches_ahead.
  induction fuel as [|f IHf]; intros s k' sf H; simpl in H.
  - exists s. split; [apply ahead_refl|exact H].
  - set (more := body s (fun s' => if Re.pos s <? Re.pos s'
                                    then Re.iterate body greedy k' f s' else None)) in *.
    assert (Hmore : forall sf', more = Some sf' ->
                                exists s', ahead_of s s' /\ k' s' = Some sf').
    { intros sf' Hr. apply Hb in Hr. destruct Hr as [s1 [A1 Hr]].
      destruct (Re.pos s <? Re.pos s1); [|discriminate].
      apply IHf in Hr. destruct Hr as [s2 [A2 Hr]].
      exists s2. split; [eapply ahead_trans; eassumption|exact Hr]. }
    clearbody more. unfold Re.orelse in H. destruct greedy.
    + destruct more as [x|].
      * inversion H; subst. apply Hmore. reflexivity.
      * exists s. split; [apply ahead_refl|exact H].
    + destruct (k' s) eqn:Ek.
      * inversion H; subst. exists s. split; [apply ahead_refl|exact Ek].
      * apply Hmore. exact H.
Qed.

Lemma run_reaches r : reaches_ahead (Re.run r).
Proof.
  induction r as [|p|a IHa b IHb|a IHa b IHb|greedy a IHa|n a IHa| | | |ahead positive a IHa|];
    intros s k sf H; simpl in H.
  - exists s. split; [apply ahead_refl|exact H].
  - destruct (Re.post s) as [|c t] eqn:Ep; [discriminate|].
    destruct (p c); [|discriminate].
    eexists. split; [|exact H].
    split; unfold text_of, Re.pos; simpl; [|lia].
    rewrite Ep, <- app_assoc. reflexivity.
  - apply IHa in H. destruct H as [s1 [A1 H]].
    apply IHb in H. destruct H as [s2 [A2 H]].
    exists s2. split; [eapply ahead_trans; eassumption|exact H].
  - unfold Re.orelse in H.
    destruct (Re.run a s k) eqn:Ea.
    + inversion H; subst. apply IHa in Ea. exact Ea.
    + apply IHb in H. exact H.
  - exact (@iterate_reaches (Re.run a) greedy IHa _ s k sf H).
  - apply IHa in H. destruct H as [s1 [A1 H]].
    exists (Re.capture n s s1). split; [|exact H].
    destruct A1 as [E L]. split; [exact E|exact L].
  - destruct (Re.pre s); [|discriminate]. exists s. split; [apply ahead_refl|exact H].
  - destruct (Re.at_end s); [|discriminate]. exists s. split; [apply ahead_refl|exact H].
  - destruct (Re.at_boundary s); [|discriminate]. exists s. split; [apply ahead_refl|exact H].
  - match type of H with
    | (if ?c then _ else _) = _ => destruct c; [|discriminate]
    end.
    exists s. split; [apply ahead_refl|exact H].
  - discriminate.
Qed.

Lemma iterate_local body greedy :
  depends_ahead body -> forall fuel s k k',
    (forall s', ahead_of s s' -> k s' = k' s') ->
    Re.iterate body greedy k fuel s = Re.iterate body greedy k' fuel s.
Proof.
  intros Hb fuel. induction fuel as [|f IHf]; intros s k k' Hk; simpl.
  - apply Hk, ahead_refl.
  - rewrite (Hk s (ahead_refl s)).
    rewrite (Hb s _ (fun s' => if Re.pos s <? Re.pos s'
                               then Re.iterate body greedy k' f s' else None)).
    + reflexivity.
    + intros s1 A1. destruct (Re.pos s <? Re.pos s1); [|reflexivity].
      apply IHf. intros s2 A2. apply Hk. eapply ahead_trans; eassumption.
Qed.

Lemma run_depends_ahead r : depends_ahead (Re.run r).
Proof.
  induction r as [|p|a IHa b IHb|a IHa b IHb|greedy a IHa|n a IHa| | | |ahead positive a IHa|];
    intros s k k' Hk; simpl.
  - apply Hk, ahead_refl.
  - destruct (Re.post s) as [|c t] eqn:Ep; [reflexivity|].
    destruct (p c); [|reflexivity].
    apply Hk. split; unfold text_of, Re.pos; simpl; [|lia].
    rewrite Ep, <- app_assoc. reflexivity.
  - apply IHa. intros s1 A1. apply IHb. intros s2 A2.
    apply Hk. eapply ahead_trans; eassumption.
  - rewrite (IHa s k k' Hk), (IHb s k k' Hk). reflexivity.
  - apply iterate_local; assumption.
  - apply IHa. intros s1 [E L]. apply Hk. split; [exact E|exact L].
  - rewrite (Hk s (ahead_refl s)). reflexivity.
  - rewrite (Hk s (ahead_refl s)). reflexivity.
  - rewrite (Hk s (ahead_refl s)). reflexivity.
  - rewrite (Hk s (ahead_refl s)). reflexivity.
  - reflexivity.
Qed.

(** The fuel of a repetition never runs out: more fuel than [run] gives it
    changes nothing. *)
Lemma iterate_fuel body greedy k :
  reaches_ahead body -> depends_ahead body ->
  forall fuel s, List.length (Re.post s) <= fuel ->
    Re.iterate body greedy k fuel s
    = Re.iterate body greedy k (List.length (Re.post s)) s.
Proof.
  intros Hr Hl fuel.
  induction fuel as [fuel IH] using lt_wf_ind. intros s Hle.
  destruct fuel as [|f].
  - replace (List.length (Re.post s)) with 0 by lia. reflexivity.
  - destruct (List.length (Re.post s)) as [|n] eqn:En.
    + (* nothing left to read: no iteration can advance *)
      simpl.
      assert (Hnone : body s (fun s' => if Re.pos s <? Re.pos s'
                                        then Re.iterate body greedy k f s' else None) = None).
      { destruct (body s _) as [sf|] eqn:E; [|reflexivity].
        apply Hr in E. destruct E as [s1 [A1 E]].
        pose proof (ahead_remaining A1) as Hrem.
        destruct (Re.pos s <? Re.pos s1) eqn:Hlt; [|discriminate].
        apply Nat.ltb_lt in Hlt. lia. }
      unfold Re.orelse. rewrite Hnone. destruct greedy; destruct (k s); reflexivity.
    + simpl.
      rewrite (Hl s _ (fun s' => if Re.pos s <? Re.pos s'
                                 then Re.iterate body greedy k n s' else None)).
      * reflexivity.
      * intros s1 A1. destruct (Re.pos s <? Re.pos s1) eqn:Hlt; [|reflexivity].
        apply Nat.ltb_lt in Hlt. pose proof (ahead_remaining A1) as Hrem.
        rewrite (IH f) by lia. symmetry. apply (IH n); lia.
Qed.

(** Hence a repetition is what it should be: one more iteration that reads
    something and then the repetition again, or the continuation; in this
    order when greedy, in the other when lazy. *)
Theorem star_unfolds greedy a s k :
  Re.run (Re.Rep greedy a) s k
  = let again (_ : unit) :=
      Re.run a s (fun s' => if Re.pos s <? Re.pos s'
                            then Re.run (Re.Rep greedy a) s' k else None) in
    if greedy then Re.orelse (again tt) (fun _ => k s)
    else Re.orelse (k s) again.
Proof.
  cbv zeta. simpl.
  assert (Hr := @run_reaches a). assert (Hl := @run_depends_ahead a).
  destruct (List.length (Re.post s)) as [|n] eqn:En.
  - simpl.
    assert (Hnone : Re.run a s (fun s' => if Re.pos s <? Re.pos s'
                      then Re.iterate (Re.run a) greedy k (List.length (Re.post s')) s'
                      else None) = None).
    { destruct (Re.run a s _) as [sf|] eqn:E; [|reflexivity].
      apply Hr in E. destruct E as [s1 [A1 E]].
      pose proof (ahead_remaining A1) as Hrem.
      destruct (Re.pos s <? Re.pos s1) eqn:Hlt; [|discriminate].
      apply Nat.ltb_lt in Hlt. lia. }
    rewrite Hnone. unfold Re.orelse. destruct greedy; destruct (k s); reflexivity.
  - simpl.
    rewrite (Hl s _ (fun s' => if Re.pos s <? Re.pos s'
                 then Re.iterate (Re.run a) greedy k (List.length (Re.post s')) s'
                 else None)).
    + reflexivity.
    + intros s1 A1. destruct (Re.pos s <? Re.pos s1) eqn:Hlt; [|reflexivity].
      apply Nat.ltb_lt in Hlt. pose proof (ahead_remaining A1) as Hrem.
      apply iterate_fuel; [assumption|assumption|lia].
Qed.

Lemma match_at_ahead p pre post m s :
  Re.match_at p pre post = Some (m, s) ->
  ahead_of (Re.MState pre post []) s.
Proof.
  unfold Re.match_at. destruct (Re.run _ _ _) as [sf|] eqn:E; [|discriminate].
  intros H. inversion H; subst. apply run_reaches in E.
  destruct E as [s' [A E]]. inversion E; subst. exact A.
Qed.

(** The fuel of a scan never runs out: more fuel than [finditer] gives finds
    the same matches. *)
Lemma scan_fuel p : forall fuel fuel' pre post,
  List.length post < fuel -> List.length post < fuel' ->
  Re.scan fuel p pre post = Re.scan fuel' p pre post.
Proof.
  induction fuel as [|f IH]; intros fuel' pre post H H'; [lia|].
  destruct fuel' as [|f']; [lia|]. simpl.
  assert (Hstep : match post with [] => [] | c :: t => Re.scan f p (c :: pre) t end
                  = match post with [] => [] | c :: t => Re.scan f' p (c :: pre) t end).
  { destruct post as [|c t]; [reflexivity|]. simpl in H, H'. apply IH; lia. }
  destruct (Re.match_at p pre post) as [[m s]|] eqn:Em; [|exact Hstep].
  destruct (List.length pre <? Re.pos s) eqn:Hlt; [|rewrite Hstep; reflexivity].
  apply Nat.ltb_lt in Hlt. apply match_at_ahead in Em.
  pose proof (ahead_remaining Em) as Hrem. unfold Re.pos at 2 in Hrem. simpl in Hrem.
  f_equal. apply IH; lia.
Qed.

(** Hence [finditer] is a scan with any fuel above the length of the text. *)
Theorem finditer_fuel p text fuel :
  Str.len text < fuel -> Re.scan fuel p [] (chars text) = Re.finditer p text.
Proof.
  intros H. unfold Re.finditer. apply scan_fuel; unfold len in *; lia.
Qed.

(** ** Sanity of the embedding *)

(** Every pattern of the source compiles. *)
Example source_patterns_compile :
  forallb (fun '(fl, p) => Re.compiles fl p) [
    (Re.no_flags, "[Hh]ere\s+we\s+(\w+)");
    (Re.no_flags, "(?<![Hh]ere\s)\bWe\s+(\w+)");
    (Re.no_flags, "(?:Our|This|The)\s+(?:approach|method|results?|work|study|findings?|strategy)\s+(\w+)");
    (Re.no_flags, "(?:thereby|thus|,)\s+(enabling|establishing|opening|revealing|overcoming|introducing|unlocking|harnessing|achieving)\b");
    (Re.no_flags, "[a-z][a-z\-]+[a-z]");
    (Re.no_flags, "^(despite|although|the\s+(challenge|problem|limitation|lack|difficulty))");
    (Re.no_flags, "^(the\s+ability|achieving|controlling|harnessing)");
    (Re.no_flags, "^\w[\w\s,-]+\s+(offer|provide|enable|allow|permit)");
    (Re.no_flags, "open[s]?\s+(a\s+)?pathway|pave[s]?\s+the\s+way|open[s]?\s+.*(route|prospect|door|possibilit)");
    (Re.no_flags, "promis|potential|exciting|great promise");
    (Re.no_flags, "establish|paradigm|new\s+platform|framework|make[s]?\s+this");
    (Re.no_flags, "application|sensing|imaging|device|technolog|commerc|future\s+direction");
    (Re.no_flags, "\d+-fold|\d+\s*%|factor\s+of");
    (Re.no_flags, "avenue|enable|novel.*science|suitable.*platform|expand.*scope");
    (Re.no_flags, "\bable to\b");
    (Re.no_flags, "\bcapable of\b");
    (Re.no_flags, "\bcan\b(?!not)");
    (Re.no_flags, "\bpermitting\b");
    (Re.no_flags, "\ballowing\b");
    (Re.no_flags, "\benabling\b");
    (Re.no_flags, "\bpromising\b");
    (Re.no_flags, "\bpromise\b");
    (Re.no_flags, "\bpaving the way\b");
    (Re.no_flags, "\bopening.*?(?:avenues?|doors?|possibilit)\b");
    (Re.no_flags, "\bmay\b");
    (Re.no_flags, "\bmight\b");
    (Re.no_flags, "\bsuggest(?:s|ing)?\b");
    (Re.no_flags, "\bindicat(?:es?|ing)\b");
    (Re.no_flags, "\bpotentially\b");
    (Re.no_flags, "\bpossibly\b");
    (Re.no_flags, "\blikely\b");
    (Re.no_flags, "\bapproximately\b");
    (Re.no_flags, "\babout\b");
    (Re.no_flags, "~");
    (Re.no_flags, "\bnearly\b");
    (Re.no_flags, "\broughly\b");
    (Re.no_flags, "\bto our knowledge\b");
    (Re.no_flags, "\bbelieve\b");
    (Re.no_flags, "\bconsistent with\b");
    (Re.no_flags, "\bcompatible with\b");
    (Re.no_flags, "(\d)\.(\d)");
    (Re.no_flags, "(?<=[.!?])\s+(?=[A-Z])");
    (Re.no_flags, "(\d)DECIMAL_PLACEHOLDER(\d)");
    (Re.no_flags, "\b([A-Z][A-Z0-9]{1,5})\b");
    (Re.no_flags, "\d+(?:\.\d+)?\s*(?:[-Ã—]fold|cmâ»Â¹|nm|MHz|ms|Î¼s|%|samples?|biomarkers?)");
    (Re.no_flags, "^[A-Z][a-z]{3,}$");
    (Re.no_flags, "\b([a-zA-Z]+-[a-zA-Z]+(?:-[a-zA-Z]+)*)\b");
    (Re.no_flags, "(?i)as a (?:medical|clinical|practical|industrial) (?:application|demonstration|validation)");
    (Re.no_flags, "(?i)for (?:clinical|practical|industrial|medical) (?:use|deployment|validation|translation)");
    (Re.no_flags, "(?i)in (?:clinical|in vivo|ex vivo|human|patient) (?:settings?|samples?|tests?|studies|trials?)");
    (Re.no_flags, "(?i)towards? (?:clinical|practical|medical|real-world)");
    (Re.no_flags, "(?i)we (?:further|also) (?:demonstrate|show|apply|validate)");
    (Re.no_flags, "\b([A-Z][A-Z0-9]{2,5})\b");
    (Re.no_flags, "\b([A-Z][a-z]{3,})\b");
    (Re.no_flags, "\b[FC]\d{1,2}\b");
    (Re.no_flags, "[|â˜…#]");
    (Re.no_flags, "\s+");
    (Re.IGNORECASE, "(?:more than|greater than|>)\s*\d+");
    (Re.IGNORECASE, "\b(spectral|temporal|spatial|optical|molecular|vibrational|clinical|biological|quantum)\s+(resolution|fidelity|bandwidth|sensitivity|interference|fingerprint\w*|analysis|imaging|detection|scattering|tissue|sample\w*)\b");
    (Re.DOTALL, "## 1\. Fact Base.*?(?=## 2\.|$)");
    (Re.DOTALL, "## 3\. Claims.*?(?=$)");
    (Re.DOTALL, "## 2\. Logic Graph.*?(?=## 3\.|$)")
  ] = true.
Proof. vm_compute. reflexivity. Qed.

(** ** Closing classification *)

(** C8. [classify_closing] tries the rules in the order pathway, promise,
    paradigm, application, quantitative-recap, outlook and answers with the
    first one whose pattern is found ("other" when none is); on "This
    establishes a new paradigm for label-free biosensing." the pathway and
    promise rules do not match, the paradigm rule does, and the answer is
    "paradigm" although the application rule matches too. *)
Theorem classify_closing_paradigm :
  let sentence := "This establishes a new paradigm for label-free biosensing." in
  let s := strip (lower sentence) in
  (forall x, classify_closing x = first_matching CLOSING_RULES (strip (lower x)) "other")
  /\ map snd CLOSING_RULES
     = ["pathway"; "promise"; "paradigm"; "application"; "quantitative-recap"; "outlook"]
  /\ Re.found CLOSING_PATHWAY s = false
  /\ Re.found CLOSING_PROMISE s = false
  /\ Re.found CLOSING_PARADIGM s = true
  /\ Re.found CLOSING_APPLICATION s = true
  /\ classify_closing sentence = "paradigm".
Proof.
  repeat split; try (vm_compute; reflexivity).
Qed.

(** ** Verb extraction *)

Lemma match_at_start p pre post m s :
  Re.match_at p pre post = Some (m, s) -> Re.m_start m = List.length pre.
Proof.
  unfold Re.match_at.
  destruct (Re.run _ _ _); intros H; inversion H; reflexivity.
Qed.

(** The matches of a scan start at or after the position scanned from, each
    strictly after the one before. *)
Lemma scan_starts fuel p :
  forall pre post,
    Forall (fun m => List.length pre <= Re.m_start m) (Re.scan fuel p pre post)
    /\ StronglySorted lt (map Re.m_start (Re.scan fuel p pre post)).
Proof.
  induction fuel as [|f IH]; intros pre post; simpl.
  - split; constructor.
  - assert (Hstep :
      Forall (fun m => S (List.length pre) <= Re.m_start m)
             match post with [] => [] | c :: t => Re.scan f p (c :: pre) t end
      /\ StronglySorted lt
           (map Re.m_start match post with [] => [] | c :: t => Re.scan f p (c :: pre) t end)).
    { destruct post as [|c t]; [split; constructor|].
      destruct (IH (c :: pre) t) as [Hge Hs]. split; assumption. }
    destruct Hstep as [Hge Hs].
    destruct (Re.match_at p pre post) as [[m s]|] eqn:Hm.
    + apply match_at_start in Hm.
      destruct (List.length pre <? Re.pos s) eqn:Hlt.
      * apply Nat.ltb_lt in Hlt.
        destruct (IH (Re.pre s) (Re.post s)) as [Hge' Hs'].
        fold (Re.pos s) in Hge'.
        split.
        -- constructor; [lia|].
           eapply Forall_impl; [|exact Hge']. simpl. intros; lia.
        -- simpl. constructor; [exact Hs'|].
           rewrite Forall_map. eapply Forall_impl; [|exact Hge'].
           simpl. intros; lia.
      * split.
        -- constructor; [lia|].
           eapply Forall_impl; [|exact Hge]. simpl. intros; lia.
        -- simpl. constructor; [exact Hs|].
           rewrite Forall_map. eapply Forall_impl; [|exact Hge].
           simpl. intros; lia.
    + split; [|exact Hs].
      eapply Forall_impl; [|exact Hge]. simpl. intros; lia.
Qed.

Lemma finditer_starts_increasing p text :
  StronglySorted lt (map Re.m_start (Re.finditer p text)).
Proof. apply scan_starts. Qed.

(** Dropping matches, and tagging the kept ones with their start, keeps the
    starts increasing. *)
Lemma kept_starts_increasing (keep : Re.mtch -> option string) ms :
  StronglySorted lt (map Re.m_start ms) ->
  StronglySorted lt
    (map fst (flat_map (fun m => match keep m with
                                 | Some v => [(Re.m_start m, v)]
                                 | None => []
                                 end) ms)).
Proof.
  induction ms as [|m ms IH]; simpl; intros H; [constructor|].
  inversion H as [|? ? Hs Hall]; subst.
  destruct (keep m); simpl; [|auto].
  constructor; [auto|].
  clear - Hall. induction ms as [|m' ms IH]; simpl; [constructor|].
  inversion Hall; subst.
  destruct (keep m'); simpl; auto.
Qed.

Lemma extract_verbs_occurrences text :
  extract_verbs text = map snd (verb_occurrences text).
Proof.
  unfold extract_verbs, verb_occurrences.
  induction VERB_PATTERNS as [|p ps IH]; simpl; [reflexivity|].
  rewrite map_app, IH. f_equal.
  unfold pattern_occurrences.
  induction (Re.finditer p text) as [|m ms IHm]; simpl; [reflexivity|].
  rewrite map_app, IHm. destruct (verb_of_match m); reflexivity.
Qed.

(** C4, as stated, fails: in "We show X. Here we demonstrate Y." the verb
    "show" is matched at offset 0 and "demonstrate" at offset 11, and
    [extract_verbs] returns "demonstrate" first. *)
Lemma extract_verbs_not_textual_order :
  let text := "We show X. Here we demonstrate Y." in
  extract_verbs text = ["demonstrate"; "show"]
  /\ verb_occurrences text = [(11, "demonstrate"); (0, "show")]
  /\ ~ textual_order (verb_occurrences text).
Proof.
  repeat split; try (vm_compute; reflexivity).
  intros H. vm_compute in H.
  inversion H as [|? ? _ Hall]; subst.
  inversion Hall as [|? ? Hle _]; subst.
  inversion Hle.
Qed.

(** C4, amended. [extract_verbs] returns the verbs pattern family by pattern
    family, in the order of [VERB_PATTERNS]; within one family the verbs are
    in textual order (the offsets of their matches strictly increase). *)
Theorem extract_verbs_by_family (text : string) :
  extract_verbs text
  = flat_map (fun pattern => map snd (pattern_occurrences pattern text)) VERB_PATTERNS
  /\ List.length VERB_PATTERNS = 4
  /\ Forall (fun pattern =>
               StronglySorted lt (map fst (pattern_occurrences pattern text)))
            VERB_PATTERNS.
Proof.
  split; [|split; [reflexivity|]].
  - rewrite extract_verbs_occurrences. unfold verb_occurrences.
    induction VERB_PATTERNS as [|p ps IH]; simpl; [reflexivity|].
    rewrite map_app, IH. reflexivity.
  - apply Forall_forall. intros p _.
    apply kept_starts_increasing, finditer_starts_increasing.
Qed.

(** ** Information density *)

Lemma sum_app l1 l2 : sum (l1 ++ l2) = sum l1 + sum l2.
Proof.
  unfold sum. induction l1 as [|x l1 IH]; simpl; [reflexivity|].
  rewrite IH. lia.
Qed.

Lemma slice_length {A} a b (l : list A) :
  List.length (slice a b l) = Nat.min (b - a) (List.length l - a).
Proof. unfold slice. rewrite length_firstn, length_skipn. reflexivity. Qed.

(** From three sentences on, the guards [max(..., 1)] of the two means are
    idle, and the edge mean is the mean of the entries outside the middle
    third. *)
Lemma classify_shape_spec d :
  3 <= List.length d -> classify_shape d = spec_shape d.
Proof.
  intros Hn. unfold classify_shape, spec_shape.
  assert (Hlt : (List.length d <? 3) = false) by (apply Nat.ltb_ge; exact Hn).
  rewrite Hlt.
  destruct (6 <? list_max d); [reflexivity|].
  destruct (PrimFloat.leb _ _); [reflexivity|].
  destruct (PrimFloat.leb _ _); [reflexivity|].
  unfold mean.
  rewrite sum_app, length_app, length_firstn, length_skipn, slice_length.
  set (n := List.length d) in *.
  pose proof (Nat.div_mod_eq n 3) as E1.
  pose proof (Nat.div_mod_eq (2 * n) 3) as E2.
  pose proof (Nat.mod_upper_bound n 3) as B1.
  pose proof (Nat.mod_upper_bound (2 * n) 3) as B2.
  replace (Nat.max (Nat.min (2 * n / 3 - n / 3) (n - n / 3)) 1)
    with (Nat.min (2 * n / 3 - n / 3) (n - n / 3)) by lia.
  replace (Nat.max (n - Nat.min (2 * n / 3 - n / 3) (n - n / 3)) 1)
    with (Nat.min (n / 3) n + (n - 2 * n / 3)) by lia.
  reflexivity.
Qed.

Lemma profile_unfold text :
  info_density_profile text
  = match split_sentences text with
    | [] => ([], "empty", [])
    | _ =>
        let d := iu_profile text in
        (d, (if List.length d <? 3 then "short" else classify_shape d),
         map (fun s => IuDetail (take 80 s) (fst (count_information_units s))
                                (snd (count_information_units s)))
             (split_sentences text))
    end.
Proof.
  unfold info_density_profile, iu_profile.
  destruct (split_sentences text) as [|s ss]; [reflexivity|].
  set (l := s :: ss).
  assert (Hd : map (fun '(_, (iu_count, _)) => iu_count)
                   (map (fun s0 => (s0, count_information_units s0)) l)
               = map (fun s0 => fst (count_information_units s0)) l).
  { rewrite map_map. apply map_ext. intros x.
    destruct (count_information_units x); reflexivity. }
  assert (Hx : map (fun '(s0, (iu_count, iu_items)) =>
                      IuDetail (take 80 s0) iu_count iu_items)
                   (map (fun s0 => (s0, count_information_units s0)) l)
               = map (fun s0 => IuDetail (take 80 s0) (fst (count_information_units s0))
                                         (snd (count_information_units s0))) l).
  { rewrite map_map. apply map_ext. intros x.
    destruct (count_information_units x); reflexivity. }
  cbv zeta. rewrite Hd, Hx.
  destruct (_ <? 3); reflexivity.
Qed.

Lemma profile_densities_fst text :
  fst (fst (info_density_profile text)) = iu_profile text.
Proof.
  rewrite profile_unfold. unfold iu_profile.
  destruct (split_sentences text); reflexivity.
Qed.

(** C5, as stated, fails for a text without sentences: its profile has
    length [0 < 3], and the shape is "empty", not "short". *)
Lemma empty_profile_not_short :
  let '(d, shape, _) := info_density_profile "" in
  List.length d < 3 /\ shape = "empty" /\ shape <> "short".
Proof.
  vm_compute. repeat split; [lia|discriminate].
Qed.

(** C5, amended.  The profile [d] of a text holds the IU count of each of
    its sentences; its shape is "empty" when there is no sentence and
    follows the specified rule otherwise: "short" for one or two sentences,
    else "spiky" when [max d > 6], else "front-loaded" when the first
    maximum is at [peak <= 0.3 n], "back-loaded" when [peak >= 0.7 n], else
    "bell" when the mean of [d[n/3 : 2n/3]] exceeds 1.2 times the mean of
    the other entries, and "flat" otherwise. *)
Theorem info_density_shape (text : string) :
  let '(d, shape, _) := info_density_profile text in
  d = iu_profile text
  /\ shape = (if List.length d =? 0 then "empty" else spec_shape d).
Proof.
  rewrite profile_unfold. unfold iu_profile.
  destruct (split_sentences text) as [|s ss].
  - split; reflexivity.
  - cbv zeta. set (d := map _ (s :: ss)).
    assert (Hpos : (List.length d =? 0) = false).
    { apply Nat.eqb_neq. subst d. rewrite length_map. simpl. lia. }
    split; [reflexivity|]. rewrite Hpos.
    destruct (List.length d <? 3) eqn:Hlt.
    + unfold spec_shape. rewrite Hlt. reflexivity.
    + apply classify_shape_spec. apply Nat.ltb_ge. exact Hlt.
Qed.

(** Where the middle mean equals 1.2 times the edge mean in exact
    arithmetic ([2/5] against [1.2 * 3/9]) the doubles decide: the product
    is rounded below [0.4], and the profile is a bell. *)
Example shape_of_an_exact_tie :
  classify_shape [0; 0; 0; 0; 0; 1; 1; 0; 0; 1; 1; 1; 0; 0] = "bell".
Proof. vm_compute. reflexivity. Qed.

(** ** Counters *)

Lemma lookup_store {V} k k' (v : V) d :
  lookup k (store k' v d) = if String.eqb k k' then Some v else lookup k d.
Proof.
  induction d as [|[k0 v0] d IH]; simpl.
  - reflexivity.
  - destruct (String.eqb k' k0) eqn:E0; simpl.
    + apply String.eqb_eq in E0. subst k0.
      destruct (String.eqb k k'); reflexivity.
    + destruct (String.eqb k k0) eqn:E1.
      * apply String.eqb_eq in E1. subst k0.
        rewrite String.eqb_sym, E0. reflexivity.
      * exact IH.
Qed.

Lemma tally_add k k' n c :
  tally k (add k' n c) = tally k c + (if String.eqb k k' then n else 0).
Proof.
  unfold add, tally at 1. rewrite lookup_store.
  destruct (String.eqb k k') eqn:E.
  - apply String.eqb_eq in E. subst k'. reflexivity.
  - fold (tally k c). lia.
Qed.

(** What one loop of [_extract_terms] adds to the count of a key: the
    number of matches counted under that key. *)
Lemma tally_count_matches key ms : forall c k,
  tally k (count_matches key ms c)
  = tally k c
    + List.length
        (filter (fun m => match key m with
                          | Some k' => String.eqb k k'
                          | None => false
                          end) ms).
Proof.
  unfold count_matches.
  induction ms as [|m ms IH]; intros c k; simpl; [lia|].
  rewrite IH. destruct (key m) as [k'|]; [|reflexivity].
  rewrite tally_add. destruct (String.eqb k k'); simpl; lia.
Qed.

(** [_extract_terms] adds to the counter it is given: scanning into a
    counter that already has entries gives, for every key, the old count
    plus the count of a scan into an empty counter. *)
Lemma extract_terms_accumulates text c k :
  tally k (_extract_terms text c) = tally k c + tally k (_extract_terms text []).
Proof.
  unfold _extract_terms. cbv zeta.
  rewrite !tally_count_matches. change (tally k []) with 0. lia.
Qed.

Lemma keys_store {V} k (v : V) d :
  NoDup (map fst d) -> NoDup (map fst (store k v d))
  /\ (forall x, In x (map fst (store k v d)) -> x = k \/ In x (map fst d)).
Proof.
  induction d as [|[k0 v0] d IH]; simpl; intros H.
  - split; [constructor; [intros []|constructor] | intros x [Hx|[]]; auto].
  - inversion H as [|? ? Hnot Hd]; subst.
    destruct (String.eqb k k0) eqn:E; simpl.
    + split; [constructor; assumption | intros x Hx; right; exact Hx].
    + destruct (IH Hd) as [Hnd Hin]. split.
      * constructor; [|exact Hnd].
        intros Hk0. apply Hin in Hk0. destruct Hk0 as [Hk0|Hk0]; [|contradiction].
        subst k0. rewrite String.eqb_refl in E. discriminate.
      * intros x [Hx|Hx]; [right; left; exact Hx|].
        apply Hin in Hx. destruct Hx; [left|right; right]; assumption.
Qed.

Lemma keys_count_matches key ms : forall c,
  NoDup (map fst c) -> NoDup (map fst (count_matches key ms c)).
Proof.
  unfold count_matches.
  induction ms as [|m ms IH]; intros c H; simpl; [exact H|].
  apply IH. destruct (key m); [|exact H].
  unfold add. apply keys_store. exact H.
Qed.

Lemma keys_extract_terms text c :
  NoDup (map fst c) -> NoDup (map fst (_extract_terms text c)).
Proof.
  intros H. unfold _extract_terms. cbv zeta.
  repeat apply keys_count_matches. exact H.
Qed.

Lemma keys_all_candidates content : NoDup (map fst (all_candidates content)).
Proof.
  assert (Hs : NoDup (map fst (section_candidates content))).
  { unfold section_candidates, scan_section. cbv zeta.
    repeat match goal with
           | |- context [Re.search ?p ?t] => destruct (Re.search p t)
           end;
      repeat apply keys_extract_terms; constructor. }
  unfold all_candidates. cbv zeta.
  destruct (_ <? 5); [apply keys_extract_terms|]; exact Hs.
Qed.

(** An entry of a counter with distinct keys is the count of its key. *)
Lemma tally_of_entry (c : Counter) k n :
  NoDup (map fst c) -> In (k, n) c -> tally k c = n.
Proof.
  unfold tally.
  induction c as [|[k0 n0] c IH]; simpl; intros Hnd Hin; [contradiction|].
  inversion Hnd as [|? ? Hnot Hd]; subst.
  destruct Hin as [Hin|Hin].
  - inversion Hin; subst. rewrite String.eqb_refl. reflexivity.
  - destruct (String.eqb k k0) eqn:E.
    + apply String.eqb_eq in E. subst k0.
      exfalso. apply Hnot. apply (in_map fst) in Hin. exact Hin.
    + apply IH; assumption.
Qed.

(** ** Adaptive keyword extraction *)

Lemma negb_forallb {A} (f : A -> bool) l :
  negb (forallb f l) = existsb (fun x => negb (f x)) l.
Proof.
  induction l as [|x l IH]; simpl; [reflexivity|].
  rewrite negb_andb, IH. reflexivity.
Qed.

Lemma hyphenated_key_kept m :
  hyphenated_key m = if hyphenated_kept m then Some (lower m) else None.
Proof.
  unfold hyphenated_key, hyphenated_kept. cbv zeta.
  rewrite negb_forallb.
  destruct (6 <=? len m); simpl; [|reflexivity].
  destruct (existsb _ _); simpl; [|reflexivity].
  destruct (mem (lower m) _KW_STOPS); reflexivity.
Qed.

(** C7, as stated, fails: "label-free" is a hyphenated term of ten
    characters, neither "label" nor "free" is a stop word, and it is
    rejected all the same, because "label-free" is itself a stop word. *)
Lemma label_free_is_rejected :
  let m := "label-free" in
  Re.findall HYPHENATED "a label-free probe" = [m]
  /\ 6 <= len m
  /\ map (fun p => mem p _KW_STOPS) (split_on "-" (lower m)) = [false; false]
  /\ hyphenated_key m = None
  /\ _extract_terms "a label-free probe" [] = [].
Proof.
  repeat split; try (vm_compute; reflexivity).
  vm_compute. lia.
Qed.

(** C7, amended.  The hyphenated loop of [_extract_terms] counts a match
    under its lower-case form exactly when the match has six characters or
    more, not every hyphen-separated part of it is a stop word, and its
    lower-case form is not itself in the stop-word set (which lists
    "label-free", "real-time", "state-of-the-art" and ten more): for every
    key, the loop adds the number of such matches that lower-case to it. *)
Theorem hyphenated_filter (matches : list string) (counter : Counter) (k : string) :
  tally k (count_matches hyphenated_key matches counter)
  = tally k counter
    + List.length
        (filter (fun m => hyphenated_kept m && String.eqb k (lower m)) matches).
Proof.
  rewrite tally_count_matches. f_equal. f_equal.
  apply filter_ext. intros m. rewrite hyphenated_key_kept.
  destruct (hyphenated_kept m); reflexivity.
Qed.

(** What a scan of a text into an empty counter counts under a term: the
    occurrences of the term in the text. *)
Lemma extract_terms_occurrences text term :
  tally term (_extract_terms text []) = occurrences term text.
Proof.
  unfold _extract_terms, occurrences, counted_as. cbv zeta.
  rewrite !tally_count_matches. change (tally term []) with 0. lia.
Qed.

Lemma scan_section_occurrences p content c term :
  tally term (scan_section p content c)
  = tally term c
    + sum (map (occurrences term)
               match Re.search (Re.compile Re.DOTALL p) content with
               | Some section => [Re.m_text section]
               | None => []
               end).
Proof.
  unfold scan_section.
  destruct (Re.search (Re.compile Re.DOTALL p) content) as [section|].
  - rewrite extract_terms_accumulates, extract_terms_occurrences.
    unfold sum. cbn [map fold_right]. rewrite Nat.add_0_r. reflexivity.
  - unfold sum. cbn [map fold_right]. rewrite Nat.add_0_r. reflexivity.
Qed.

(** The count of a term after the three structured scans: its occurrences
    in the sections that are found. *)
Lemma section_candidates_occurrences content term :
  tally term (section_candidates content) = section_occurrences term content.
Proof.
  unfold section_candidates, section_occurrences, sections, SECTIONS.
  cbv zeta. rewrite !scan_section_occurrences.
  cbn [flat_map]. rewrite app_nil_r, !map_app, !sum_app.
  change (tally term []) with 0. lia.
Qed.

(** C10.  When the structured sections give fewer than five distinct
    candidates, the whole document is scanned into the same counter.  The
    count of a term after the structured scans is its occurrences in the
    sections found; the scan of the document adds its occurrences in the
    whole document; so the "section" frequency of every candidate is its
    section occurrences plus its whole-document occurrences, and it is this
    sum that enters [score = weight * max(doc_freq, section_freq)], by which
    the keywords are ranked. *)
Theorem fallback_accumulates (content : string) :
  List.length (section_candidates content) < 5 ->
  (forall term,
     tally term (section_candidates content) = section_occurrences term content
     /\ tally term (_extract_terms content []) = occurrences term content
     /\ tally term (all_candidates content)
        = section_occurrences term content + occurrences term content)
  /\ (forall term section_freq,
        In (term, section_freq) (all_candidates content) ->
        section_freq = section_occurrences term content + occurrences term content
        /\ In (term,
               weight_of term * Nat.max (doc_freq_of content term) section_freq,
               doc_freq_of content term)
              (scored content))
  /\ extract_keywords_from_semantic_core content
     = map (fun t => fst (fst t))
           (firstn 15 (sort_desc (fun x => snd (fst x)) (scored content))).
Proof.
  intros Hfew.
  assert (Hall : forall term,
             tally term (all_candidates content)
             = section_occurrences term content + occurrences term content).
  { intros term. unfold all_candidates. cbv zeta.
    apply Nat.ltb_lt in Hfew. rewrite Hfew.
    rewrite extract_terms_accumulates, section_candidates_occurrences,
      extract_terms_occurrences. reflexivity. }
  split.
  { intros term. split; [apply section_candidates_occurrences|].
    split; [apply extract_terms_occurrences|apply Hall]. }
  split; [|reflexivity].
  intros term section_freq Hin. split.
  - rewrite <- Hall. symmetry.
    apply tally_of_entry; [apply keys_all_candidates | exact Hin].
  - unfold scored.
    change (term, weight_of term * Nat.max (doc_freq_of content term) section_freq,
            doc_freq_of content term)
      with (score_entry content (term, section_freq)).
    apply in_map. exact Hin.
Qed.

Lemma fallback_accumulates_witness :
  List.length (section_candidates sample_core) < 5
  /\ sections sample_core
     = ["## 1. Fact Base SRS gain SRS "; "## 2. Logic Graph near-field"]
  /\ section_occurrences "SRS" sample_core = 2
  /\ occurrences "SRS" sample_core = 3
  /\ all_candidates sample_core = [("SRS", 5); ("near-field", 3)]
  /\ scored sample_core = [("SRS", 15, 3); ("near-field", 6, 2)]
  /\ (forall term,
        tally term (section_candidates sample_core)
        = section_occurrences term sample_core
        /\ tally term (_extract_terms sample_core []) = occurrences term sample_core
        /\ tally term (all_candidates sample_core)
           = section_occurrences term sample_core + occurrences term sample_core)
     /\ (forall term section_freq,
           In (term, section_freq) (all_candidates sample_core) ->
           section_freq
           = section_occurrences term sample_core + occurrences term sample_core
           /\ In (term,
                  weight_of term
                  * Nat.max (doc_freq_of sample_core term) section_freq,
                  doc_freq_of sample_core term)
                 (scored sample_core))
     /\ extract_keywords_from_semantic_core sample_core
        = map (fun t => fst (fst t))
              (firstn 15 (sort_desc (fun x => snd (fst x)) (scored sample_core))).
Proof.
  assert (H : List.length (section_candidates sample_core) < 5)
    by (vm_compute; lia).
  assert (H1 : sections sample_core
               = ["## 1. Fact Base SRS gain SRS "; "## 2. Logic Graph near-field"])
    by (vm_compute; reflexivity).
  assert (H2 : section_occurrences "SRS" sample_core = 2) by (vm_compute; reflexivity).
  assert (H3 : occurrences "SRS" sample_core = 3) by (vm_compute; reflexivity).
  assert (H4 : all_candidates sample_core = [("SRS", 5); ("near-field", 3)])
    by (vm_compute; reflexivity).
  assert (H5 : scored sample_core = [("SRS", 15, 3); ("near-field", 6, 2)])
    by (vm_compute; reflexivity).
  exact (conj H (conj H1 (conj H2 (conj H3 (conj H4 (conj H5
           (fallback_accumulates sample_core H))))))).
Defined.

(** ** Hedging *)

Lemma detect_hedges_fold t_lower lex : forall total results,
  fst (fold_left
         (fun '(total, results) '(category, patterns) =>
            let matches := category_matches patterns t_lower in
            (total + List.length matches,
             store category (HedgeInfo (List.length matches) (firstn 3 matches)) results))
         lex (total, results))
  = total
    + List.length
        (flat_map (fun '(category, patterns) =>
                     map (pair category) (category_matches patterns t_lower))
                  lex).
Proof.
  induction lex as [|[category patterns] lex IH]; intros total results.
  - simpl. lia.
  - cbn [fold_left flat_map]. cbv zeta. rewrite IH.
    rewrite length_app, length_map. lia.
Qed.

Lemma detect_hedges_total text :
  fst (detect_hedges text) = List.length (hedge_matches text).
Proof.
  unfold detect_hedges, hedge_matches. cbv zeta.
  rewrite detect_hedges_fold. apply Nat.add_0_l.
Qed.

Lemma of_nat_le (a b : nat) : a <= b -> (of_nat a <= of_nat b)%Q.
Proof. intros H. unfold of_nat. rewrite <- Zle_Qle. lia. Qed.

Lemma of_nat_pos (n : nat) : 0 < n -> (0 < of_nat n)%Q.
Proof.
  intros H. unfold of_nat. change 0%Q with (inject_Z 0). rewrite <- Zlt_Qlt. lia.
Qed.

(** The density grows with the number of hedges, the sentence count held
    fixed. *)
Lemma density_mono_in_total (t1 t2 n : nat) :
  t1 <= t2 ->
  (round (of_nat t1 / of_nat (Nat.max n 1)) 2
   <= round (of_nat t2 / of_nat (Nat.max n 1)) 2)%Q.
Proof.
  intros H. apply round_mono.
  assert (Hd : (0 < of_nat (Nat.max n 1))%Q) by (apply of_nat_pos; lia).
  apply Qle_shift_div_l; [exact Hd|].
  unfold Qdiv. rewrite <- Qmult_assoc, (Qmult_comm (/ _)).
  rewrite Qmult_inv_r by (intros E; rewrite E in Hd; apply (Qlt_irrefl 0), Hd).
  rewrite Qmult_1_r. apply of_nat_le, H.
Qed.

(** C9.  If a second text yields the hedging matches of a first one and one
    more, then, over the same sentence count, its hedge density is at least
    that of the first. *)
Theorem hedge_density_monotone (text1 text2 : string) (n : nat)
  (extra : string * string) :
  Permutation (hedge_matches text2) (extra :: hedge_matches text1) ->
  (hedge_density text1 n <= hedge_density text2 n)%Q.
Proof.
  intros Hperm. unfold hedge_density. cbv zeta.
  apply density_mono_in_total.
  rewrite !detect_hedges_total.
  apply Permutation_length in Hperm. rewrite Hperm. simpl. lia.
Qed.

Lemma hedge_density_monotone_witness :
  Permutation (hedge_matches "It may work.")
              (("epistemic", "may") :: hedge_matches "It works.")
  /\ (hedge_density "It works." 1 <= hedge_density "It may work." 1)%Q.
Proof.
  assert (H : Permutation (hedge_matches "It may work.")
                (("epistemic", "may") :: hedge_matches "It works.")).
  { assert (E1 : hedge_matches "It may work." = [("epistemic", "may")])
      by (vm_compute; reflexivity).
    assert (E2 : hedge_matches "It works." = []) by (vm_compute; reflexivity).
    rewrite E1, E2. apply Permutation_refl. }
  exact (conj H (@hedge_density_monotone "It works." "It may work." 1
                   ("epistemic", "may") H)).
Defined.

(** ** The aggregator *)

(** A quotient whose denominator is floored at 1 does not raise. *)
Lemma truediv_pos (a : Q) (n : nat) :
  0 < n -> truediv a (of_nat n) = Ok (fl (a / of_nat n)).
Proof.
  intros H. unfold truediv.
  destruct (Qeq_bool (of_nat n) 0) eqn:E; [|reflexivity].
  apply Qeq_bool_eq in E. pose proof (of_nat_pos H) as Hp.
  rewrite E in Hp. exfalso. apply (Qlt_irrefl 0), Hp.
Qed.

Lemma truediv_floor1 (a : Q) (n : nat) :
  truediv a (of_nat (Nat.max n 1)) = Ok (fl (a / of_nat (Nat.max n 1))).
Proof. apply truediv_pos. lia. Qed.

Lemma float_of_pos (n : nat) : 0 < n -> (0 < float_of n)%Q.
Proof.
  intros H. unfold float_of. pose proof (of_nat_pos H) as Hp.
  rewrite (fl_pos _ Hp). apply nearest_pos, Hp.
Qed.

(** Nor does one by the float of a positive count. *)
Lemma truediv_float_of (a : Q) (n : nat) :
  0 < n -> truediv a (float_of n) = Ok (fl (a / float_of n)).
Proof.
  intros H. unfold truediv.
  destruct (Qeq_bool (float_of n) 0) eqn:E; [|reflexivity].
  apply Qeq_bool_eq in E. pose proof (float_of_pos H) as Hp.
  rewrite E in Hp. exfalso. apply (Qlt_irrefl 0), Hp.
Qed.

(** An empty denominator raises. *)
Lemma truediv_zero (a : Q) : truediv a (of_nat 0) = Raise ZeroDivisionError.
Proof. reflexivity. Qed.

Lemma insert_asc_length x l : List.length (insert_asc x l) = S (List.length l).
Proof.
  induction l as [|y l IH]; simpl; [reflexivity|].
  destruct (y <=? x); simpl; [rewrite IH|]; reflexivity.
Qed.

Lemma sorted_length l : List.length (sorted l) = List.length l.
Proof.
  unfold sorted. induction l as [|x l IH]; simpl; [reflexivity|].
  rewrite insert_asc_length, IH. reflexivity.
Qed.

Lemma median_exists (l : list nat) :
  l <> [] -> exists m, item (sorted l) (List.length l / 2) = Ok m.
Proof.
  intros H. unfold item.
  destruct (nth_error (sorted l) (List.length l / 2)) as [m|] eqn:E.
  - exists m. reflexivity.
  - apply nth_error_None in E. rewrite sorted_length in E.
    destruct l as [|x l]; [contradiction|]. simpl List.length in E.
    pose proof (Nat.div_lt (S (List.length l)) 2). lia.
Qed.

Lemma map_result_ok {A B} (f : A -> result B) (g : A -> B) l :
  (forall x, f x = Ok (g x)) -> map_result f l = Ok (map g l).
Proof.
  intros H. induction l as [|x l IH]; simpl; [reflexivity|].
  rewrite H. simpl. rewrite IH. reflexivity.
Qed.

(** With one abstract or more, the statistics are computed. *)
Lemma compute_statistics_ok valid :
  valid <> [] -> exists stats, compute_statistics valid = Ok stats.
Proof.
  intros Hne. unfold compute_statistics. cbv zeta.
  set (wc := map (fun a => List.length (split (body a))) valid).
  set (sc := map count_or_len valid).
  assert (Hwc : wc <> []) by (subst wc; destruct valid; [contradiction|discriminate]).
  assert (Hsc : sc <> []) by (subst sc; destruct valid; [contradiction|discriminate]).
  assert (Hlw : 0 < List.length wc) by (destruct wc; [contradiction|simpl; lia]).
  assert (Hls : 0 < List.length sc) by (destruct sc; [contradiction|simpl; lia]).
  rewrite (truediv_pos _ Hlw). cbn [bind].
  destruct (median_exists Hwc) as [m Hm]. rewrite Hm. cbn [bind].
  destruct wc as [|w0 wc']; [contradiction|].
  unfold minimum, maximum at 1. cbn [bind].
  rewrite (map_result_ok _
             (fun x =>
                let d := fl (float_of x
                             - fl (of_nat (sum (w0 :: wc'))
                                   / of_nat (List.length (w0 :: wc'))))%Q in
                fl (d * d)%Q)).
  2:{ intros x. reflexivity. }
  cbn [bind]. rewrite (truediv_float_of _ Hlw). cbn [bind].
  rewrite (truediv_pos _ Hls). cbn [bind].
  destruct (median_exists Hsc) as [m' Hm']. rewrite Hm'. cbn [bind].
  destruct sc as [|s0 sc']; [contradiction|].
  unfold minimum, maximum. cbn [bind].
  eexists. reflexivity.
Qed.

(** A corpus with at least one non-empty abstract is analysed and its report
    saved; the report's discourse sections are those of the valid
    abstracts. *)
Lemma analyze_saves abstracts keywords :
  existsb has_content abstracts = true ->
  exists r afterwards,
    analyze abstracts keywords = Saved r afterwards
    /\ discourse_hedging r = hedging (filter has_content abstracts)
    /\ discourse_info_density r = information_density (filter has_content abstracts).
Proof.
  intros H.
  assert (Hv : filter has_content abstracts <> []).
  { apply existsb_exists in H. destruct H as [a [Hin Ha]].
    intros E. assert (Hf : In a (filter has_content abstracts))
      by (apply filter_In; split; assumption).
    rewrite E in Hf. exact Hf. }
  unfold analyze.
  destruct abstracts as [|a0 rest]; [discriminate|].
  set (valid := filter has_content (a0 :: rest)) in *.
  destruct (compute_statistics_ok Hv) as [stats Hs]. rewrite Hs.
  destruct (classify_patterns valid) as [[[opening closing] ex_open] ex_close].
  destruct (compute_topic_alignment _ _) as [alignment_score keyword_detail].
  destruct (here_we valid) as [here_we_count here_we_verbs].
  rewrite truediv_pos by (destruct valid; [contradiction|simpl; lia]).
  eexists. eexists. split; [reflexivity|]. split; reflexivity.
Qed.

(** Without a valid abstract the statistics raise on their first mean. *)
Lemma analyze_without_valid abstracts keywords :
  abstracts <> [] -> filter has_content abstracts = [] ->
  analyze abstracts keywords = Uncaught ZeroDivisionError.
Proof.
  intros Hne Hv. unfold analyze.
  destruct abstracts as [|a0 rest]; [contradiction|].
  rewrite Hv. reflexivity.
Qed.

Lemma floor1_precomputed a : Nat.max (n_sents a) 1 = precomputed_count a.
Proof.
  unfold n_sents, count_or_len, precomputed_count.
  destruct (sentence_count a) as [[|k]|]; lia.
Qed.

Lemma hedging_densities valid :
  density_per_abstract (hedging valid)
  = map (fun a => hedge_density (body a) (precomputed_count a)) valid.
Proof.
  unfold hedging. cbv zeta. cbn [density_per_abstract].
  apply map_ext. intros a. rewrite floor1_precomputed. reflexivity.
Qed.

Lemma all_densities_profiles valid :
  flat_map (fun '(_, (densities, _, _)) => densities)
           (map (fun a => (doi a, info_density_profile (body a))) valid)
  = flat_map (fun a => iu_profile (body a)) valid.
Proof.
  induction valid as [|a valid IH]; [reflexivity|].
  cbn [map flat_map]. rewrite IH. f_equal.
  rewrite <- profile_densities_fst.
  destruct (info_density_profile (body a)) as [[d shape] details]. reflexivity.
Qed.

Lemma mean_iu_profiles valid :
  mean_iu_per_sentence (information_density valid)
  = round (of_nat (sum (flat_map (fun a => iu_profile (body a)) valid))
           / of_nat (Nat.max (List.length (flat_map (fun a => iu_profile (body a)) valid)) 1))
          1.
Proof.
  unfold information_density. cbv zeta. cbn [mean_iu_per_sentence].
  rewrite all_densities_profiles. reflexivity.
Qed.

Lemma density_profiles valid :
  map de_profile (density_examples (information_density valid))
  = map (fun a => iu_profile (body a)) (firstn 3 valid).
Proof.
  unfold information_density. cbv zeta. cbn [density_examples].
  rewrite firstn_map, !map_map.
  apply map_ext. intros a.
  rewrite <- profile_densities_fst.
  destruct (info_density_profile (body a)) as [[d shape] details]. reflexivity.
Qed.

(** C3, as stated, fails.  For a record with text and no precomputed
    sentences the profiler derives two sentences with the splitter, and the
    hedge density of the same run is taken over one sentence: it is 2.0,
    where the derived count would give 1.0. *)
Lemma hedging_ignores_the_splitter :
  sentences bare_record = None
  /\ List.length (split_sentences (body bare_record)) = 2
  /\ match analyze [bare_record] None with
     | Saved r _ =>
         density_per_abstract (discourse_hedging r) = [2%Q]
         /\ map de_profile (density_examples (discourse_info_density r)) = [[0; 0]]
     | _ => False
     end
  /\ hedge_density (body bare_record) (List.length (split_sentences (body bare_record)))
     = 1%Q.
Proof.
  repeat split; vm_compute; reflexivity.
Qed.

(** C3, amended.  A run over a corpus with a non-empty abstract saves a
    report in which the information-density profile of a record is always
    derived with the splitter from its full text, while the hedge density of
    a record is always taken over its precomputed count, floored at 1: its
    [sentence_count] when not zero, else the number of its precomputed
    sentences; so over 1 for a record with neither. *)
Theorem sentence_counts_in_a_run (abstracts : list abstract)
  (keywords : option (list string)) :
  existsb has_content abstracts = true ->
  exists r afterwards,
    analyze abstracts keywords = Saved r afterwards
    /\ density_per_abstract (discourse_hedging r)
       = map (fun a => hedge_density (body a) (precomputed_count a))
             (filter has_content abstracts)
    /\ (forall a, sentences a = None -> sentence_count a = None ->
                  precomputed_count a = 1)
    /\ map de_profile (density_examples (discourse_info_density r))
       = map (fun a => iu_profile (body a)) (firstn 3 (filter has_content abstracts))
    /\ mean_iu_per_sentence (discourse_info_density r)
       = round (of_nat (sum (flat_map (fun a => iu_profile (body a))
                                      (filter has_content abstracts)))
                / of_nat (Nat.max
                            (List.length (flat_map (fun a => iu_profile (body a))
                                                   (filter has_content abstracts)))
                            1))
               1.
Proof.
  intros H. destruct (analyze_saves abstracts keywords H) as [r [post [Hr [Hh Hd]]]].
  exists r, post. split; [exact Hr|].
  rewrite Hh, Hd. split; [apply hedging_densities|].
  split.
  { intros a Hs Hc. unfold precomputed_count, get_sentences. rewrite Hs, Hc. reflexivity. }
  split; [apply density_profiles | apply mean_iu_profiles].
Qed.

Lemma sentence_counts_in_a_run_witness :
  existsb has_content [bare_record] = true
  /\ exists r afterwards,
       analyze [bare_record] None = Saved r afterwards
       /\ density_per_abstract (discourse_hedging r)
          = map (fun a => hedge_density (body a) (precomputed_count a))
                (filter has_content [bare_record])
       /\ (forall a, sentences a = None -> sentence_count a = None ->
                     precomputed_count a = 1)
       /\ map de_profile (density_examples (discourse_info_density r))
          = map (fun a => iu_profile (body a))
                (firstn 3 (filter has_content [bare_record]))
       /\ mean_iu_per_sentence (discourse_info_density r)
          = round (of_nat (sum (flat_map (fun a => iu_profile (body a))
                                         (filter has_content [bare_record])))
                   / of_nat (Nat.max
                               (List.length (flat_map (fun a => iu_profile (body a))
                                                      (filter has_content [bare_record])))
                               1))
                  1.
Proof.
  assert (H : existsb has_content [bare_record] = true) by reflexivity.
  exact (conj H (sentence_counts_in_a_run [bare_record] None H)).
Defined.

(** C2 (the code departs from it).  An empty corpus file ends the run with
    the diagnostic; a corpus whose records all lack text passes that guard,
    which tests the list before it is filtered, and the run dies of an
    uncaught [ZeroDivisionError] in the first mean. *)
Theorem analyze_blank_corpus :
  analyze [] None = Exit 1 "No abstracts to analyze"
  /\ filter has_content [blank_record] = []
  /\ analyze [blank_record] None = Uncaught ZeroDivisionError.
Proof.
  repeat split.
Qed.

(** C6 (the code departs from it).  Over an empty list of valid abstracts
    the means floored with [max(..., 1)] are 0, and the two that divide by
    [len(...)] itself, the word-count mean of the statistics and the
    "Here we" percentage, raise [ZeroDivisionError]. *)
Theorem unguarded_denominators :
  mean_hedges_per_sentence (hedging []) = 0%Q
  /\ mean_iu_per_sentence (information_density []) = 0%Q
  /\ shift_percentage (domain_shift []) = 0%Q
  /\ compute_statistics [] = Raise ZeroDivisionError
  /\ truediv (of_nat (100 * fst (here_we []))) (of_nat (List.length (@nil abstract)))
     = Raise ZeroDivisionError.
Proof.
  repeat split.
Qed.

(** ** Topic alignment *)

Local Open Scope R_scope.

Lemma exp_double_lower a b x : 0 < a -> a <= exp x -> b <= a * a -> b <= exp (2 * x).
Proof.
  intros Ha Hx Hb. replace (2 * x) with (x + x) by lra. rewrite exp_plus.
  apply Rle_trans with (a * a); [exact Hb|].
  apply Rmult_le_compat; lra.
Qed.

Lemma exp_double_upper a b x : exp x <= a -> a * a <= b -> exp (2 * x) <= b.
Proof.
  intros Hx Hb. replace (2 * x) with (x + x) by lra. rewrite exp_plus.
  pose proof (exp_pos x) as Hp.
  apply Rle_trans with (a * a); [|exact Hb].
  apply Rmult_le_compat; lra.
Qed.

Lemma exp_small_upper x b : 0 < 1 - x -> 1 <= b * (1 - x) -> exp x <= b.
Proof.
  intros Hx Hb.
  pose proof (exp_ineq1_le (- x)) as Hn. rewrite exp_Ropp in Hn.
  pose proof (exp_pos x) as Hp.
  assert (He : exp x * / exp x = 1) by (apply Rinv_r; lra).
  apply Rmult_le_reg_r with (1 - x); [exact Hx|].
  apply Rle_trans with 1; [|exact Hb].
  rewrite <- He. apply Rmult_le_compat_l; lra.
Qed.

Ltac lower_step H b H' :=
  match type of H with
  | ?a <= exp ?x =>
      assert (H' : b <= exp (2 * x))
        by (apply (@exp_double_lower a b x); [lra | exact H | lra])
  end.

Ltac upper_step H b H' :=
  match type of H with
  | exp ?x <= ?a =>
      assert (H' : exp (2 * x) <= b)
        by (apply (@exp_double_upper a b x); [exact H | lra])
  end.

Lemma exp_0695 : 2 < exp 0.695.
Proof.
  assert (H0 : 1.001357421875 <= exp (0.695 / 512))
    by (pose proof (exp_ineq1_le (0.695 / 512)); lra).
  lower_step H0 1.002716686344 H1.
  lower_step H1 1.005440753072 H2.
  lower_step H2 1.010911107937 H3.
  lower_step H3 1.02194126815 H4.
  lower_step H4 1.044363955548 H5.
  lower_step H5 1.090696071647 H6.
  lower_step H6 1.189617920706 H7.
  lower_step H7 1.415190797264 H8.
  lower_step H8 2.00276499266 H9.
  match type of H9 with _ <= exp ?y => replace y with 0.695 in H9 by lra end.
  lra.
Qed.

Lemma exp_0685 : exp 0.685 < 2.
Proof.
  assert (H0 : exp (0.685 / 512) <= 1.001339682975)
    by (apply exp_small_upper; lra).
  upper_step H0 1.002681160701 H1.
  upper_step H1 1.005369510025 H2.
  upper_step H2 1.010767851688 H3.
  upper_step H3 1.021651650006 H4.
  upper_step H4 1.04377209396 H5.
  upper_step H5 1.08946018413 H6.
  upper_step H6 1.186923492805 H7.
  upper_step H7 1.408787377773 H8.
  upper_step H8 1.984681875773 H9.
  match type of H9 with exp ?y <= _ => replace y with 0.685 in H9 by lra end.
  lra.
Qed.

Lemma ln_2_bounds : 0.685 < ln 2 < 0.695.
Proof.
  split.
  - apply Rle_lt_trans with (ln (exp 0.685)); [rewrite ln_exp; lra|].
    apply ln_increasing; [apply exp_pos|apply exp_0685].
  - apply Rlt_le_trans with (ln (exp 0.695)); [|rewrite ln_exp; lra].
    apply ln_increasing; [lra|apply exp_0695].
Qed.

Lemma ln_half_bounds : -0.695 < ln (1 / 2) < -0.685.
Proof.
  replace (1 / 2) with (/ 2) by lra.
  rewrite ln_Rinv by lra. pose proof ln_2_bounds. lra.
Qed.

(** A real strictly within a half of an integer rounds to it. *)
Lemma Rround_half_even_near (x : R) (z : Z) :
  IZR z - 1 / 2 < x < IZR z + 1 / 2 -> Rround_half_even x = z.
Proof.
  intros [Hlo Hhi]. unfold Rround_half_even.
  pose proof (Rplus_Int_part_frac_part x) as Hx.
  pose proof (base_fp x) as [Hf0 Hf1].
  set (f := Int_part x) in *. set (fr := frac_part x) in *.
  destruct (Rlt_dec fr (1 / 2)) as [Hlt|Hge].
  - assert (H1 : IZR (z - 1) < IZR f) by (rewrite minus_IZR; lra).
    assert (H2 : IZR f < IZR (z + 1)) by (rewrite plus_IZR; lra).
    apply lt_IZR in H1, H2. lia.
  - destruct (Rlt_dec (1 / 2) fr) as [Hgt|Hle].
    + assert (H1 : IZR (z - 2) < IZR f) by (rewrite minus_IZR; lra).
      assert (H2 : IZR f < IZR z) by lra.
      apply lt_IZR in H1, H2. lia.
    + assert (E : fr = 1 / 2) by lra.
      assert (H1 : IZR (z - 1) < IZR f) by (rewrite minus_IZR; lra).
      assert (H2 : IZR f < IZR z) by lra.
      apply lt_IZR in H1, H2. lia.
Qed.

Lemma Rround_near (x : R) (z : Z) (nd : nat) :
  IZR z - 1 / 2 < x * 10 ^ nd < IZR z + 1 / 2 -> Rround x nd = IZR z / 10 ^ nd.
Proof.
  intros H. unfold Rround. rewrite (@Rround_half_even_near (x * 10 ^ nd) z H). reflexivity.
Qed.

Lemma Rround_half_even_le (y : R) (z : Z) :
  y <= IZR z -> (Rround_half_even y <= z)%Z.
Proof.
  intros Hy. unfold Rround_half_even.
  pose proof (Rplus_Int_part_frac_part y) as Hx.
  pose proof (base_fp y) as [Hf0 Hf1].
  set (f := Int_part y) in *. set (fr := frac_part y) in *.
  assert (Hfz : (f <= z)%Z) by (apply le_IZR; lra).
  assert (Hup : 0 < fr -> (f + 1 <= z)%Z).
  { intros Hpos. assert (H : IZR f < IZR z) by lra. apply lt_IZR in H. lia. }
  destruct (Rlt_dec fr (1 / 2)); [exact Hfz|].
  destruct (Rlt_dec (1 / 2) fr); [apply Hup; lra|].
  destruct (Z.even f); [exact Hfz | apply Hup; lra].
Qed.

(** The cap [min(100, ...)] holds after rounding: the score never exceeds
    100. *)
Lemma alignment_at_most_100 (keywords texts : list string) :
  fst (compute_topic_alignment keywords texts) <= 100.
Proof.
  unfold compute_topic_alignment. cbv zeta.
  destruct (List.length texts =? 0)%nat; [simpl; lra|].
  unfold fst, Rround. replace (10 ^ 1) with 10 by (simpl; lra).
  match goal with
  | |- IZR (Rround_half_even ?y) / _ <= _ =>
      assert (H : (Rround_half_even y <= 1000)%Z)
  end.
  { apply Rround_half_even_le.
    match goal with |- Rmin 100 ?x * _ <= _ => pose proof (Rmin_l 100 x) end.
    lra. }
  apply IZR_le in H. lra.
Qed.

(** C1 (the code departs from it).  One document "a" and the keyword "a":
    the keyword is in every document, so [idf = ln (1 / 2)] is negative,
    [tf_idf] rounds to -0.69, the normaliser is [max(1 * ln 1, 1) = 1], and
    the score, capped above at 100 and nowhere below, is -69.0. *)
Theorem alignment_of_a_ubiquitous_keyword :
  fst (compute_topic_alignment ["a"%string] ["a"%string]) = -69.
Proof.
  unfold compute_topic_alignment.
  change (List.length ["a"%string]) with 1%nat.
  cbv zeta. change (1 =? 0)%nat with false. cbv iota.
  unfold fst.
  change (fold_left _ ["a"%string] [])
    with [("a"%string, score_keyword 1 ["a"%string] "a")].
  unfold values, map, snd, Rsum, fold_left.
  unfold score_keyword. cbv zeta.
  change (List.length (filter _ ["a"%string])) with 1%nat.
  change (sum (map _ ["a"%string])) with 1%nat.
  change (0 <? 1)%nat with true. cbv iota.
  unfold tf_idf.
  change (INR 1) with 1.
  pose proof ln_half_bounds as Hl.
  assert (E1 : Rround (1 * ln (1 / (1 + 1))) 2 = -0.69).
  { replace (1 + 1) with 2 by lra.
    rewrite (@Rround_near (1 * ln (1 / 2)) (-69) 2); [lra|]. simpl pow. lra. }
  rewrite E1. rewrite ln_1.
  replace (Rmax (1 * 0) 1) with 1 by (rewrite Rmax_right; lra).
  replace ((0 + -0.69) / 1 * 100) with (-69) by lra.
  rewrite Rmin_right by lra.
  rewrite (@Rround_near (-69) (-690) 1); [lra|]. simpl pow. lra.
Qed.

Local Close Scope R_scope.

(** * Further properties of the engine *)

(** ** Counters and rankings *)

Lemma insert_desc_perm {A} (key : A -> nat) x l :
  Permutation (insert_desc key x l) (x :: l).
Proof.
  induction l as [|y l IH]; simpl; [apply Permutation_refl|].
  destruct (key x <? key y); [|apply Permutation_refl].
  eapply Permutation_trans; [apply perm_skip, IH|apply perm_swap].
Qed.

Lemma sort_desc_perm {A} (key : A -> nat) l : Permutation (sort_desc key l) l.
Proof.
  unfold sort_desc. induction l as [|x l IH]; simpl; [constructor|].
  eapply Permutation_trans; [apply insert_desc_perm|apply perm_skip, IH].
Qed.

Lemma insert_desc_descending {A} (key : A -> nat) x l :
  descending key l -> descending key (insert_desc key x l).
Proof.
  unfold descending. induction l as [|y l IH]; simpl; intros H.
  - constructor; constructor.
  - inversion H as [|? ? Hs Hall]; subst.
    destruct (key x <? key y) eqn:E.
    + apply Nat.ltb_lt in E. constructor; [apply IH, Hs|].
      eapply Permutation_Forall; [apply Permutation_sym, insert_desc_perm|].
      constructor; [lia|exact Hall].
    + apply Nat.ltb_ge in E. constructor; [exact H|].
      constructor; [exact E|].
      eapply Forall_impl; [|exact Hall]. simpl. intros; lia.
Qed.

Lemma sort_desc_descending {A} (key : A -> nat) l : descending key (sort_desc key l).
Proof.
  unfold sort_desc. induction l as [|x l IH]; simpl; [constructor|].
  apply insert_desc_descending, IH.
Qed.

Lemma insert_desc_filter {A} (key : A -> nat) k x l :
  filter (fun y => key y =? k) (insert_desc key x l)
  = filter (fun y => key y =? k) (x :: l).
Proof.
  induction l as [|y l IH]; [reflexivity|].
  cbn [insert_desc]. destruct (key x <? key y) eqn:E; [|reflexivity].
  apply Nat.ltb_lt in E. cbn [filter] in *. rewrite IH.
  destruct (key x =? k) eqn:Ex; [|reflexivity].
  apply Nat.eqb_eq in Ex.
  assert (Ey : (key y =? k) = false) by (apply Nat.eqb_neq; lia).
  rewrite Ey. reflexivity.
Qed.

(** The sort is stable: entries of one key keep their order. *)
Lemma sort_desc_stable {A} (key : A -> nat) k l :
  filter (fun y => key y =? k) (sort_desc key l) = filter (fun y => key y =? k) l.
Proof.
  unfold sort_desc. induction l as [|x l IH]; [reflexivity|].
  cbn [fold_right]. rewrite insert_desc_filter. cbn [filter]. rewrite IH. reflexivity.
Qed.

Lemma tally_fold xs : forall c k,
  tally k (fold_left (fun c x => add x 1 c) xs c) = tally k c + count_occ string_dec xs k.
Proof.
  induction xs as [|x xs IH]; intros c k; simpl; [lia|].
  rewrite IH, tally_add.
  destruct (string_dec x k) as [E|N].
  - subst. rewrite String.eqb_refl. lia.
  - assert (E : String.eqb k x = false) by (apply String.eqb_neq; congruence).
    rewrite E. lia.
Qed.

(** [Counter(xs)[k]] is the number of times [k] occurs in [xs]. *)
Lemma tally_count_all xs k : tally k (count_all xs) = count_occ string_dec xs k.
Proof. unfold count_all. rewrite tally_fold. reflexivity. Qed.

Lemma keys_store_new {V} k (v : V) d :
  map fst (store k v d) = if mem k (map fst d) then map fst d else map fst d ++ [k].
Proof.
  unfold mem. induction d as [|[k0 v0] d IH]; simpl; [reflexivity|].
  destruct (String.eqb k k0) eqn:E; simpl; [reflexivity|].
  rewrite IH. destruct (existsb (String.eqb k) (map fst d)); reflexivity.
Qed.

Lemma keys_fold xs : forall c : Counter,
  map fst (fold_left (fun c x => add x 1 c) xs c)
  = fold_left (fun acc x => set_add x acc) xs (map fst c).
Proof.
  induction xs as [|x xs IH]; intros c; simpl; [reflexivity|].
  rewrite IH. f_equal. unfold add, set_add. apply keys_store_new.
Qed.

(** The keys of [Counter(xs)] are the distinct elements of [xs] in the order
    first met. *)
Lemma keys_count_all xs : map fst (count_all xs) = first_seen xs.
Proof. unfold count_all, first_seen, add_all. apply keys_fold. Qed.

Lemma in_add_all xs : forall acc x, In x (add_all xs acc) -> In x acc \/ In x xs.
Proof.
  unfold add_all. induction xs as [|y xs IH]; intros acc x H; simpl in *; [auto|].
  apply IH in H. destruct H as [H|H]; [|auto].
  unfold set_add in H. destruct (mem y acc); [auto|].
  apply in_app_or in H. destruct H as [H|[H|[]]]; auto.
Qed.

Lemma in_first_seen xs x : In x (first_seen xs) -> In x xs.
Proof. intros H. apply in_add_all in H. destruct H as [[]|H]. exact H. Qed.

Lemma add_all_in xs : forall acc x, In x acc \/ In x xs -> In x (add_all xs acc).
Proof.
  unfold add_all. induction xs as [|y xs IH]; intros acc x H; simpl in *.
  - destruct H as [H|[]]. exact H.
  - apply IH. unfold set_add. destruct (mem y acc) eqn:E.
    + destruct H as [H|[<-|H]]; [left; exact H| |right; exact H].
      left. unfold mem in E. apply existsb_exists in E.
      destruct E as [z [Hz Ez]]. apply String.eqb_eq in Ez. subst. exact Hz.
    + destruct H as [H|[<-|H]]; [left| |right; exact H].
      * apply in_or_app. left. exact H.
      * left. apply in_or_app. right. left. reflexivity.
Qed.

Lemma in_first_seen_iff xs x : In x (first_seen xs) <-> In x xs.
Proof.
  split; [apply in_first_seen|]. intros H. apply add_all_in. right. exact H.
Qed.

Lemma keys_count_all_nodup xs : NoDup (map fst (count_all xs)).
Proof.
  unfold count_all. generalize (NoDup_nil string).
  change (@nil string) with (map fst (@nil (string * nat))).
  generalize (@nil (string * nat)).
  induction xs as [|x xs IH]; intros c H; simpl; [exact H|].
  apply IH. unfold add. apply keys_store. exact H.
Qed.

Lemma descending_map {A B} (f : A -> B) (key : B -> nat) l :
  descending key (map f l) <-> descending (fun x => key (f x)) l.
Proof.
  unfold descending. induction l as [|x l IH]; simpl.
  - split; constructor.
  - split; intros H; inversion H as [|? ? Hs Hall]; subst;
      (constructor; [apply IH, Hs|]).
    + rewrite Forall_map in Hall. exact Hall.
    + rewrite Forall_map. exact Hall.
Qed.

Lemma in_firstn {A} n (l : list A) x : In x (firstn n l) -> In x l.
Proof.
  intros H. rewrite <- (firstn_skipn n l). apply in_or_app. left. exact H.
Qed.

Lemma descending_ext {A} (key key' : A -> nat) l :
  (forall x, key x = key' x) -> descending key l -> descending key' l.
Proof.
  intros E. unfold descending. induction 1 as [|x l Hs IH Hall]; constructor.
  - exact IH.
  - eapply Forall_impl; [|exact Hall]. simpl. intros y Hy. rewrite <- !E. exact Hy.
Qed.

Lemma descending_firstn {A} (key : A -> nat) n l :
  descending key l -> descending key (firstn n l).
Proof.
  unfold descending. revert n. induction l as [|x l IH]; intros n H.
  - rewrite firstn_nil. constructor.
  - destruct n; simpl; [constructor|].
    inversion H as [|? ? Hs Hall]; subst. constructor; [apply IH, Hs|].
    apply Forall_forall. intros y Hy. rewrite Forall_forall in Hall.
    apply Hall. eapply in_firstn. exact Hy.
Qed.

Lemma nodup_firstn {A} n (l : list A) : NoDup l -> NoDup (firstn n l).
Proof.
  intros H. rewrite <- (firstn_skipn n l) in H.
  apply NoDup_app_remove_r in H. exact H.
Qed.

Lemma filter_firstn_prefix {A} (p : A -> bool) n l :
  prefix_of (filter p (firstn n l)) (filter p l).
Proof.
  exists (filter p (skipn n l)). rewrite <- filter_app, firstn_skipn. reflexivity.
Qed.

Lemma enumerate_values {A} (l : list A) : forall i, map snd (enumerate_from i l) = l.
Proof.
  induction l as [|x l IH]; intros i; simpl; [reflexivity|]. rewrite IH. reflexivity.
Qed.

Lemma enumerate_indices {A} (l : list A) : forall i,
  map fst (enumerate_from i l) = seq i (List.length l).
Proof.
  induction l as [|x l IH]; intros i; simpl; [reflexivity|]. rewrite IH. reflexivity.
Qed.

(** In a counter with distinct keys, the entries of count [k] are the keys
    of tally [k]. *)
Lemma keys_of_count (c : Counter) k :
  NoDup (map fst c) ->
  map fst (filter (fun e => snd e =? k) c)
  = filter (fun v => tally v c =? k) (map fst c).
Proof.
  intros H. rewrite filter_map_swap. f_equal.
  apply filter_ext_in. intros [v n] Hin. simpl.
  rewrite (tally_of_entry c v n H Hin). reflexivity.
Qed.

Lemma descending_app {A} (key : A -> nat) l1 l2 :
  descending key (l1 ++ l2) ->
  forall a b, In a l1 -> In b l2 -> key b <= key a.
Proof.
  unfold descending. induction l1 as [|x l1 IH]; intros H a b Ha Hb; [destruct Ha|].
  cbn [app] in H. inversion H as [|? ? Hs Hall]; subst.
  destruct Ha as [<-|Ha].
  - rewrite Forall_forall in Hall. apply Hall. apply in_or_app. right. exact Hb.
  - exact (IH Hs a b Ha Hb).
Qed.

(** [Counter(xs).most_common(n)] *)
Lemma most_common_ranked n xs : ranked n xs (most_common n (count_all xs)).
Proof.
  set (c := count_all xs).
  set (top := most_common n c).
  assert (Hkeys : NoDup (map fst c)) by apply keys_count_all_nodup.
  assert (Hperm : Permutation (sort_desc snd c) c) by apply sort_desc_perm.
  assert (Hin : forall v k, In (v, k) (sort_desc snd c) -> In (v, k) c).
  { intros v k H. eapply Permutation_in; [exact Hperm|exact H]. }
  assert (Hcount : forall v k, In (v, k) (sort_desc snd c) ->
                               k = count_occ string_dec xs v).
  { intros v k H. apply Hin in H.
    rewrite <- (tally_count_all xs v). symmetry. apply tally_of_entry; assumption. }
  assert (Hsorted : descending snd (sort_desc snd c)) by apply sort_desc_descending.
  unfold ranked. split; [|split; [|split; [|split; [|split; [|split]]]]].
  - subst top. unfold most_common. rewrite length_firstn. lia.
  - subst top. unfold most_common. rewrite <- firstn_map.
    apply nodup_firstn.
    eapply Permutation_NoDup; [apply Permutation_sym, Permutation_map, Hperm|exact Hkeys].
  - apply Forall_forall. intros [v k] He. cbn [fst snd].
    apply in_firstn in He. pose proof (Hcount v k He) as Hk.
    split; [exact Hk|]. rewrite Hk. apply count_occ_In.
    apply in_first_seen. rewrite <- keys_count_all.
    apply Hin in He. apply (in_map fst) in He. exact He.
  - subst top. unfold most_common. apply descending_firstn, Hsorted.
  - intros k.
    replace (filter (fun v => count_occ string_dec xs v =? k) (first_seen xs))
      with (map fst (filter (fun e => snd e =? k) (sort_desc snd c))).
    2:{ rewrite sort_desc_stable, keys_of_count by exact Hkeys.
        subst c. rewrite keys_count_all. apply filter_ext. intros v.
        rewrite tally_count_all. reflexivity. }
    subst top. unfold most_common.
    destruct (filter_firstn_prefix (fun e : string * nat => snd e =? k) n (sort_desc snd c))
      as [rest Hrest].
    exists (map fst rest). rewrite <- map_app, Hrest. reflexivity.
  - intros v Hv Hout.
    assert (Hkey : In v (map fst (sort_desc snd c))).
    { eapply Permutation_in; [apply Permutation_sym, Permutation_map, Hperm|].
      subst c. rewrite keys_count_all. apply in_first_seen_iff. exact Hv. }
    apply in_map_iff in Hkey. destruct Hkey as [[v' k] [Ev He]]. cbn [fst] in Ev. subst v'.
    rewrite <- (firstn_skipn n (sort_desc snd c)) in He, Hsorted.
    apply in_app_or in He. destruct He as [He|He].
    { exfalso. apply Hout. subst top. unfold most_common.
      apply (in_map fst) in He. exact He. }
    split.
    + subst top. unfold most_common. rewrite length_firstn.
      destruct (Nat.le_gt_cases n (List.length (sort_desc snd c))) as [L|G]; [lia|].
      rewrite skipn_all2 in He by lia. destruct He.
    + apply Forall_forall. intros e Hin'.
      pose proof (descending_app _ _ Hsorted e (v, k) Hin' He) as Hle.
      cbn [snd] in Hle.
      assert (Hk : k = count_occ string_dec xs v).
      { apply Hcount. rewrite <- (firstn_skipn n (sort_desc snd c)).
        apply in_or_app. right. exact He. }
      rewrite <- Hk. exact Hle.
  - intros Hfew. subst top. unfold most_common.
    rewrite firstn_all2.
    + rewrite <- keys_count_all. apply Permutation_map, Hperm.
    + rewrite (Permutation_length Hperm).
      rewrite <- (length_map fst). subst c. rewrite keys_count_all. exact Hfew.
Qed.

(** The ranking that [analyze] builds from the extracted verbs. *)
Lemma verb_ranking xs :
  ranked_verbs xs
    (map (fun '(i, (v, c)) => VerbEntry v c (i + 1))
         (enumerate_from 0 (most_common 20 (count_all xs)))).
Proof.
  set (top := most_common 20 (count_all xs)).
  set (vf := map _ _).
  assert (Hpairs : map (fun e => (ve_verb e, ve_count e)) vf = top).
  { subst vf. rewrite map_map. rewrite <- (enumerate_values top 0) at 2.
    apply map_ext. intros [i [v n]]. reflexivity. }
  split.
  - subst vf. rewrite map_map, length_map.
    replace (List.length (enumerate_from 0 top)) with (List.length top)
      by (rewrite <- (enumerate_values top 0) at 1; rewrite length_map; reflexivity).
    rewrite <- seq_shift, <- (enumerate_indices top 0), map_map.
    apply map_ext. intros [i [v n]]. simpl. lia.
  - rewrite Hpairs. apply most_common_ranked.
Qed.

(** ** The aggregator's report *)

(** What a run over a corpus with a non-empty abstract saves, field by
    field. *)
Lemma analyze_fields abstracts keywords :
  existsb has_content abstracts = true ->
  exists r afterwards,
    analyze abstracts keywords = Saved r afterwards
    /\ n_analyzed r = List.length (valid_of abstracts)
    /\ n_total r = List.length abstracts
    /\ verb_frequency r
       = map (fun '(i, (v, c)) => VerbEntry v c (i + 1))
             (enumerate_from 0 (most_common 20 (count_all (all_verbs_of abstracts))))
    /\ here_we_pivot r
       = PivotReport
           (fst (here_we (valid_of abstracts)))
           (round (of_nat (100 * fst (here_we (valid_of abstracts)))
                   / of_nat (List.length (valid_of abstracts))) 1)
           (most_common 10 (snd (here_we (valid_of abstracts))))
    /\ compute_statistics (valid_of abstracts) = Ok (sentence_statistics r)
    /\ opening_patterns r
       = pattern_summary (fst (fst (fst (classify_patterns (valid_of abstracts)))))
                         (snd (fst (classify_patterns (valid_of abstracts))))
    /\ closing_patterns r
       = pattern_summary (snd (fst (fst (classify_patterns (valid_of abstracts)))))
                         (snd (classify_patterns (valid_of abstracts)))
    /\ discourse_hedging r = hedging (valid_of abstracts)
    /\ discourse_info_density r = information_density (valid_of abstracts)
    /\ discourse_domain_shift r = domain_shift (valid_of abstracts)
    /\ afterwards
       = match most_common 20 (count_all (all_verbs_of abstracts)) with
         | [] => Some IndexError
         | _ => None
         end
    /\ bigrams r = firstn 20 (most_common 30 (count_all (all_ngrams_of 2 abstracts)))
    /\ trigrams r = firstn 15 (most_common 20 (count_all (all_ngrams_of 3 abstracts)))
    /\ topic_alignment r
       = AlignmentReport
           (fst (compute_topic_alignment (given keywords) (map body (valid_of abstracts))))
           (given keywords)
           (snd (compute_topic_alignment (given keywords) (map body (valid_of abstracts)))).
Proof.
  intros H. unfold all_verbs_of, all_ngrams_of, given, valid_of.
  assert (Hv : filter has_content abstracts <> []).
  { apply existsb_exists in H. destruct H as [a [Hin Ha]].
    intros E. assert (Hf : In a (filter has_content abstracts))
      by (apply filter_In; split; assumption).
    rewrite E in Hf. exact Hf. }
  unfold analyze.
  destruct abstracts as [|a0 rest]; [discriminate|].
  set (valid := filter has_content (a0 :: rest)) in *.
  destruct (compute_statistics_ok Hv) as [stats Hs]. rewrite Hs.
  destruct (classify_patterns valid) as [[[opening closing] ex_open] ex_close].
  destruct (compute_topic_alignment _ _) as [alignment_score keyword_detail].
  destruct (here_we valid) as [here_we_count here_we_verbs].
  rewrite truediv_pos by (destruct valid; [contradiction|simpl; lia]).
  rewrite round_fl.
  eexists. eexists. repeat split; reflexivity.
Qed.

Lemma add_all_grows xs : forall acc, acc <> [] -> add_all xs acc <> [].
Proof.
  unfold add_all. induction xs as [|x xs IH]; intros acc H; simpl; [exact H|].
  apply IH. unfold set_add. destruct (mem x acc); [exact H|].
  destruct acc; [contradiction|discriminate].
Qed.

Lemma most_common_nil n xs : 0 < n -> (most_common n (count_all xs) = [] <-> xs = []).
Proof.
  intros Hn. split.
  - intros H. destruct xs as [|x xs]; [reflexivity|]. exfalso.
    assert (Hk : map fst (count_all (x :: xs)) <> []).
    { rewrite keys_count_all. unfold first_seen. cbn [add_all fold_left].
      apply add_all_grows. discriminate. }
    unfold most_common in H.
    pose proof (Permutation_length (sort_desc_perm snd (count_all (x :: xs)))) as Hl.
    destruct (count_all (x :: xs)) as [|e c]; [apply Hk; reflexivity|].
    destruct (sort_desc snd (e :: c)); [discriminate|].
    destruct n; [lia|discriminate].
  - intros ->. destruct n; reflexivity.
Qed.

Lemma bind_ok {A B} (c : result A) (k : A -> result B) y :
  bind c k = Ok y -> exists x, c = Ok x /\ k x = Ok y.
Proof.
  destruct c as [x|e]; simpl; intros H; [exists x; auto|discriminate].
Qed.

Ltac step_bind H := apply bind_ok in H; destruct H as [? [? H]].

(** The statistics count the abstracts they are taken over, and their
    extremes bracket the medians. *)
Lemma statistics_count valid st :
  compute_statistics valid = Ok st -> n_abstracts st = List.length valid.
Proof.
  unfold compute_statistics. cbv zeta. intros H.
  do 10 step_bind H.
  injection H as <-. reflexivity.
Qed.

Lemma valid_nonempty abstracts :
  existsb has_content abstracts = true <-> valid_of abstracts <> [].
Proof.
  unfold valid_of. split.
  - intros E. apply existsb_exists in E. destruct E as [a [Hin Ha]].
    intros E'. assert (Hf : In a (filter has_content abstracts))
      by (apply filter_In; split; assumption).
    rewrite E' in Hf. exact Hf.
  - intros H. destruct (filter has_content abstracts) as [|a l] eqn:Ef; [contradiction|].
    assert (Hin : In a (filter has_content abstracts)) by (rewrite Ef; left; reflexivity).
    apply filter_In in Hin. destruct Hin as [Hin Ha].
    apply existsb_exists. exists a. split; assumption.
Qed.

(** X1.  How a run ends.  It exits with status 1 exactly when the corpus file
    holds no record; it dies of [ZeroDivisionError], nothing saved, exactly
    when there are records and none has text; otherwise the report is saved
    and counts the records right. *)
Theorem analyze_outcome (abstracts : list abstract) (keywords : option (list string)) :
  match analyze abstracts keywords with
  | Exit status _ => abstracts = [] /\ status = 1
  | Uncaught e =>
      abstracts <> [] /\ valid_of abstracts = [] /\ e = ZeroDivisionError
  | Saved r _ =>
      valid_of abstracts <> []
      /\ n_analyzed r = List.length (valid_of abstracts)
      /\ n_total r = List.length abstracts
      /\ 1 <= n_analyzed r <= n_total r
      /\ n_abstracts (sentence_statistics r) = n_analyzed r
  end.
Proof.
  destruct (existsb has_content abstracts) eqn:E.
  - destruct (analyze_fields abstracts keywords E)
      as [r [post [Hr [Hn [Ht [_ [_ [Hs _]]]]]]]].
    rewrite Hr.
    assert (Hv : valid_of abstracts <> []) by (apply valid_nonempty; exact E).
    repeat split; try assumption.
    + rewrite Hn. destruct (valid_of abstracts); [contradiction|simpl; lia].
    + rewrite Hn, Ht. unfold valid_of. apply filter_length_le.
    + rewrite Hn. apply statistics_count. exact Hs.
  - assert (Hv : valid_of abstracts = []).
    { destruct (valid_of abstracts) eqn:Ev; [reflexivity|].
      assert (Hne : valid_of abstracts <> []) by (rewrite Ev; discriminate).
      apply valid_nonempty in Hne. congruence. }
    destruct abstracts as [|a0 rest].
    + simpl. split; reflexivity.
    + rewrite analyze_without_valid; [|discriminate|exact Hv].
      repeat split; [discriminate|exact Hv].
Qed.

(** ** What the matcher reads *)

Lemma chars_of_chars l : chars (of_chars l) = l.
Proof. apply list_ascii_of_string_of_list_ascii. Qed.

Lemma of_chars_chars s : of_chars (chars s) = s.
Proof. apply string_of_list_ascii_of_string. Qed.

Lemma spans_refl ok s : spans ok 0 s s [].
Proof. repeat split; simpl; lia. Qed.

Lemma spans_trans ok w1 w2 s1 s2 s3 l1 l2 :
  spans ok w1 s1 s2 l1 -> spans ok w2 s2 s3 l2 -> spans ok (w1 + w2) s1 s3 (l1 ++ l2).
Proof.
  intros [P1 [Q1 [W1 F1]]] [P2 [Q2 [W2 F2]]]. repeat split.
  - rewrite P1, P2, app_assoc. reflexivity.
  - rewrite Q2, Q1, rev_app_distr, app_assoc. reflexivity.
  - rewrite length_app. lia.
  - rewrite forallb_app, F1, F2. reflexivity.
Qed.

Lemma spans_weaken (ok ok' : ascii -> bool) w w' s s' l :
  (forall c, ok c = true -> ok' c = true) -> w' <= w ->
  spans ok w s s' l -> spans ok' w' s s' l.
Proof.
  intros Hok Hw [P [Q [W F]]]. repeat split; [exact P|exact Q|lia|].
  rewrite forallb_forall in *. intros c Hc. apply Hok, F, Hc.
Qed.

Lemma spans_pos ok w s s' l : spans ok w s s' l -> Re.pos s' = Re.pos s + List.length l.
Proof.
  intros [_ [Q _]]. unfold Re.pos. rewrite Q, length_app, length_rev. lia.
Qed.

Lemma spans_read ok w s s' l :
  spans ok w s s' l -> rev (firstn (Re.pos s' - Re.pos s) (Re.pre s')) = l.
Proof.
  intros H. rewrite (spans_pos H). destruct H as [_ [Q _]].
  replace (Re.pos s + List.length l - Re.pos s) with (List.length (rev l))
    by (rewrite length_rev; lia).
  rewrite Q, firstn_app, Nat.sub_diag, firstn_all. simpl.
  rewrite app_nil_r. apply rev_involutive.
Qed.

Lemma iterate_spans ok body greedy :
  reads_spans ok 0 body ->
  forall fuel, reads_spans ok 0 (fun s k => Re.iterate body greedy k fuel s).
Proof.
  intros Hb fuel. unfold reads_spans.
  induction fuel as [|f IHf]; intros s k sf H; simpl in H.
  - exists s, []. split; [apply spans_refl|exact H].
  - set (more := body s (fun s' => if Re.pos s <? Re.pos s'
                                    then Re.iterate body greedy k f s' else None)) in *.
    assert (Hmore : forall sf', more = Some sf' ->
                                exists s' l, spans ok 0 s s' l /\ k s' = Some sf').
    { intros sf' Hr. apply Hb in Hr. destruct Hr as [s1 [l1 [A1 Hr]]].
      destruct (Re.pos s <? Re.pos s1); [|discriminate].
      apply IHf in Hr. destruct Hr as [s2 [l2 [A2 Hr]]].
      exists s2, (l1 ++ l2). split; [|exact Hr].
      exact (spans_trans A1 A2). }
    clearbody more. unfold Re.orelse in H. destruct greedy.
    + destruct more as [x|].
      * inversion H; subst. apply Hmore. reflexivity.
      * exists s, []. split; [apply spans_refl|exact H].
    + destruct (k s) eqn:Ek.
      * inversion H; subst. exists s, []. split; [apply spans_refl|exact Ek].
      * apply Hmore. exact H.
Qed.

(** A successful run of [r] has read at least [min_len r] characters, all of
    them in [alphabet r], and gone on with its continuation from there. *)
Lemma run_spans r : reads_spans (alphabet r) (min_len r) (Re.run r).
Proof.
  induction r as [|p|a IHa b IHb|a IHa b IHb|greedy a IHa|n a IHa| | | |ahead positive a IHa|];
    intros s k sf H; simpl in H.
  - exists s, []. split; [apply spans_refl|exact H].
  - destruct (Re.post s) as [|c t] eqn:Ep; [discriminate|].
    destruct (p c) eqn:Ec; [|discriminate].
    eexists. exists [c]. split; [|exact H].
    repeat split; simpl; [exact Ep|lia|rewrite Ec; reflexivity].
  - apply IHa in H. destruct H as [s1 [l1 [A1 H]]].
    apply IHb in H. destruct H as [s2 [l2 [A2 H]]].
    exists s2, (l1 ++ l2). split; [|exact H].
    assert (B1 : spans (alphabet (Re.Cat a b)) (min_len a) s s1 l1).
    { eapply spans_weaken; [| |exact A1]; [|lia].
      intros c Hc. simpl. rewrite Hc. reflexivity. }
    assert (B2 : spans (alphabet (Re.Cat a b)) (min_len b) s1 s2 l2).
    { eapply spans_weaken; [| |exact A2]; [|lia].
      intros c Hc. simpl. rewrite Hc. apply orb_true_r. }
    exact (spans_trans B1 B2).
  - unfold Re.orelse in H.
    destruct (Re.run a s k) eqn:Ea.
    + inversion H; subst. apply IHa in Ea. destruct Ea as [s1 [l1 [A1 Ea]]].
      exists s1, l1. split; [|exact Ea].
      eapply spans_weaken; [| |exact A1]; [|simpl; lia].
      intros c Hc. simpl. rewrite Hc. reflexivity.
    + apply IHb in H. destruct H as [s1 [l1 [A1 H]]].
      exists s1, l1. split; [|exact H].
      eapply spans_weaken; [| |exact A1]; [|simpl; lia].
      intros c Hc. simpl. rewrite Hc. apply orb_true_r.
  - assert (Ha : reads_spans (alphabet a) 0 (Re.run a)).
    { intros s0 k0 sf0 H0. apply IHa in H0. destruct H0 as [s1 [l1 [A1 H0]]].
      exists s1, l1. split; [|exact H0].
      eapply spans_weaken; [| |exact A1]; [auto|lia]. }
    exact (@iterate_spans _ (Re.run a) greedy Ha _ s k sf H).
  - apply IHa in H. destruct H as [s1 [l1 [A1 H]]].
    exists (Re.capture n s s1), l1. split; [|exact H].
    destruct A1 as [P [Q [W F]]]. repeat split; assumption.
  - destruct (Re.pre s); [|discriminate]. exists s, []. split; [apply spans_refl|exact H].
  - destruct (Re.at_end s); [|discriminate]. exists s, []. split; [apply spans_refl|exact H].
  - destruct (Re.at_boundary s); [|discriminate]. exists s, []. split; [apply spans_refl|exact H].
  - match type of H with
    | (if ?c then _ else _) = _ => destruct c; [|discriminate]
    end.
    exists s, []. split; [apply spans_refl|exact H].
  - discriminate.
Qed.

(** What a match at a position is: the text read from there. *)
Lemma match_at_spans p pre post m s :
  Re.match_at p pre post = Some (m, s) ->
  exists l,
    spans (alphabet (Re.expr p)) (min_len (Re.expr p)) (Re.MState pre post []) s l
    /\ Re.m_text m = of_chars l
    /\ Re.m_start m = List.length pre
    /\ Re.m_end m = List.length pre + List.length l.
Proof.
  unfold Re.match_at. destruct (Re.run _ _ _) as [sf|] eqn:E; [|discriminate].
  intros H. inversion H; subst. clear H.
  apply run_spans in E. destruct E as [s' [l [A E]]]. inversion E; subst.
  exists l. split; [exact A|]. cbn [Re.m_text Re.m_start Re.m_end].
  pose proof (spans_read A) as Hr. pose proof (spans_pos A) as Hp.
  unfold Re.pos at 2 in Hr. unfold Re.pos at 2 in Hp. cbn [Re.pre] in Hr, Hp.
  rewrite Hr. repeat split. exact Hp.
Qed.

(** The matches of a scan lie in the text scanned, each as long as the
    pattern asks and made of the characters it can read. *)
Lemma scan_sound p : forall fuel pre post m,
  In m (Re.scan fuel p pre post) ->
  lies_in (rev pre ++ post) m
  /\ min_len (Re.expr p) <= len (Re.m_text m)
  /\ forallb (alphabet (Re.expr p)) (chars (Re.m_text m)) = true.
Proof.
  induction fuel as [|f IH]; intros pre post m H; [destruct H|].
  simpl in H.
  assert (Hstep : In m (match post with [] => [] | c :: t => Re.scan f p (c :: pre) t end) ->
                  lies_in (rev pre ++ post) m
                  /\ min_len (Re.expr p) <= len (Re.m_text m)
                  /\ forallb (alphabet (Re.expr p)) (chars (Re.m_text m)) = true).
  { destruct post as [|c t]; [intros []|]. intros Hin. apply IH in Hin.
    simpl in Hin. rewrite <- app_assoc in Hin. exact Hin. }
  destruct (Re.match_at p pre post) as [[m0 s]|] eqn:Em; [|auto].
  assert (Hhere : lies_in (rev pre ++ post) m0
                  /\ min_len (Re.expr p) <= len (Re.m_text m0)
                  /\ forallb (alphabet (Re.expr p)) (chars (Re.m_text m0)) = true).
  { apply match_at_spans in Em. destruct Em as [l [[P [Q [W F]]] [Ht [Hs He]]]].
    cbn [Re.post Re.pre] in P, Q. unfold len. rewrite Ht, chars_of_chars.
    split; [|split; assumption].
    exists (rev pre), (Re.post s). rewrite Ht, chars_of_chars, length_rev.
    unfold len. rewrite chars_of_chars. repeat split; [rewrite P; reflexivity|auto|lia]. }
  assert (Hrest : In m (Re.scan f p (Re.pre s) (Re.post s)) ->
                  lies_in (rev pre ++ post) m
                  /\ min_len (Re.expr p) <= len (Re.m_text m)
                  /\ forallb (alphabet (Re.expr p)) (chars (Re.m_text m)) = true).
  { intros Hin. apply IH in Hin.
    apply match_at_spans in Em. destruct Em as [l [[P [Q _]] _]].
    cbn [Re.post Re.pre] in P, Q.
    rewrite Q, rev_app_distr, rev_involutive, <- app_assoc, <- P in Hin. exact Hin. }
  destruct (List.length pre <? Re.pos s); destruct H as [H|H];
    try (subst m0; exact Hhere); auto.
Qed.

(** [re.finditer]: every match it yields is found in the text at its
    [start()], ends at its [end()], has at least the length the pattern
    forces and holds only characters of the pattern's sets. *)
Lemma finditer_sound p text m :
  In m (Re.finditer p text) ->
  lies_in (chars text) m
  /\ min_len (Re.expr p) <= len (Re.m_text m)
  /\ forallb (alphabet (Re.expr p)) (chars (Re.m_text m)) = true.
Proof. intros H. apply scan_sound in H. exact H. Qed.

Lemma all_chars_complete c : In c all_chars.
Proof.
  unfold all_chars. rewrite <- (ascii_nat_embedding c).
  apply in_map, in_seq. pose proof (nat_ascii_bounded c). lia.
Qed.

(** A property of characters checked on all 256 of them. *)
Lemma by_all_chars (p q : ascii -> bool) :
  forallb (fun c => implb (p c) (q c)) all_chars = true ->
  forall c, p c = true -> q c = true.
Proof.
  intros H c Hp. rewrite forallb_forall in H.
  specialize (H c (all_chars_complete c)). rewrite Hp in H. exact H.
Qed.

Lemma forallb_impl {A} (p q : A -> bool) l :
  (forall x, p x = true -> q x = true) -> forallb p l = true -> forallb q l = true.
Proof.
  intros H. rewrite !forallb_forall. intros F x Hx. apply H, F, Hx.
Qed.

(** ** Tokens and n-grams *)

(** Every token has three characters or more, lower-case letters and
    hyphens only. *)
Lemma tokenize_tokens text :
  Forall (fun t => 3 <= len t
                   /\ forallb (fun c => is_lower_char c || eqc "-" c) (chars t) = true)
         (tokenize text).
Proof.
  unfold tokenize. cbv zeta.
  set (p := Re.re "[a-z][a-z\-]+[a-z]").
  assert (Hg : Re.ngroups p = 0) by (vm_compute; reflexivity).
  assert (Hw : min_len (Re.expr p) = 3) by (vm_compute; reflexivity).
  assert (Ha : forallb (fun c => implb (alphabet (Re.expr p) c)
                                       (is_lower_char c || eqc "-" c)) all_chars = true)
    by (vm_compute; reflexivity).
  clearbody p. unfold Re.findall. rewrite Hg.
  apply Forall_forall. intros t Ht. apply in_map_iff in Ht.
  destruct Ht as [m [<- Hm]]. apply finditer_sound in Hm.
  destruct Hm as [_ [W F]]. rewrite Hw in W. split; [exact W|].
  eapply forallb_impl; [|exact F]. apply by_all_chars, Ha.
Qed.

Lemma windows_in n : forall tokens gram,
  In gram (windows n tokens) ->
  List.length gram = n /\ forall t, In t gram -> In t tokens.
Proof.
  induction tokens as [|t0 rest IH]; intros gram H.
  { cbn [windows] in H. destruct (n =? 0) eqn:E; [|destruct H].
    apply Nat.eqb_eq in E. destruct H as [<-|[]].
    split; [symmetry; exact E|intros t []]. }
  cbn [windows] in H. destruct (n <=? List.length (t0 :: rest)) eqn:E; [|destruct H].
  apply Nat.leb_le in E. destruct H as [<-|H].
  - split; [apply firstn_length_le; exact E|]. intros t. apply in_firstn.
  - apply IH in H. destruct H as [Hl Hin]. split; [exact Hl|].
    intros t Ht. right. apply Hin, Ht.
Qed.

Lemma windows_count n : forall tokens,
  1 <= n -> List.length (windows n tokens) = List.length tokens + 1 - n.
Proof.
  intros tokens Hn. induction tokens as [|t0 rest IH].
  { cbn [windows List.length]. destruct (n =? 0) eqn:E; [|cbn [List.length]; lia].
    apply Nat.eqb_eq in E. lia. }
  cbn [windows]. destruct (n <=? List.length (t0 :: rest)) eqn:E.
  - apply Nat.leb_le in E. cbn [List.length] in *. rewrite IH. lia.
  - apply Nat.leb_gt in E. cbn [List.length] in *. lia.
Qed.

Lemma flat_map_unless {A B} (p : A -> bool) (f : A -> B) l :
  flat_map (fun x => if p x then [] else [f x]) l
  = map f (filter (fun x => negb (p x)) l).
Proof.
  induction l as [|x l IH]; [reflexivity|]. cbn [flat_map filter].
  destruct (p x); cbn [negb app map]; rewrite IH; reflexivity.
Qed.

Lemma existsb_negb_forallb {A} (p : A -> bool) l :
  existsb p l = negb (forallb (fun x => negb (p x)) l).
Proof.
  induction l as [|x l IH]; [reflexivity|]. cbn [existsb forallb].
  rewrite IH. destruct (p x); reflexivity.
Qed.

(** X13.  The n-grams of a text are the runs of [n] consecutive tokens
    without a stop word, joined by spaces; the test on the length of a token
    never rejects one: every token has three characters or more, lower-case
    letters and hyphens only.  There is at most one n-gram per run. *)
Theorem extract_ngrams_windows (text : string) (n : nat) :
  1 <= n ->
  extract_ngrams text n
  = map (join " ")
        (filter (fun gram => forallb (fun t => negb (mem t STOPWORDS)) gram)
                (windows n (tokenize text)))
  /\ Forall (fun gram => List.length gram = n) (windows n (tokenize text))
  /\ Forall (fun t => 3 <= len t
                      /\ forallb (fun c => is_lower_char c || eqc "-" c) (chars t) = true)
            (tokenize text)
  /\ List.length (extract_ngrams text n) <= List.length (tokenize text) + 1 - n.
Proof.
  intros Hn.
  assert (E : extract_ngrams text n
              = map (join " ")
                    (filter (fun gram => forallb (fun t => negb (mem t STOPWORDS)) gram)
                            (windows n (tokenize text)))).
  { unfold extract_ngrams. cbv zeta. rewrite flat_map_unless. f_equal.
    apply filter_ext_in. intros gram Hg. rewrite existsb_negb_forallb, negb_involutive.
    apply windows_in in Hg. destruct Hg as [_ Hin].
    pose proof (tokenize_tokens text) as Ht. rewrite Forall_forall in Ht.
    clear Hn. induction gram as [|t gram IH]; [reflexivity|].
    cbn [forallb]. rewrite IH by (intros t' Ht'; apply Hin; right; exact Ht').
    destruct (Ht t (Hin t (or_introl eq_refl))) as [Hlen _].
    assert (El : (len t <? 3) = false) by (apply Nat.ltb_ge; exact Hlen).
    rewrite El, orb_false_r. reflexivity. }
  split; [exact E|]. split; [|split; [apply tokenize_tokens|]].
  - apply Forall_forall. intros gram Hg. apply windows_in in Hg.
    destruct Hg as [Hl _]. exact Hl.
  - rewrite E, length_map, <- (windows_count (tokenize text) Hn). apply filter_length_le.
Qed.

Lemma extract_ngrams_windows_witness :
  1 <= 2
  /\ extract_ngrams "We show optical frequency combs" 2
     = map (join " ")
           (filter (fun gram => forallb (fun t => negb (mem t STOPWORDS)) gram)
                   (windows 2 (tokenize "We show optical frequency combs")))
  /\ Forall (fun gram => List.length gram = 2)
            (windows 2 (tokenize "We show optical frequency combs"))
  /\ Forall (fun t => 3 <= len t
                      /\ forallb (fun c => is_lower_char c || eqc "-" c) (chars t) = true)
            (tokenize "We show optical frequency combs")
  /\ List.length (extract_ngrams "We show optical frequency combs" 2)
     <= List.length (tokenize "We show optical frequency combs") + 1 - 2.
Proof.
  assert (H : 1 <= 2) by lia.
  exact (conj H (extract_ngrams_windows "We show optical frequency combs" H)).
Defined.

(** ** Domain-shift markers *)

(** X23.  Every marker reported is found in the text where its position says, and
    is twelve characters long or more. *)
Theorem domain_shift_markers_located (text : string) :
  Forall (fun mk => exists before after,
            chars text = before ++ chars (mk_match mk) ++ after
            /\ List.length before = mk_position mk
            /\ 12 <= len (mk_match mk))
         (detect_domain_shifts text).
Proof.
  unfold detect_domain_shifts. set (ps := DOMAIN_SHIFT_PATTERNS).
  assert (Hw : forallb (fun p => 12 <=? min_len (Re.expr p)) ps = true)
    by (vm_compute; reflexivity).
  clearbody ps. rewrite forallb_forall in Hw.
  apply Forall_forall. intros mk Hmk. apply in_flat_map in Hmk.
  destruct Hmk as [pat [Hpat Hmk]]. apply in_map_iff in Hmk.
  destruct Hmk as [m [<- Hm]]. apply finditer_sound in Hm.
  destruct Hm as [[before [after [Ht [Hb _]]]] [W _]].
  specialize (Hw pat Hpat). apply Nat.leb_le in Hw.
  exists before, after. cbn [mk_match mk_position].
  split; [exact Ht|]. split; [exact Hb|lia].
Qed.

(** ** Verbs *)

Lemma lower_char_idem c : lower_char (lower_char c) = lower_char c.
Proof.
  assert (H : forallb (fun c => implb true (eqc (lower_char (lower_char c)) (lower_char c)))
                      all_chars = true) by (vm_compute; reflexivity).
  apply Ascii.eqb_eq. exact (by_all_chars (fun _ => true) _ H c eq_refl).
Qed.

(** [s.lower().lower() == s.lower()] *)
Lemma lower_idem s : lower (lower s) = lower s.
Proof.
  unfold lower. rewrite chars_of_chars, map_map. f_equal.
  apply map_ext. intros c. apply lower_char_idem.
Qed.

Lemma lookup_in_values {V} k (v : V) d : lookup k d = Some v -> In v (values d).
Proof.
  unfold values. induction d as [|[k0 v0] d IH]; simpl; [discriminate|].
  destruct (String.eqb k k0); intros H; [inversion H; auto|auto].
Qed.

Lemma mem_in x xs : mem x xs = true <-> In x xs.
Proof.
  unfold mem. rewrite existsb_exists. split.
  - intros [y [Hy E]]. apply String.eqb_eq in E. subst. exact Hy.
  - intros H. exists x. split; [exact H|apply String.eqb_refl].
Qed.

(** The base forms of the table are lower-case and not themselves entries
    of it. *)
Lemma normalize_settled verb :
  lookup (normalize (lower verb)) VERB_NORMALIZE = None
  /\ lower (normalize (lower verb)) = normalize (lower verb).
Proof.
  assert (Hv : forallb (fun base =>
                          match lookup base VERB_NORMALIZE with
                          | None => String.eqb (lower base) base
                          | Some _ => false
                          end)
                       (values VERB_NORMALIZE) = true) by (vm_compute; reflexivity).
  rewrite forallb_forall in Hv. unfold normalize.
  destruct (lookup (lower verb) VERB_NORMALIZE) as [base|] eqn:E.
  - apply lookup_in_values in E. specialize (Hv base E).
    destruct (lookup base VERB_NORMALIZE); [discriminate|].
    apply String.eqb_eq in Hv. split; [reflexivity|exact Hv].
  - split; [exact E|apply lower_idem].
Qed.

(** X12.  No verb returned is a stop verb or shorter than three characters; every
    one is lower-case and a base form: normalising it again changes
    nothing. *)
Theorem extract_verbs_kept (text : string) :
  Forall (fun verb => mem verb STOP_VERBS = false
                      /\ 3 <= len verb
                      /\ lower verb = verb
                      /\ normalize verb = verb)
         (extract_verbs text).
Proof.
  apply Forall_forall. intros verb H. unfold extract_verbs in H.
  apply in_flat_map in H. destruct H as [pattern [_ H]].
  apply in_flat_map in H. destruct H as [m [_ H]].
  unfold verb_of_match in H. cbv zeta in H.
  destruct (normalize_settled (Re.group 1 m)) as [Hn Hl].
  set (v := normalize (lower (Re.group 1 m))) in *. clearbody v.
  destruct (negb (mem v STOP_VERBS) && (2 <? len v)) eqn:E; [|destruct H].
  destruct H as [<-|[]]. apply andb_prop in E. destruct E as [Es El].
  apply negb_true_iff in Es. apply Nat.ltb_lt in El.
  repeat split; [exact Es|lia|exact Hl|].
  unfold normalize. rewrite Hn. reflexivity.
Qed.

(** ** Information units *)

Lemma set_add_keeps (P : string -> Prop) x s :
  NoDup s /\ Forall P s -> P x -> NoDup (set_add x s) /\ Forall P (set_add x s).
Proof.
  intros [Hn Hf] Hx. unfold set_add. destruct (mem x s) eqn:E; [split; assumption|].
  split.
  - apply NoDup_app; [exact Hn|repeat constructor; intros []|].
    intros y Hy [<-|[]]. apply mem_in in Hy. congruence.
  - apply Forall_app. split; [exact Hf|repeat constructor; exact Hx].
Qed.

Lemma add_all_keeps (P : string -> Prop) xs : forall s,
  NoDup s /\ Forall P s -> Forall P xs ->
  NoDup (add_all xs s) /\ Forall P (add_all xs s).
Proof.
  unfold add_all. induction xs as [|x xs IH]; intros s Hs Hxs; [exact Hs|].
  inversion Hxs as [|? ? Hx Hrest]; subst. cbn [fold_left].
  apply IH; [|exact Hrest]. apply set_add_keeps; assumption.
Qed.

Lemma Forall_flat_map_each {A B} (P : B -> Prop) (f : A -> list B) l :
  (forall x, Forall P (f x)) -> Forall P (flat_map f l).
Proof.
  intros H. induction l as [|x l IH]; [constructor|].
  cbn [flat_map]. apply Forall_app. split; [apply H|exact IH].
Qed.

Lemma Forall_map_each {A B} (P : B -> Prop) (f : A -> B) l :
  (forall x, P (f x)) -> Forall P (map f l).
Proof.
  intros H. induction l as [|x l IH]; constructor; [apply H|exact IH].
Qed.

Ltac tag_with t := unfold tagged, IU_TAGS; exists t; eexists; split; [simpl; tauto|reflexivity].

Lemma information_units_count sentence :
  fst (count_information_units sentence)
  = List.length (snd (count_information_units sentence)).
Proof. reflexivity. Qed.

(** X20.  The count of a sentence is the number of its distinct units, each
    listed once under the tag of its kind. *)
Theorem information_units_distinct (sentence : string) :
  let '(iu_count, iu_items) := count_information_units sentence in
  iu_count = List.length iu_items /\ NoDup iu_items /\ Forall tagged iu_items.
Proof.
  unfold count_information_units. cbv zeta. cbn [fold_left].
  split; [reflexivity|].
  repeat (apply add_all_keeps; [|]).
  - split; constructor.
  - apply Forall_flat_map_each. intros m.
    destruct (negb (mem m ["A"; "I"; "We"])); repeat constructor. tag_with "ACRO:".
  - apply Forall_map_each. intros m. tag_with "NUM:".
  - apply Forall_map_each. intros m. tag_with "NUM:".
  - apply Forall_flat_map_each. intros [i w].
    destruct ((0 <? i) && Re.matches (Re.re "^[A-Z][a-z]{3,}$") w);
      repeat constructor. tag_with "PROP:".
  - apply Forall_flat_map_each. intros m.
    destruct (6 <=? len m); repeat constructor. tag_with "HYPH:".
  - apply Forall_map_each. intros m. tag_with "NP:".
Qed.

(** ** Density profiles *)

Lemma classify_shape_label d :
  In (classify_shape d) ["spiky"; "front-loaded"; "back-loaded"; "bell"; "flat"].
Proof.
  unfold classify_shape. cbv zeta.
  repeat match goal with
         | |- context [if ?c then _ else _] => destruct c
         end; simpl; tauto.
Qed.

Lemma len_take n s : len (take n s) <= n.
Proof.
  unfold len, take. rewrite chars_of_chars, length_firstn. lia.
Qed.

(** X21.  The profile of a text has one density and one detail per sentence, in
    order; a detail shows the first 80 characters of its sentence and lists
    as many items as it counts.  The shape is one of seven; it is "empty"
    without a sentence and "short" with one or two, and only then. *)
Theorem profile_details (text : string) :
  let '(densities, shape, details) := info_density_profile text in
  List.length densities = List.length (split_sentences text)
  /\ map d_iu_count details = densities
  /\ map d_sentence details = map (take 80) (split_sentences text)
  /\ Forall (fun x => d_iu_count x = List.length (d_iu_items x)
                      /\ len (d_sentence x) <= 80) details
  /\ In shape SHAPES
  /\ (shape = "empty" <-> split_sentences text = [])
  /\ (shape = "short" <-> 1 <= List.length densities <= 2).
Proof.
  rewrite profile_unfold. unfold iu_profile.
  destruct (split_sentences text) as [|s ss].
  - repeat split; try reflexivity; try constructor; try (simpl; tauto);
      try discriminate; simpl; lia.
  - cbv zeta. set (l := s :: ss).
    split; [apply length_map|].
    split; [rewrite map_map; reflexivity|].
    split; [rewrite map_map; reflexivity|].
    split.
    { apply Forall_map_each. intros x. cbn [d_iu_count d_iu_items d_sentence].
      split; [apply information_units_count|apply len_take]. }
    assert (Hl : 1 <= List.length (map (fun s0 => fst (count_information_units s0)) l))
      by (rewrite length_map; simpl; lia).
    pose proof (classify_shape_label (map (fun s0 => fst (count_information_units s0)) l))
      as Hc.
    set (d := map (fun s0 => fst (count_information_units s0)) l) in *. clearbody d.
    destruct (List.length d <? 3) eqn:E.
    + apply Nat.ltb_lt in E. unfold SHAPES.
      split; [simpl; tauto|]. split; [split; discriminate|].
      split; [intros _; lia|reflexivity].
    + apply Nat.ltb_ge in E. unfold SHAPES.
      split; [simpl in Hc |- *; tauto|].
      split; [split; [|discriminate]|split; [|lia]];
        intros Hs; rewrite Hs in Hc; simpl in Hc;
        repeat (destruct Hc as [Hc|Hc]; try discriminate Hc); destruct Hc.
Qed.

(** ** The thresholds of the shape rule *)

Lemma thresholds_checked :
  forallb (fun n => forallb (same_tests n) (seq 0 (S n))) (seq 0 301) = true.
Proof. vm_compute. reflexivity. Qed.

Lemma float_tests_exact n peak :
  n <= 300 -> peak <= n -> float_tests n peak = exact_tests n peak.
Proof.
  intros Hn Hp. pose proof thresholds_checked as H.
  rewrite forallb_forall in H. specialize (H n).
  rewrite forallb_forall in H.
  assert (Hs : same_tests n peak = true).
  { apply H; apply in_seq; lia. }
  unfold same_tests in Hs.
  destruct (float_tests n peak) as [f1 f2], (exact_tests n peak) as [e1 e2].
  apply andb_prop in Hs. destruct Hs as [H1 H2].
  apply eqb_prop in H1. apply eqb_prop in H2. congruence.
Qed.

Lemma index_le x l : index x l <= List.length l.
Proof.
  induction l as [|y l IH]; simpl; [lia|]. destruct (y =? x); lia.
Qed.

(** On a profile of up to 300 entries the comparisons with [0.3 n] and
    [0.7 n] on doubles decide as exact arithmetic would. *)
Lemma classify_shape_thresholds (d : list nat) :
  List.length d <= 300 ->
  let n := List.length d in
  let peak := index (list_max d) d in
  (classify_shape d = "spiky" <-> 6 < list_max d)
  /\ (classify_shape d = "front-loaded" <-> list_max d <= 6 /\ 10 * peak <= 3 * n)
  /\ (classify_shape d = "back-loaded"
      <-> list_max d <= 6 /\ 3 * n < 10 * peak /\ 7 * n <= 10 * peak).
Proof.
  intros Hn n peak.
  pose proof (float_tests_exact Hn (index_le (list_max d) d)) as Ht.
  fold n in Ht. fold peak in Ht.
  assert (H1 : PrimFloat.leb (to_float peak) (PrimFloat.mul (to_float n) 0.3%float)
               = (10 * N.of_nat peak <=? 3 * N.of_nat n)%N)
    by exact (f_equal fst Ht).
  assert (H2 : PrimFloat.leb (PrimFloat.mul (to_float n) 0.7%float) (to_float peak)
               = (7 * N.of_nat n <=? 10 * N.of_nat peak)%N)
    by exact (f_equal snd Ht).
  clear Ht. unfold classify_shape. cbv zeta. fold n. fold peak.
  rewrite H1, H2.
  destruct (6 <? list_max d) eqn:E6;
    [apply Nat.ltb_lt in E6|apply Nat.ltb_ge in E6].
  { repeat split; intros; try reflexivity; try congruence; try lia; exfalso; lia. }
  destruct (10 * N.of_nat peak <=? 3 * N.of_nat n)%N eqn:E3;
    [apply N.leb_le in E3|apply N.leb_gt in E3].
  { repeat split; intros; try reflexivity; try congruence; try lia; exfalso; lia. }
  destruct (7 * N.of_nat n <=? 10 * N.of_nat peak)%N eqn:E7;
    [apply N.leb_le in E7|apply N.leb_gt in E7].
  { repeat split; intros; try reflexivity; try congruence; try lia; exfalso; lia. }
  match goal with
  | |- context [if ?c then _ else _] => destruct c
  end; repeat split; intros; try reflexivity; try congruence; try lia; exfalso; lia.
Qed.

(** X22.  For a text of three to 300 sentences the comparisons with [0.3 n]
    and [0.7 n] on doubles decide the shape of its profile as exact
    arithmetic would: the shape is "spiky" exactly when a sentence has more
    than six units; else "front-loaded" exactly when [10 peak <= 3 n]; else
    "back-loaded" exactly when [10 peak >= 7 n]; [n] is the number of
    sentences and [peak] the place of the first densest one. *)
Theorem shape_thresholds_exact (text : string) :
  3 <= List.length (split_sentences text) <= 300 ->
  let d := iu_profile text in
  let n := List.length (split_sentences text) in
  let peak := index (list_max d) d in
  let shape := snd (fst (info_density_profile text)) in
  fst (fst (info_density_profile text)) = d
  /\ List.length d = n
  /\ (shape = "spiky" <-> 6 < list_max d)
  /\ (shape = "front-loaded" <-> list_max d <= 6 /\ 10 * peak <= 3 * n)
  /\ (shape = "back-loaded"
      <-> list_max d <= 6 /\ 3 * n < 10 * peak /\ 7 * n <= 10 * peak).
Proof.
  intros [H3 H300] d n peak shape.
  assert (Hl : List.length d = n) by apply length_map.
  split; [apply profile_densities_fst|]. split; [exact Hl|].
  assert (Hs : shape = classify_shape d).
  { subst shape. rewrite profile_unfold. fold n in H3.
    destruct (split_sentences text) as [|s ss] eqn:E; [simpl in n; lia|].
    cbv zeta. cbn [fst snd]. fold d. rewrite Hl.
    replace (n <? 3) with false by (symmetry; apply Nat.ltb_ge; exact H3).
    reflexivity. }
  rewrite Hs. rewrite <- Hl.
  apply classify_shape_thresholds. rewrite Hl. exact H300.
Qed.

Lemma shape_thresholds_exact_witness :
  3 <= List.length (split_sentences (body raman_record)) <= 300
  /\ iu_profile (body raman_record) = [1; 3; 2; 0]
  /\ snd (fst (info_density_profile (body raman_record))) = "front-loaded"
  /\ iu_profile (body dense_record) = [9; 9; 5]
  /\ snd (fst (info_density_profile (body dense_record))) = "spiky"
  /\ (let d := iu_profile (body raman_record) in
      let n := List.length (split_sentences (body raman_record)) in
      let peak := index (list_max d) d in
      let shape := snd (fst (info_density_profile (body raman_record))) in
      fst (fst (info_density_profile (body raman_record))) = d
      /\ List.length d = n
      /\ (shape = "spiky" <-> 6 < list_max d)
      /\ (shape = "front-loaded" <-> list_max d <= 6 /\ 10 * peak <= 3 * n)
      /\ (shape = "back-loaded"
          <-> list_max d <= 6 /\ 3 * n < 10 * peak /\ 7 * n <= 10 * peak))
  /\ (let d := iu_profile (body dense_record) in
      let n := List.length (split_sentences (body dense_record)) in
      let peak := index (list_max d) d in
      let shape := snd (fst (info_density_profile (body dense_record))) in
      fst (fst (info_density_profile (body dense_record))) = d
      /\ List.length d = n
      /\ (shape = "spiky" <-> 6 < list_max d)
      /\ (shape = "front-loaded" <-> list_max d <= 6 /\ 10 * peak <= 3 * n)
      /\ (shape = "back-loaded"
          <-> list_max d <= 6 /\ 3 * n < 10 * peak /\ 7 * n <= 10 * peak)).
Proof.
  assert (E : List.length (split_sentences (body raman_record)) = 4)
    by (vm_compute; reflexivity).
  assert (E' : List.length (split_sentences (body dense_record)) = 3)
    by (vm_compute; reflexivity).
  assert (H : 3 <= List.length (split_sentences (body raman_record)) <= 300)
    by (rewrite E; lia).
  assert (H' : 3 <= List.length (split_sentences (body dense_record)) <= 300)
    by (rewrite E'; lia).
  assert (H1 : iu_profile (body raman_record) = [1; 3; 2; 0])
    by (vm_compute; reflexivity).
  assert (H2 : snd (fst (info_density_profile (body raman_record))) = "front-loaded")
    by (vm_compute; reflexivity).
  assert (H3 : iu_profile (body dense_record) = [9; 9; 5])
    by (vm_compute; reflexivity).
  assert (H4 : snd (fst (info_density_profile (body dense_record))) = "spiky")
    by (vm_compute; reflexivity).
  exact (conj H (conj H1 (conj H2 (conj H3 (conj H4
           (conj (shape_thresholds_exact (body raman_record) H)
                 (shape_thresholds_exact (body dense_record) H'))))))).
Defined.

(** ** Hedges *)

Lemma store_fresh {V} k (v : V) d :
  ~ In k (map fst d) -> store k v d = d ++ [(k, v)].
Proof.
  induction d as [|[k0 v0] d IH]; simpl; intros H; [reflexivity|].
  destruct (String.eqb k k0) eqn:E.
  - apply String.eqb_eq in E. subst. exfalso. apply H. left. reflexivity.
  - rewrite IH; [reflexivity|]. intros Hin. apply H. right. exact Hin.
Qed.

Lemma detect_hedges_entries t_lower lex : forall total results,
  NoDup (map fst results ++ map fst lex) ->
  fold_left
    (fun '(total, results) '(category, patterns) =>
       let matches := category_matches patterns t_lower in
       (total + List.length matches,
        store category (HedgeInfo (List.length matches) (firstn 3 matches)) results))
    lex (total, results)
  = (total + sum (map (fun e => h_count (snd (hedge_entry t_lower e))) lex),
     results ++ map (hedge_entry t_lower) lex).
Proof.
  induction lex as [|[category patterns] lex IH]; intros total results Hnd.
  - simpl. rewrite app_nil_r, Nat.add_0_r. reflexivity.
  - cbn [fold_left]. cbv zeta.
    assert (Hfresh : ~ In category (map fst results)).
    { intros Hin. apply NoDup_remove_2 in Hnd. apply Hnd.
      apply in_or_app. left. exact Hin. }
    rewrite store_fresh by exact Hfresh. rewrite IH.
    + cbn [map sum fold_right]. unfold hedge_entry at 3. cbn [snd fst h_count].
      rewrite <- app_assoc. f_equal. unfold sum. lia.
    + rewrite map_app. cbn [map fst]. rewrite <- app_assoc. exact Hnd.
Qed.

Lemma hedge_categories : map fst HEDGE_LEXICON = HEDGE_CATEGORIES.
Proof. reflexivity. Qed.

Lemma hedge_categories_distinct : NoDup HEDGE_CATEGORIES.
Proof.
  unfold HEDGE_CATEGORIES.
  repeat (constructor; [simpl; intuition discriminate|]). constructor.
Qed.

Lemma detect_hedges_closed text :
  detect_hedges text
  = (sum (map (fun e => h_count (snd e)) (map (hedge_entry (lower text)) HEDGE_LEXICON)),
     map (hedge_entry (lower text)) HEDGE_LEXICON).
Proof.
  unfold detect_hedges. cbv zeta. rewrite detect_hedges_entries.
  - rewrite map_map. reflexivity.
  - cbn [map app]. rewrite hedge_categories. apply hedge_categories_distinct.
Qed.

Lemma detect_hedges_sum text :
  fst (detect_hedges text) = sum (map (fun e => h_count (snd e)) (snd (detect_hedges text))).
Proof. rewrite detect_hedges_closed. reflexivity. Qed.

(** X17.  The result of [detect_hedges] has the six categories of the lexicon, in
    its order, also those without a match; the total is the sum of their
    counts; a category shows its first three matches, fewer when it has
    fewer. *)
Theorem detect_hedges_categories (text : string) :
  let '(total, results) := detect_hedges text in
  map fst results = HEDGE_CATEGORIES
  /\ total = sum (map (fun e => h_count (snd e)) results)
  /\ Forall (fun e => List.length (h_examples (snd e)) = Nat.min 3 (h_count (snd e)))
            results.
Proof.
  rewrite detect_hedges_closed. split; [|split].
  - rewrite map_map. exact hedge_categories.
  - reflexivity.
  - apply Forall_map_each. intros e. unfold hedge_entry. cbv zeta.
    cbn [snd h_examples h_count]. apply length_firstn.
Qed.

Lemma sum_values_store k v (c : Counter) :
  sum (values (store k v c)) + tally k c = sum (values c) + v.
Proof.
  unfold values, tally, sum. induction c as [|[k0 v0] c IH]; simpl; [lia|].
  destruct (String.eqb k k0); simpl; lia.
Qed.

(** [c[k] += n] adds [n] to the sum of the counts. *)
Lemma sum_values_add k n (c : Counter) :
  sum (values (add k n c)) = sum (values c) + n.
Proof.
  unfold add. pose proof (sum_values_store k (tally k c + n) c). lia.
Qed.

Lemma sum_values_add_entries (entries : dict hedge_info) : forall acc : Counter,
  sum (values (fold_left (fun acc' '(cat, info) => add cat (h_count info) acc')
                         entries acc))
  = sum (values acc) + sum (map (fun e => h_count (snd e)) entries).
Proof.
  induction entries as [|[cat info] entries IH]; intros acc; cbn [fold_left].
  - simpl. lia.
  - rewrite IH, sum_values_add. cbn [map snd]. unfold sum at 4.
    cbn [fold_right]. fold (sum (map (fun e => h_count (snd e)) entries)). lia.
Qed.

Lemma tally_add_entries k (entries : dict hedge_info) : forall acc : Counter,
  tally k (fold_left (fun acc' '(cat, info) => add cat (h_count info) acc') entries acc)
  = tally k acc
    + sum (map (fun e => if String.eqb k (fst e) then h_count (snd e) else 0) entries).
Proof.
  induction entries as [|[cat info] entries IH]; intros acc; cbn [fold_left].
  - simpl. lia.
  - rewrite IH, tally_add. cbn [map fst snd]. unfold sum at 2.
    cbn [fold_right]. unfold sum. lia.
Qed.

(** The hedges a text has in one category. *)
Lemma hedges_of_category text k :
  sum (map (fun e => if String.eqb k (fst e) then h_count (snd e) else 0)
           (snd (detect_hedges text)))
  = match lookup k (snd (detect_hedges text)) with
    | Some info => h_count info
    | None => 0
    end.
Proof.
  assert (Hk : NoDup (map fst (snd (detect_hedges text)))).
  { rewrite detect_hedges_closed. cbn [snd]. rewrite map_map.
    change (NoDup (map fst HEDGE_LEXICON)).
    rewrite hedge_categories. apply hedge_categories_distinct. }
  induction (snd (detect_hedges text)) as [|[k0 i0] d IH]; [reflexivity|].
  inversion Hk as [|? ? Hnot Hd]; subst. cbn [map fst snd lookup].
  unfold sum. cbn [fold_right]. fold (sum (map (fun e => if String.eqb k (fst e)
                                                         then h_count (snd e) else 0) d)).
  rewrite (IH Hd). destruct (String.eqb k k0) eqn:E; [|reflexivity].
  apply String.eqb_eq in E. subst k0.
  destruct (lookup k d) as [i|] eqn:El; [|lia].
  exfalso. apply Hnot. clear - El.
  induction d as [|[k1 i1] d IH]; simpl in *; [discriminate|].
  destruct (String.eqb k k1) eqn:E; [apply String.eqb_eq in E; auto|auto].
Qed.

(** X9.  The hedging section of a report: one density per abstract; the total is
    the sum over the abstracts and also the sum of the category totals; a
    category total is the sum of the counts of that category. *)
Theorem hedging_totals (valid : list abstract) :
  let h := hedging valid in
  List.length (density_per_abstract h) = List.length valid
  /\ total_hedges h = sum (map (fun a => fst (detect_hedges (body a))) valid)
  /\ total_hedges h = sum (values (category_totals h))
  /\ forall category,
       tally category (category_totals h)
       = sum (map (fun a => match lookup category (snd (detect_hedges (body a))) with
                            | Some info => h_count info
                            | None => 0
                            end) valid).
Proof.
  unfold hedging. cbv zeta.
  cbn [density_per_abstract total_hedges category_totals].
  split; [apply length_map|]. split; [reflexivity|].
  assert (Hsum : forall acc : Counter,
            sum (values (fold_left
                           (fun acc0 a =>
                              fold_left (fun acc' '(cat, info) => add cat (h_count info) acc')
                                        (snd (detect_hedges (body a))) acc0)
                           valid acc))
            = sum (values acc) + sum (map (fun a => fst (detect_hedges (body a))) valid)).
  { induction valid as [|a valid IH]; intros acc; cbn [fold_left map].
    - simpl. lia.
    - rewrite IH, sum_values_add_entries.
      pose proof (detect_hedges_sum (body a)) as Ht.
      destruct (detect_hedges (body a)) as [total results].
      cbn [fst snd] in Ht |- *. rewrite <- Ht.
      unfold sum at 4. cbn [fold_right]. unfold sum. lia. }
  assert (Htally : forall category (acc : Counter),
            tally category
                  (fold_left
                     (fun acc0 a =>
                        fold_left (fun acc' '(cat, info) => add cat (h_count info) acc')
                                  (snd (detect_hedges (body a))) acc0)
                     valid acc)
            = tally category acc
              + sum (map (fun a => match lookup category (snd (detect_hedges (body a))) with
                                   | Some info => h_count info
                                   | None => 0
                                   end) valid)).
  { clear Hsum. intros category.
    induction valid as [|a valid IH]; intros acc; cbn [fold_left map].
    - simpl. lia.
    - rewrite IH, tally_add_entries, hedges_of_category.
      unfold sum at 2. cbn [fold_right]. unfold sum. lia. }
  split.
  - rewrite Hsum. reflexivity.
  - intros category. rewrite Htally. reflexivity.
Qed.

(** ** Rounded ratios *)

Lemma of_nat_mult a b : (of_nat (a * b) == of_nat a * of_nat b)%Q.
Proof. unfold of_nat. rewrite Nat2Z.inj_mul, inject_Z_mult. reflexivity. Qed.

(** Ratios of naturals compare as their cross products. *)
Lemma ratio_le (a b c d : nat) :
  0 < b -> 0 < d -> a * d <= c * b -> (of_nat a / of_nat b <= of_nat c / of_nat d)%Q.
Proof.
  intros Hb Hd H.
  pose proof (of_nat_pos Hb) as Pb. pose proof (of_nat_pos Hd) as Pd.
  apply Qle_shift_div_r; [exact Pb|].
  assert (E : (of_nat c / of_nat d * of_nat b == of_nat c * of_nat b / of_nat d)%Q).
  { field. intros E. rewrite E in Pd. apply (Qlt_irrefl 0), Pd. }
  rewrite E. apply Qle_shift_div_l; [exact Pd|].
  rewrite <- !of_nat_mult. apply of_nat_le. exact H.
Qed.

(** A rounded ratio of naturals lies between the whole numbers the ratio
    lies between, as floats. *)
Lemma round_ratio_bounds (a b lo hi nd : nat) :
  0 < b -> lo * b <= a -> a <= hi * b ->
  (float_of lo <= round (of_nat a / of_nat b) nd <= float_of hi)%Q.
Proof.
  intros Hb Hlo Hhi.
  assert (E1 : forall x, (of_nat x == of_nat x / of_nat 1)%Q).
  { intros x. unfold of_nat. simpl. field. }
  split.
  - rewrite <- (round_float_of lo nd). apply round_mono.
    rewrite (E1 lo). apply ratio_le; lia.
  - rewrite <- (round_float_of hi nd). apply round_mono.
    rewrite (E1 hi). apply ratio_le; lia.
Qed.

(** ** Hedge density *)

(** X18.  The hedge density of a text falls as the sentence count grows, is
    never negative nor above the number of hedges, which it is over one
    sentence, and takes no sentence for one.  The number of hedges is here
    the float it becomes in the quotient. *)
Theorem hedge_density_in_sentences (text : string) (n1 n2 : nat) :
  n1 <= n2 ->
  (hedge_density text n2 <= hedge_density text n1)%Q
  /\ (0 <= hedge_density text n2)%Q
  /\ (hedge_density text n2 <= float_of (fst (detect_hedges text)))%Q
  /\ hedge_density text 1 = float_of (fst (detect_hedges text))
  /\ hedge_density text 0 = hedge_density text 1.
Proof.
  intros H. unfold hedge_density. cbv zeta.
  set (total := fst (detect_hedges text)). clearbody total.
  split; [|split; [|split; [|split]]].
  - apply round_mono. apply ratio_le; try lia. nia.
  - apply round_nonneg.
    apply Qle_shift_div_l; [apply of_nat_pos; lia|]. rewrite Qmult_0_l.
    change 0%Q with (of_nat 0). apply of_nat_le. lia.
  - destruct (@round_ratio_bounds total (Nat.max n2 1) 0 total 2) as [_ Hu];
      try lia; [nia|exact Hu].
  - rewrite <- (round_float_of total 2). apply round_proper.
    unfold of_nat. simpl. field.
  - reflexivity.
Qed.

Lemma hedge_density_in_sentences_witness :
  20 <= 40
  /\ hedge_density "It may work." 40 = value 0.03
  /\ hedge_density "It may work." 20 = value 0.05
  /\ float_of (fst (detect_hedges "It may work.")) = 1%Q
  /\ (hedge_density "It may work." 40 <= hedge_density "It may work." 20)%Q
  /\ (0 <= hedge_density "It may work." 40)%Q
  /\ (hedge_density "It may work." 40 <= float_of (fst (detect_hedges "It may work.")))%Q
  /\ hedge_density "It may work." 1 = float_of (fst (detect_hedges "It may work."))
  /\ hedge_density "It may work." 0 = hedge_density "It may work." 1.
Proof.
  assert (H : 20 <= 40) by lia.
  assert (H1 : hedge_density "It may work." 40 = value 0.03) by (vm_compute; reflexivity).
  assert (H2 : hedge_density "It may work." 20 = value 0.05) by (vm_compute; reflexivity).
  assert (H3 : float_of (fst (detect_hedges "It may work.")) = 1%Q)
    by (vm_compute; reflexivity).
  exact (conj H (conj H1 (conj H2 (conj H3
           (@hedge_density_in_sentences "It may work." 20 40 H))))).
Defined.

(** ** Sentence statistics *)

Lemma fold_min_spec l : forall x,
  (fold_left Nat.min l x <= x /\ Forall (fun y => fold_left Nat.min l x <= y) l)
  /\ In (fold_left Nat.min l x) (x :: l).
Proof.
  induction l as [|y l IH]; intros x; cbn [fold_left].
  - repeat split; [lia|constructor|left; reflexivity].
  - destruct (IH (Nat.min x y)) as [[H1 H2] H3]. repeat split.
    + lia.
    + constructor; [lia|exact H2].
    + destruct H3 as [H3|H3]; [|right; right; exact H3].
      rewrite <- H3. destruct (Nat.min_dec x y) as [E|E]; rewrite E; simpl; auto.
Qed.

Lemma fold_max_spec l : forall x,
  (x <= fold_left Nat.max l x /\ Forall (fun y => y <= fold_left Nat.max l x) l)
  /\ In (fold_left Nat.max l x) (x :: l).
Proof.
  induction l as [|y l IH]; intros x; cbn [fold_left].
  - repeat split; [lia|constructor|left; reflexivity].
  - destruct (IH (Nat.max x y)) as [[H1 H2] H3]. repeat split.
    + lia.
    + constructor; [lia|exact H2].
    + destruct H3 as [H3|H3]; [|right; right; exact H3].
      rewrite <- H3. destruct (Nat.max_dec x y) as [E|E]; rewrite E; simpl; auto.
Qed.

(** [min(l)] and [max(l)] are elements of [l] that bound it. *)
Lemma minimum_spec l lo :
  minimum l = Ok lo -> In lo l /\ Forall (fun y => lo <= y) l.
Proof.
  unfold minimum. destruct l as [|x l]; [discriminate|].
  intros H. injection H as <-. destruct (fold_min_spec l x) as [[H1 H2] H3].
  split; [exact H3|constructor; assumption].
Qed.

Lemma maximum_spec l hi :
  maximum l = Ok hi -> In hi l /\ Forall (fun y => y <= hi) l.
Proof.
  unfold maximum. destruct l as [|x l]; [discriminate|].
  intros H. injection H as <-. destruct (fold_max_spec l x) as [[H1 H2] H3].
  split; [exact H3|constructor; assumption].
Qed.

Lemma insert_asc_perm x l : Permutation (insert_asc x l) (x :: l).
Proof.
  induction l as [|y l IH]; simpl; [apply Permutation_refl|].
  destruct (y <=? x); [|apply Permutation_refl].
  eapply Permutation_trans; [apply perm_skip, IH|apply perm_swap].
Qed.

(** [sorted(l)] holds the elements of [l]. *)
Lemma sorted_perm l : Permutation (sorted l) l.
Proof.
  unfold sorted. induction l as [|x l IH]; simpl; [constructor|].
  eapply Permutation_trans; [apply insert_asc_perm|apply perm_skip, IH].
Qed.

Lemma item_in {A} (l : list A) i x : item l i = Ok x -> In x l.
Proof.
  unfold item. destruct (nth_error l i) eqn:E; [|discriminate].
  intros H. injection H as <-. eapply nth_error_In. exact E.
Qed.

Lemma sum_bounds l lo hi :
  Forall (fun y => lo <= y) l -> Forall (fun y => y <= hi) l ->
  lo * List.length l <= sum l <= hi * List.length l.
Proof.
  unfold sum. induction l as [|x l IH]; intros Hlo Hhi; simpl; [lia|].
  inversion Hlo; subst. inversion Hhi; subst.
  specialize (IH ltac:(assumption) ltac:(assumption)). nia.
Qed.

(** X7.  The statistics of a corpus with an abstract: they count the abstracts;
    for the words and for the sentences of an abstract the median and the
    rounded mean lie between the minimum and the maximum, which are counts
    of abstracts of the corpus; the deviation is not negative. *)
Theorem statistics_bounds (valid : list abstract) :
  valid <> [] ->
  exists st,
    compute_statistics valid = Ok st
    /\ n_abstracts st = List.length valid
    /\ summarises (map (fun a => List.length (split (body a))) valid)
                  (wc_min (word_count st)) (wc_max (word_count st))
                  (wc_median (word_count st)) (wc_mean (word_count st))
    /\ (0 <= wc_std (word_count st))%Q
    /\ summarises (map count_or_len valid)
                  (sc_min (sentence_count_stats st)) (sc_max (sentence_count_stats st))
                  (sc_median (sentence_count_stats st)) (sc_mean (sentence_count_stats st)).
Proof.
  intros Hne. destruct (compute_statistics_ok Hne) as [st Hst].
  exists st. split; [exact Hst|]. split; [exact (statistics_count _ Hst)|].
  revert Hst. unfold compute_statistics. cbv zeta.
  set (wc := map (fun a => List.length (split (body a))) valid).
  set (sc := map count_or_len valid).
  assert (Hlw : 0 < List.length wc)
    by (subst wc; rewrite length_map; destruct valid; [contradiction|simpl; lia]).
  assert (Hls : 0 < List.length sc)
    by (subst sc; rewrite length_map; destruct valid; [contradiction|simpl; lia]).
  clearbody wc sc. intros H.
  apply bind_ok in H. destruct H as [mean [Hmean H]].
  apply bind_ok in H. destruct H as [median [Hmedian H]].
  apply bind_ok in H. destruct H as [lo [Hlo H]].
  apply bind_ok in H. destruct H as [hi [Hhi H]].
  apply bind_ok in H. destruct H as [squares [_ H]].
  apply bind_ok in H. destruct H as [variance [_ H]].
  apply bind_ok in H. destruct H as [s_mean [Hsmean H]].
  apply bind_ok in H. destruct H as [s_median [Hsmedian H]].
  apply bind_ok in H. destruct H as [s_lo [Hslo H]].
  apply bind_ok in H. destruct H as [s_hi [Hshi H]].
  injection H as <-.
  cbn [word_count sentence_count_stats wc_min wc_max wc_median wc_mean wc_std
       sc_min sc_max sc_median sc_mean].
  rewrite (truediv_pos _ Hlw) in Hmean. injection Hmean as <-.
  rewrite (truediv_pos _ Hls) in Hsmean. injection Hsmean as <-.
  rewrite !round_fl.
  apply minimum_spec in Hlo, Hslo. apply maximum_spec in Hhi, Hshi.
  destruct Hlo as [Ilo Flo], Hhi as [Ihi Fhi], Hslo as [Islo Fslo], Hshi as [Ishi Fshi].
  apply item_in in Hmedian, Hsmedian.
  apply (Permutation_in _ (sorted_perm wc)) in Hmedian.
  apply (Permutation_in _ (sorted_perm sc)) in Hsmedian.
  pose proof (sum_bounds Flo Fhi) as Bw. pose proof (sum_bounds Fslo Fshi) as Bs.
  split; [|split; [apply round_nonneg, fsqrt_nonneg|]].
  - split; [exact Ilo|]. split; [exact Ihi|]. split; [exact Hmedian|].
    split; [|apply round_ratio_bounds; lia].
    rewrite Forall_forall in *. intros x Hx. split; [apply Flo|apply Fhi]; exact Hx.
  - split; [exact Islo|]. split; [exact Ishi|]. split; [exact Hsmedian|].
    split; [|apply round_ratio_bounds; lia].
    rewrite Forall_forall in *. intros x Hx. split; [apply Fslo|apply Fshi]; exact Hx.
Qed.

Lemma statistics_bounds_witness :
  valid_of sample_corpus <> []
  /\ exists st,
       compute_statistics (valid_of sample_corpus) = Ok st
       /\ (n_abstracts st = List.length (valid_of sample_corpus)
           /\ summarises (map (fun a => List.length (split (body a)))
                              (valid_of sample_corpus))
                         (wc_min (word_count st)) (wc_max (word_count st))
                         (wc_median (word_count st)) (wc_mean (word_count st))
           /\ (0 <= wc_std (word_count st))%Q
           /\ summarises (map count_or_len (valid_of sample_corpus))
                         (sc_min (sentence_count_stats st))
                         (sc_max (sentence_count_stats st))
                         (sc_median (sentence_count_stats st))
                         (sc_mean (sentence_count_stats st)))
       /\ map (fun a => List.length (split (body a))) (valid_of sample_corpus)
          = [32; 28; 30; 7]
       /\ map count_or_len (valid_of sample_corpus) = [4; 4; 3; 0]
       /\ st = Statistics 4
                 (WordStats (value 24.2) 30 7 32 (value 10.1))
                 (SentenceStats (value 2.8) 4 0 4)
                 (value 8.8).
Proof.
  assert (H : valid_of sample_corpus <> [])
    by (intros E; vm_compute in E; discriminate E).
  split; [exact H|].
  destruct (statistics_bounds H) as [st [Hst Hrest]].
  exists st. split; [exact Hst|]. split; [exact Hrest|].
  split; [vm_compute; reflexivity|]. split; [vm_compute; reflexivity|].
  assert (E : compute_statistics (valid_of sample_corpus)
              = Ok (Statistics 4
                      (WordStats (value 24.2) 30 7 32 (value 10.1))
                      (SentenceStats (value 2.8) 4 0 4)
                      (value 8.8)))
    by (vm_compute; reflexivity).
  congruence.
Defined.

(** ** The sections of a saved report *)

(** X3.  The verb ranking of a saved report: the twenty most common of the verbs
    extracted from the analysed abstracts, each with its number of
    occurrences, numbered from 1, ties in the order first met. *)
Theorem verb_frequency_ranking (abstracts : list abstract)
  (keywords : option (list string)) :
  existsb has_content abstracts = true ->
  exists r afterwards,
    analyze abstracts keywords = Saved r afterwards
    /\ ranked_verbs (all_verbs_of abstracts) (verb_frequency r).
Proof.
  intros H. destruct (analyze_fields abstracts keywords H)
    as [r [post [Hr [_ [_ [Hv _]]]]]].
  exists r, post. split; [exact Hr|]. rewrite Hv. apply verb_ranking.
Qed.

Lemma verb_frequency_ranking_witness :
  existsb has_content sample_corpus = true
  /\ exists r afterwards,
       analyze sample_corpus None = Saved r afterwards
       /\ ranked_verbs (all_verbs_of sample_corpus) (verb_frequency r)
       /\ all_verbs_of sample_corpus
          = ["demonstrate"; "show"; "demonstrate"; "establish"; "report"; "paves";
             "enable"]
       /\ verb_frequency r
          = [VerbEntry "demonstrate" 2 1; VerbEntry "show" 1 2;
             VerbEntry "establish" 1 3; VerbEntry "report" 1 4;
             VerbEntry "paves" 1 5; VerbEntry "enable" 1 6].
Proof.
  assert (H : existsb has_content sample_corpus = true) by reflexivity.
  split; [exact H|].
  destruct (verb_frequency_ranking sample_corpus None H) as [r [post [Hr Hk]]].
  exists r, post. split; [exact Hr|]. split; [exact Hk|].
  destruct (analyze_fields sample_corpus None H)
    as [r' [post' [Hr' [_ [_ [Hv _]]]]]].
  assert (E : r = r') by congruence. rewrite E, Hv.
  split; vm_compute; reflexivity.
Defined.

(** X4.  A run that extracts no verb at all saves its report and then dies of
    [IndexError] in its closing lines, which print the top verb; with a
    verb extracted it ends without an exception. *)
Theorem no_verb_index_error (abstracts : list abstract)
  (keywords : option (list string)) :
  existsb has_content abstracts = true ->
  exists r afterwards,
    analyze abstracts keywords = Saved r afterwards
    /\ (afterwards = Some IndexError <-> all_verbs_of abstracts = [])
    /\ (afterwards = None <-> all_verbs_of abstracts <> [])
    /\ (verb_frequency r = [] <-> all_verbs_of abstracts = []).
Proof.
  intros H. destruct (analyze_fields abstracts keywords H)
    as [r [post [Hr [_ [_ [Hv [_ [_ [_ [_ [_ [_ [_ [Hp _]]]]]]]]]]]]]].
  exists r, post. split; [exact Hr|].
  pose proof (@most_common_nil 20 (all_verbs_of abstracts) ltac:(lia)) as Hnil.
  rewrite Hv, Hp.
  destruct (most_common 20 (count_all (all_verbs_of abstracts))) as [|e top] eqn:E.
  - assert (Hx : all_verbs_of abstracts = []) by (apply Hnil; reflexivity).
    split; [|split].
    + split; auto.
    + split; [discriminate|]. intros Hne. contradiction.
    + split; auto.
  - assert (Hx : all_verbs_of abstracts <> []).
    { intros Hx. apply Hnil in Hx. discriminate. }
    split; [|split].
    + split; [discriminate|]. intros Hne. contradiction.
    + split; auto.
    + cbn [enumerate_from map]. split; [discriminate|]. intros Hne. contradiction.
Qed.

Lemma no_verb_index_error_witness :
  existsb has_content [bare_record] = true
  /\ exists r afterwards,
       analyze [bare_record] None = Saved r afterwards
       /\ (afterwards = Some IndexError <-> all_verbs_of [bare_record] = [])
       /\ (afterwards = None <-> all_verbs_of [bare_record] <> [])
       /\ (verb_frequency r = [] <-> all_verbs_of [bare_record] = []).
Proof.
  assert (H : existsb has_content [bare_record] = true) by reflexivity.
  exact (conj H (no_verb_index_error [bare_record] None H)).
Defined.

Lemma top_of_top n m (c : Counter) :
  n <= m -> firstn n (most_common m c) = most_common n c.
Proof.
  intros H. unfold most_common. rewrite firstn_firstn.
  replace (Nat.min n m) with n by lia. reflexivity.
Qed.

(** X5.  The n-gram lists of a saved report: the twenty most common bigrams and
    the fifteen most common trigrams of the analysed abstracts, each with
    its number of occurrences (the thirty and twenty first computed are cut
    down). *)
Theorem ngram_rankings (abstracts : list abstract) (keywords : option (list string)) :
  existsb has_content abstracts = true ->
  exists r afterwards,
    analyze abstracts keywords = Saved r afterwards
    /\ ranked 20 (all_ngrams_of 2 abstracts) (bigrams r)
    /\ ranked 15 (all_ngrams_of 3 abstracts) (trigrams r).
Proof.
  intros H. destruct (analyze_fields abstracts keywords H)
    as [r [post [Hr [_ [_ [_ [_ [_ [_ [_ [_ [_ [_ [_ [Hb [Ht _]]]]]]]]]]]]]]]].
  exists r, post. split; [exact Hr|].
  rewrite Hb, Ht, !top_of_top by lia.
  split; apply most_common_ranked.
Qed.

Lemma ngram_rankings_witness :
  existsb has_content sample_corpus = true
  /\ exists r afterwards,
       analyze sample_corpus None = Saved r afterwards
       /\ (ranked 20 (all_ngrams_of 2 sample_corpus) (bigrams r)
           /\ ranked 15 (all_ngrams_of 3 sample_corpus) (trigrams r))
       /\ List.length (first_seen (all_ngrams_of 2 sample_corpus)) = 44
       /\ List.length (first_seen (all_ngrams_of 3 sample_corpus)) = 32
       /\ bigrams r
          = [("fast raman", 2); ("raman imaging", 2); ("clinical samples", 2);
             ("despite progress", 1); ("progress fast", 1); ("imaging slow", 1);
             ("demonstrate label-free", 1); ("label-free srs", 1); ("srs probe", 1);
             ("fold gain", 1); ("gain show", 1); ("show fast", 1);
             ("imaging clinical", 1); ("opens pathway", 1); ("pathway towards", 1);
             ("towards clinical", 1); ("clinical use", 1); ("optical combs", 1);
             ("combs offer", 1); ("offer precise", 1)]
       /\ trigrams r
          = [("fast raman imaging", 2); ("despite progress fast", 1);
             ("progress fast raman", 1); ("raman imaging slow", 1);
             ("demonstrate label-free srs", 1); ("label-free srs probe", 1);
             ("fold gain show", 1); ("gain show fast", 1); ("show fast raman", 1);
             ("raman imaging clinical", 1); ("imaging clinical samples", 1);
             ("opens pathway towards", 1); ("pathway towards clinical", 1);
             ("towards clinical use", 1); ("optical combs offer", 1)].
Proof.
  assert (H : existsb has_content sample_corpus = true) by reflexivity.
  split; [exact H|].
  destruct (ngram_rankings sample_corpus None H) as [r [post [Hr Hk]]].
  exists r, post. split; [exact Hr|]. split; [exact Hk|].
  destruct (analyze_fields sample_corpus None H)
    as [r' [post' [Hr' [_ [_ [_ [_ [_ [_ [_ [_ [_ [_ [_ [Hb [Ht _]]]]]]]]]]]]]]]].
  assert (E : r = r') by congruence. rewrite E, Hb, Ht.
  split; [vm_compute; reflexivity|]. split; [vm_compute; reflexivity|].
  split; vm_compute; reflexivity.
Defined.

Lemma count_all_fold xs : forall c ys,
  fold_left (fun c x => add x 1 c) ys (fold_left (fun c x => add x 1 c) xs c)
  = fold_left (fun c x => add x 1 c) (xs ++ ys) c.
Proof. intros c ys. rewrite fold_left_app. reflexivity. Qed.

Lemma fold_add_map {A} (f : A -> string) ms : forall c : Counter,
  fold_left (fun acc v => add (f v) 1 acc) ms c
  = fold_left (fun c x => add x 1 c) (map f ms) c.
Proof.
  induction ms as [|m ms IH]; intros c; [reflexivity|].
  cbn [map fold_left]. apply IH.
Qed.

Lemma here_we_closed valid : forall n (c : Counter),
  fold_left
    (fun '(here_we_count, here_we_verbs) a =>
       match Re.findall (Re.re "[Hh]ere\s+we\s+(\w+)") (body a) with
       | [] => (here_we_count, here_we_verbs)
       | matches =>
           (here_we_count + 1,
            fold_left (fun acc v => add (normalize (lower v)) 1 acc) matches here_we_verbs)
       end)
    valid (n, c)
  = (n + List.length (filter has_pivot valid),
     fold_left (fun c x => add x 1 c) (flat_map pivot_verbs valid) c).
Proof.
  induction valid as [|a valid IH]; intros n c.
  - simpl. rewrite Nat.add_0_r. reflexivity.
  - cbn [fold_left flat_map filter]. unfold has_pivot at 1, pivot_verbs at 1 2.
    set (p := Re.re "[Hh]ere\s+we\s+(\w+)") in *. clearbody p.
    rewrite fold_left_app.
    destruct (Re.findall p (body a)) as [|m ms] eqn:E.
    + cbn [map fold_left]. rewrite IH. reflexivity.
    + rewrite IH. cbn [map List.length fold_left].
      rewrite <- (fold_add_map (fun v => normalize (lower v)) ms). f_equal. lia.
Qed.

Lemma float_of_0 : float_of 0 = 0%Q.
Proof. vm_compute. reflexivity. Qed.

Lemma float_of_100 : float_of 100 = 100%Q.
Proof. vm_compute. reflexivity. Qed.

Lemma round_percentage (k n : nat) :
  k <= n -> 0 < n -> percentage_of k n (round (of_nat (100 * k) / of_nat n) 1).
Proof.
  intros Hk Hn. split; [exact Hk|]. split; [|split].
  - destruct (@round_ratio_bounds (100 * k) n 0 100 1) as [L U]; try lia.
    rewrite float_of_0 in L. rewrite float_of_100 in U. split; assumption.
  - intros ->.
    destruct (@round_ratio_bounds (100 * 0) n 0 0 1) as [L U]; try lia.
    rewrite float_of_0 in L, U. apply Qle_antisym; [exact U|exact L].
  - intros -> _.
    destruct (@round_ratio_bounds (100 * n) n 100 100 1) as [L U]; try lia.
    rewrite float_of_100 in L, U. apply Qle_antisym; [exact U|exact L].
Qed.

Lemma filter_length_all {A} (p : A -> bool) l :
  List.length (filter p l) <= List.length l.
Proof. apply filter_length_le. Qed.

(** X6.  The "Here we" section of a saved report: the number of analysed
    abstracts with a word after "Here we", as a percentage of the analysed
    abstracts, and the ten most common of these words. *)
Theorem here_we_pivot_section (abstracts : list abstract)
  (keywords : option (list string)) :
  existsb has_content abstracts = true ->
  exists r afterwards,
    analyze abstracts keywords = Saved r afterwards
    /\ abstracts_with_here_we (here_we_pivot r)
       = List.length (filter has_pivot (valid_of abstracts))
    /\ percentage_of (abstracts_with_here_we (here_we_pivot r)) (n_analyzed r)
                     (pivot_percentage (here_we_pivot r))
    /\ ranked 10 (flat_map pivot_verbs (valid_of abstracts))
              (verb_after_here_we (here_we_pivot r)).
Proof.
  intros H. destruct (analyze_fields abstracts keywords H)
    as [r [post [Hr [Hn [_ [_ [Hp _]]]]]]].
  exists r, post. split; [exact Hr|].
  assert (Hv : 0 < List.length (valid_of abstracts)).
  { apply valid_nonempty in H. destruct (valid_of abstracts); [contradiction|simpl; lia]. }
  rewrite Hp, Hn. cbn [abstracts_with_here_we pivot_percentage verb_after_here_we].
  unfold here_we. rewrite here_we_closed. cbn [fst snd]. rewrite Nat.add_0_l.
  split; [reflexivity|]. split.
  - apply round_percentage; [apply filter_length_all|exact Hv].
  - apply most_common_ranked.
Qed.

Lemma here_we_pivot_section_witness :
  existsb has_content sample_corpus = true
  /\ exists r afterwards,
       analyze sample_corpus None = Saved r afterwards
       /\ (abstracts_with_here_we (here_we_pivot r)
           = List.length (filter has_pivot (valid_of sample_corpus))
           /\ percentage_of (abstracts_with_here_we (here_we_pivot r)) (n_analyzed r)
                            (pivot_percentage (here_we_pivot r))
           /\ ranked 10 (flat_map pivot_verbs (valid_of sample_corpus))
                     (verb_after_here_we (here_we_pivot r)))
       /\ n_analyzed r = 4
       /\ flat_map pivot_verbs (valid_of sample_corpus)
          = ["demonstrate"; "demonstrate"; "report"]
       /\ here_we_pivot r
          = PivotReport 3 75 [("demonstrate", 2); ("report", 1)].
Proof.
  assert (H : existsb has_content sample_corpus = true) by reflexivity.
  split; [exact H|].
  destruct (here_we_pivot_section sample_corpus None H) as [r [post [Hr Hk]]].
  exists r, post. split; [exact Hr|]. split; [exact Hk|].
  destruct (analyze_fields sample_corpus None H)
    as [r' [post' [Hr' [Hn [_ [_ [Hp _]]]]]]].
  assert (E : r = r') by congruence. rewrite E, Hn, Hp.
  split; [vm_compute; reflexivity|]. split; vm_compute; reflexivity.
Defined.

(** *** Domain shift *)

(** X11.  The domain-shift section of a saved report: the number of analysed
    abstracts with a marker, as a percentage of the analysed abstracts, and
    the first five of them with their markers. *)
Theorem domain_shift_section (abstracts : list abstract)
  (keywords : option (list string)) :
  existsb has_content abstracts = true ->
  exists r afterwards,
    analyze abstracts keywords = Saved r afterwards
    /\ abstracts_with_markers (discourse_domain_shift r)
       = List.length (filter has_marker (valid_of abstracts))
    /\ percentage_of (abstracts_with_markers (discourse_domain_shift r)) (n_analyzed r)
                     (shift_percentage (discourse_domain_shift r))
    /\ shift_examples (discourse_domain_shift r)
       = map (fun a => (doi a, map mk_match (detect_domain_shifts (body a))))
             (firstn 5 (filter has_marker (valid_of abstracts))).
Proof.
  intros H. destruct (analyze_fields abstracts keywords H)
    as [r [post [Hr [Hn [_ [_ [_ [_ [_ [_ [_ [_ [Hd _]]]]]]]]]]]]].
  exists r, post. split; [exact Hr|].
  assert (Hv : 0 < List.length (valid_of abstracts)).
  { apply valid_nonempty in H. destruct (valid_of abstracts); [contradiction|simpl; lia]. }
  rewrite Hd, Hn. unfold domain_shift. cbv zeta.
  cbn [abstracts_with_markers shift_percentage shift_examples].
  assert (Hm : filter (fun '(_, markers) => negb (List.length markers =? 0))
                      (map (fun a => (doi a, map mk_match (detect_domain_shifts (body a))))
                           (valid_of abstracts))
               = map (fun a => (doi a, map mk_match (detect_domain_shifts (body a))))
                     (filter has_marker (valid_of abstracts))).
  { rewrite filter_map_swap. f_equal. apply filter_ext. intros a.
    unfold has_marker. rewrite length_map. reflexivity. }
  rewrite Hm, length_map, firstn_map.
  replace (Nat.max (List.length (valid_of abstracts)) 1)
    with (List.length (valid_of abstracts)) by lia.
  split; [reflexivity|]. split; [|reflexivity].
  apply round_percentage; [apply filter_length_all|exact Hv].
Qed.

Lemma domain_shift_section_witness :
  existsb has_content sample_corpus = true
  /\ exists r afterwards,
       analyze sample_corpus None = Saved r afterwards
       /\ (abstracts_with_markers (discourse_domain_shift r)
           = List.length (filter has_marker (valid_of sample_corpus))
           /\ percentage_of (abstracts_with_markers (discourse_domain_shift r))
                            (n_analyzed r)
                            (shift_percentage (discourse_domain_shift r))
           /\ shift_examples (discourse_domain_shift r)
              = map (fun a => (doi a, map mk_match (detect_domain_shifts (body a))))
                    (firstn 5 (filter has_marker (valid_of sample_corpus))))
       /\ n_analyzed r = 4
       /\ discourse_domain_shift r
          = ShiftReport 2 50
              [("10.1000/raman", ["in clinical samples"; "towards clinical"]);
               ("10.1000/comb", ["in clinical samples"; "We also show"])].
Proof.
  assert (H : existsb has_content sample_corpus = true) by reflexivity.
  split; [exact H|].
  destruct (domain_shift_section sample_corpus None H) as [r [post [Hr Hk]]].
  exists r, post. split; [exact Hr|]. split; [exact Hk|].
  destruct (analyze_fields sample_corpus None H)
    as [r' [post' [Hr' [Hn [_ [_ [_ [_ [_ [_ [_ [_ [Hd _]]]]]]]]]]]]].
  assert (E : r = r') by congruence. rewrite E, Hn, Hd.
  split; vm_compute; reflexivity.
Defined.

(** *** Opening and closing patterns *)

Lemma sum_values_fold xs : forall c : Counter,
  sum (values (fold_left (fun c x => add x 1 c) xs c)) = sum (values c) + List.length xs.
Proof.
  induction xs as [|x xs IH]; intros c; cbn [fold_left List.length]; [lia|].
  rewrite IH, sum_values_add. lia.
Qed.

(** The counts of [Counter(xs)] add up to [len(xs)]. *)
Lemma sum_values_count_all xs : sum (values (count_all xs)) = List.length xs.
Proof. unfold count_all. rewrite sum_values_fold. reflexivity. Qed.

Lemma lookup_none {V} k (d : dict V) : lookup k d = None <-> ~ In k (map fst d).
Proof.
  induction d as [|[k0 v0] d IH]; simpl; [tauto|].
  destruct (String.eqb k k0) eqn:E.
  - apply String.eqb_eq in E. subst. split; [discriminate|]. intros H. exfalso. auto.
  - apply String.eqb_neq in E. rewrite IH. split; intros H; [intros [H1|H1]; auto|auto].
Qed.

Lemma mem_false x xs : mem x xs = false <-> ~ In x xs.
Proof.
  rewrite <- mem_in. destruct (mem x xs); split; intros H; try reflexivity;
    try discriminate; try (intros H'; discriminate). exfalso. apply H. reflexivity.
Qed.

Lemma examples_of_spec labelled : forall done examples,
  map fst examples = first_seen (map fst done) ->
  Forall (fun e => exists before text rest,
                     done = before ++ (fst e, text) :: rest
                     /\ ~ In (fst e) (map fst before)
                     /\ snd e = take 100 text) examples ->
  map fst (examples_of labelled examples) = first_seen (map fst (done ++ labelled))
  /\ Forall (fun e => exists before text rest,
                        done ++ labelled = before ++ (fst e, text) :: rest
                        /\ ~ In (fst e) (map fst before)
                        /\ snd e = take 100 text)
            (examples_of labelled examples).
Proof.
  unfold examples_of.
  induction labelled as [|[label text] labelled IH]; intros done examples Hk Hf.
  - rewrite app_nil_r. split; assumption.
  - cbn [fold_left].
    replace (done ++ (label, text) :: labelled)
      with ((done ++ [(label, text)]) ++ labelled) by (rewrite <- app_assoc; reflexivity).
    assert (Hold : Forall (fun e => exists before text0 rest,
                             done ++ [(label, text)] = before ++ (fst e, text0) :: rest
                             /\ ~ In (fst e) (map fst before)
                             /\ snd e = take 100 text0) examples).
    { eapply Forall_impl; [|exact Hf]. intros e [before [t [rest [E [Hn Hs]]]]].
      exists before, t, (rest ++ [(label, text)]). rewrite E, <- app_assoc.
      split; [reflexivity|]. split; assumption. }
    assert (Hseen : first_seen (map fst (done ++ [(label, text)]))
                    = set_add label (first_seen (map fst done))).
    { unfold first_seen, add_all. rewrite map_app, fold_left_app. reflexivity. }
    destruct (lookup label examples) as [x|] eqn:El.
    + apply IH; [|exact Hold]. rewrite Hseen, <- Hk. unfold set_add.
      assert (Hm : mem label (map fst examples) = true).
      { destruct (mem label (map fst examples)) eqn:Em; [reflexivity|].
        apply mem_false in Em. apply lookup_none in Em. congruence. }
      rewrite Hm. reflexivity.
    + pose proof El as Hout. apply lookup_none in Hout.
      apply IH.
      * rewrite Hseen, <- Hk, keys_store_new. unfold set_add.
        destruct (mem label (map fst examples)); reflexivity.
      * rewrite store_fresh by exact Hout. apply Forall_app. split; [exact Hold|].
        repeat constructor. exists done, text, []. cbn [fst snd].
        split; [reflexivity|]. split; [|reflexivity].
        rewrite Hk in Hout. intros Hin. apply Hout. apply in_first_seen_iff. exact Hin.
Qed.

Lemma dominant_spec xs :
  let d := match most_common 1 (count_all xs) with x :: _ => x | [] => ("unknown", 0) end in
  (forall label, count_occ string_dec xs label <= snd d)
  /\ (xs = [] -> d = ("unknown", 0))
  /\ (xs <> [] -> snd d = count_occ string_dec xs (fst d) /\ 1 <= snd d).
Proof.
  cbv zeta. pose proof (most_common_ranked 1 xs) as R.
  pose proof (@most_common_nil 1 xs ltac:(lia)) as Hnil.
  destruct R as [Hlen [_ [Hcount [_ [_ [Hout _]]]]]].
  destruct (most_common 1 (count_all xs)) as [|d top].
  - assert (Hx : xs = []) by (apply Hnil; reflexivity). subst xs.
    split; [intros label; simpl; lia|]. split; [reflexivity|]. intros Hne. contradiction.
  - assert (Hx : xs <> []) by (intros Hx; apply Hnil in Hx; discriminate).
    inversion Hcount as [|? ? [Hd1 Hd2] _]; subst.
    split; [|split; [intros Hx'; contradiction|intros _; split; assumption]].
    intros label.
    destruct (in_dec string_dec label xs) as [Hin|Hnot].
    + destruct (string_dec label (fst d)) as [->|Hne]; [lia|].
      destruct (Hout label Hin) as [_ Hf].
      * cbn [List.length] in Hlen. destruct top; [|simpl in Hlen; lia].
        simpl. intros [E|[]]. apply Hne. symmetry. exact E.
      * inversion Hf; subst. assumption.
    + apply (count_occ_not_In string_dec) in Hnot. lia.
Qed.

Lemma pattern_summary_spec labelled :
  summarises_patterns labelled
    (pattern_summary (count_all (map fst labelled)) (examples_of labelled [])).
Proof.
  unfold summarises_patterns, pattern_summary.
  cbn [distribution pr_total dominant pr_examples].
  destruct (dominant_spec (map fst labelled)) as [Hmax [Hnone Hsome]].
  destruct (@examples_of_spec labelled [] []) as [Hk Hf]; [reflexivity|constructor|].
  cbn [app] in Hk, Hf.
  split; [reflexivity|].
  split; [rewrite sum_values_count_all; apply length_map|].
  split; [exact Hmax|].
  split; [|split; assumption].
  destruct labelled as [|e labelled].
  - apply Hnone. reflexivity.
  - apply Hsome. discriminate.
Qed.

Lemma classify_patterns_closed valid : forall opening closing ex_open ex_close,
  fold_left
    (fun '(opening, closing, ex_open, ex_close) a =>
       match get_sentences a with
       | [] => (opening, closing, ex_open, ex_close)
       | s0 :: _ as ss =>
           let first := s_text s0 in
           let last := s_text (List.last ss s0) in
           let op := classify_opening first in
           let cl := classify_closing last in
           (add op 1 opening, add cl 1 closing,
            match lookup op ex_open with
            | None => store op (take 100 first) ex_open
            | Some _ => ex_open
            end,
            match lookup cl ex_close with
            | None => store cl (take 100 last) ex_close
            | Some _ => ex_close
            end)
       end)
    valid (opening, closing, ex_open, ex_close)
  = (fold_left (fun c x => add x 1 c) (map fst (openings valid)) opening,
     fold_left (fun c x => add x 1 c) (map fst (closings valid)) closing,
     examples_of (openings valid) ex_open,
     examples_of (closings valid) ex_close).
Proof.
  induction valid as [|a valid IH]; intros opening closing ex_open ex_close;
    [reflexivity|].
  cbn [fold_left].
  assert (Eo : openings (a :: valid)
               = if has_sentences a
                 then (classify_opening (first_text a), first_text a) :: openings valid
                 else openings valid).
  { unfold openings. cbn [filter]. destruct (has_sentences a); reflexivity. }
  assert (Ec : closings (a :: valid)
               = if has_sentences a
                 then (classify_closing (last_text a), last_text a) :: closings valid
                 else closings valid).
  { unfold closings. cbn [filter]. destruct (has_sentences a); reflexivity. }
  rewrite Eo, Ec. clear Eo Ec. unfold has_sentences, first_text, last_text.
  destruct (get_sentences a) as [|s0 rest].
  - apply IH.
  - cbv zeta. rewrite IH. reflexivity.
Qed.

Lemma classify_opening_label s : In (classify_opening s) OPENINGS.
Proof.
  unfold classify_opening, OPENINGS. cbv zeta.
  repeat match goal with
         | |- context [if ?c then _ else _] => destruct c
         end; simpl; tauto.
Qed.

Lemma classify_closing_label s : In (classify_closing s) CLOSINGS.
Proof.
  unfold classify_closing, CLOSINGS. cbv zeta.
  repeat match goal with
         | |- context [if ?c then _ else _] => destruct c
         end; simpl; tauto.
Qed.

(** X8.  The opening and closing sections of a saved report summarise the labels
    of the first and of the last sentence of the analysed abstracts that
    come with sentences; the labels are from the four openings and the
    seven closings. *)
Theorem pattern_sections (abstracts : list abstract) (keywords : option (list string)) :
  existsb has_content abstracts = true ->
  exists r afterwards,
    analyze abstracts keywords = Saved r afterwards
    /\ summarises_patterns (openings (valid_of abstracts)) (opening_patterns r)
    /\ summarises_patterns (closings (valid_of abstracts)) (closing_patterns r)
    /\ Forall (fun e => In (fst e) OPENINGS) (openings (valid_of abstracts))
    /\ Forall (fun e => In (fst e) CLOSINGS) (closings (valid_of abstracts)).
Proof.
  intros H. destruct (analyze_fields abstracts keywords H)
    as [r [post [Hr [_ [_ [_ [_ [_ [Ho [Hc _]]]]]]]]]].
  exists r, post. split; [exact Hr|].
  rewrite Ho, Hc. unfold classify_patterns. rewrite classify_patterns_closed.
  cbn [fst snd]. fold (count_all (map fst (openings (valid_of abstracts)))).
  fold (count_all (map fst (closings (valid_of abstracts)))).
  split; [apply pattern_summary_spec|]. split; [apply pattern_summary_spec|].
  split; apply Forall_map_each; intros a; cbn [fst];
    [apply classify_opening_label|apply classify_closing_label].
Qed.

Lemma pattern_sections_witness :
  existsb has_content sample_corpus = true
  /\ exists r afterwards,
       analyze sample_corpus None = Saved r afterwards
       /\ (summarises_patterns (openings (valid_of sample_corpus)) (opening_patterns r)
           /\ summarises_patterns (closings (valid_of sample_corpus))
                                  (closing_patterns r)
           /\ Forall (fun e => In (fst e) OPENINGS) (openings (valid_of sample_corpus))
           /\ Forall (fun e => In (fst e) CLOSINGS) (closings (valid_of sample_corpus)))
       /\ map fst (openings (valid_of sample_corpus))
          = ["problem-first"; "function-first"; "problem-first"]
       /\ map fst (closings (valid_of sample_corpus))
          = ["pathway"; "paradigm"; "pathway"]
       /\ opening_patterns r
          = PatternReport
              [("problem-first", 2); ("function-first", 1)] 3 ("problem-first", 2)
              [("problem-first", "Despite progress, fast Raman imaging is slow.");
               ("function-first", "Optical combs offer precise rulers.")]
       /\ closing_patterns r
          = PatternReport
              [("pathway", 2); ("paradigm", 1)] 3 ("pathway", 2)
              [("pathway", "This opens a pathway towards clinical use.");
               ("paradigm", "The results establish a new platform for sensing.")].
Proof.
  assert (H : existsb has_content sample_corpus = true) by reflexivity.
  split; [exact H|].
  destruct (pattern_sections sample_corpus None H) as [r [post [Hr Hk]]].
  exists r, post. split; [exact Hr|]. split; [exact Hk|].
  destruct (analyze_fields sample_corpus None H)
    as [r' [post' [Hr' [_ [_ [_ [_ [_ [Ho [Hc _]]]]]]]]]].
  assert (E : r = r') by congruence. rewrite E, Ho, Hc.
  split; [vm_compute; reflexivity|]. split; [vm_compute; reflexivity|].
  split; vm_compute; reflexivity.
Defined.

(** *** Information density *)

Lemma list_max_bounds l : Forall (fun x => x <= list_max l) l.
Proof.
  unfold list_max. induction l as [|x l IH]; constructor; cbn [fold_right]; [lia|].
  eapply Forall_impl; [|exact IH]. intros y Hy. simpl in Hy. lia.
Qed.

Lemma list_max_in l : l <> [] -> In (list_max l) l.
Proof.
  unfold list_max. induction l as [|x l IH]; intros H; [contradiction|].
  cbn [fold_right]. destruct l as [|y l].
  - left. simpl. lia.
  - destruct (Nat.max_dec x (fold_right Nat.max 0 (y :: l))) as [E|E]; rewrite E.
    + left. reflexivity.
    + right. apply IH. discriminate.
Qed.

Lemma shapes_counted valid :
  fold_left (fun acc '(_, (_, shape, _)) => add shape 1 acc)
            (map (fun a => (doi a, info_density_profile (body a))) valid) []
  = count_all (map shape_of valid).
Proof.
  unfold count_all. generalize (@nil (string * nat)).
  induction valid as [|a valid IH]; intros c; [reflexivity|].
  cbn [map fold_left]. rewrite IH. f_equal. unfold shape_of.
  destruct (info_density_profile (body a)) as [[d shape] details]. reflexivity.
Qed.

Lemma shape_of_label a : In (shape_of a) SHAPES.
Proof.
  unfold shape_of. rewrite profile_unfold.
  destruct (split_sentences (body a)); [simpl; tauto|].
  cbv zeta. cbn [fst snd].
  destruct (_ <? 3); [simpl; tauto|].
  pose proof (classify_shape_label (iu_profile (body a))) as H.
  unfold SHAPES. simpl in H |- *. tauto.
Qed.

(** X10.  The density section of a saved report: the shapes of the analysed
    abstracts counted, one each; the largest density of a sentence of the
    corpus; the mean density of a sentence to one decimal, between 0 and
    the largest; the target peak [max(5, int(mean + 1.5))]; and the first
    three abstracts as examples. *)
Theorem info_density_section (abstracts : list abstract)
  (keywords : option (list string)) :
  existsb has_content abstracts = true ->
  exists r afterwards,
    analyze abstracts keywords = Saved r afterwards
    /\ shape_distribution (discourse_info_density r)
       = count_all (map shape_of (valid_of abstracts))
    /\ sum (values (shape_distribution (discourse_info_density r))) = n_analyzed r
    /\ Forall (fun e => In (fst e) SHAPES) (shape_distribution (discourse_info_density r))
    /\ Forall (fun x => x <= max_iu_in_corpus (discourse_info_density r))
              (all_densities_of (valid_of abstracts))
    /\ (all_densities_of (valid_of abstracts) = []
        \/ In (max_iu_in_corpus (discourse_info_density r))
              (all_densities_of (valid_of abstracts)))
    /\ mean_iu_per_sentence (discourse_info_density r)
       = round (of_nat (sum (all_densities_of (valid_of abstracts)))
                / of_nat (Nat.max (List.length (all_densities_of (valid_of abstracts))) 1))
               1
    /\ (0 <= mean_iu_per_sentence (discourse_info_density r)
        <= float_of (max_iu_in_corpus (discourse_info_density r)))%Q
    /\ target_peak (discourse_info_density r)
       = Z.max 5 (int (fl (mean_iu_per_sentence (discourse_info_density r) + (3 # 2))))
    /\ (5 <= target_peak (discourse_info_density r))%Z
    /\ density_examples (discourse_info_density r)
       = map (fun a => DensityExample (doi a) (shape_of a) (iu_profile (body a)))
             (firstn 3 (valid_of abstracts)).
Proof.
  intros H. destruct (analyze_fields abstracts keywords H)
    as [r [post [Hr [Hn [_ [_ [_ [_ [_ [_ [_ [Hd _]]]]]]]]]]]].
  exists r, post. split; [exact Hr|].
  rewrite Hd, Hn. unfold information_density. cbv zeta.
  cbn [shape_distribution max_iu_in_corpus mean_iu_per_sentence target_peak
       density_examples].
  rewrite shapes_counted, all_densities_profiles.
  fold (all_densities_of (valid_of abstracts)).
  set (all := all_densities_of (valid_of abstracts)).
  split; [reflexivity|].
  split; [rewrite sum_values_count_all; apply length_map|].
  split.
  { apply Forall_forall. intros [label k] He. cbn [fst].
    apply (in_map fst) in He. cbn [fst] in He. rewrite keys_count_all in He.
    apply in_first_seen in He. apply in_map_iff in He.
    destruct He as [a [<- _]]. apply shape_of_label. }
  split; [apply list_max_bounds|].
  split.
  { destruct all as [|x l] eqn:E; [left; reflexivity|].
    right. apply list_max_in. discriminate. }
  split; [reflexivity|].
  split.
  { pose proof (list_max_bounds all) as Hb.
    assert (H0 : Forall (fun y => 0 <= y) all)
      by (apply Forall_forall; intros; lia).
    pose proof (sum_bounds H0 Hb) as Hs.
    destruct (@round_ratio_bounds (sum all) (Nat.max (List.length all) 1) 0
                (list_max all) 1) as [L U]; [lia|lia|nia|].
    rewrite float_of_0 in L. split; assumption. }
  split; [reflexivity|].
  split; [apply Z.le_max_l|].
  rewrite firstn_map, map_map. apply map_ext. intros a. unfold shape_of.
  rewrite <- (profile_densities_fst (body a)).
  destruct (info_density_profile (body a)) as [[d shape] details]. reflexivity.
Qed.

Lemma info_density_section_witness :
  existsb has_content dense_corpus = true
  /\ exists r afterwards,
       analyze dense_corpus None = Saved r afterwards
       /\ (shape_distribution (discourse_info_density r)
           = count_all (map shape_of (valid_of dense_corpus))
           /\ sum (values (shape_distribution (discourse_info_density r))) = n_analyzed r
           /\ Forall (fun e => In (fst e) SHAPES)
                     (shape_distribution (discourse_info_density r))
           /\ Forall (fun x => x <= max_iu_in_corpus (discourse_info_density r))
                     (all_densities_of (valid_of dense_corpus))
           /\ (all_densities_of (valid_of dense_corpus) = []
               \/ In (max_iu_in_corpus (discourse_info_density r))
                     (all_densities_of (valid_of dense_corpus)))
           /\ mean_iu_per_sentence (discourse_info_density r)
              = round (of_nat (sum (all_densities_of (valid_of dense_corpus)))
                       / of_nat (Nat.max (List.length
                                            (all_densities_of (valid_of dense_corpus))) 1))
                      1
           /\ (0 <= mean_iu_per_sentence (discourse_info_density r)
               <= float_of (max_iu_in_corpus (discourse_info_density r)))%Q
           /\ target_peak (discourse_info_density r)
              = Z.max 5 (int (fl (mean_iu_per_sentence (discourse_info_density r)
                                  + (3 # 2))))
           /\ (5 <= target_peak (discourse_info_density r))%Z
           /\ density_examples (discourse_info_density r)
              = map (fun a => DensityExample (doi a) (shape_of a) (iu_profile (body a)))
                    (firstn 3 (valid_of dense_corpus)))
       /\ discourse_info_density r
          = DensityReport
              (value 4.6) 9
              [("spiky", 1); ("short", 1)]
              [DensityExample "10.1000/dense" "spiky" [9; 9; 5];
               DensityExample "10.1000/example" "short" [0; 0]]
              6.
Proof.
  assert (H : existsb has_content dense_corpus = true) by reflexivity.
  split; [exact H|].
  destruct (info_density_section dense_corpus None H) as [r [post [Hr Hrest]]].
  exists r, post. split; [exact Hr|]. split; [exact Hrest|].
  destruct (analyze_fields dense_corpus None H)
    as [r' [post' [Hr' [_ [_ [_ [_ [_ [_ [_ [_ [Hd _]]]]]]]]]]]].
  assert (E : r = r') by congruence. rewrite E, Hd.
  vm_compute. reflexivity.
Defined.

(** ** Keywords of the semantic core *)

Lemma insert_desc_map {A B} (f : A -> B) (key : B -> nat) x l :
  insert_desc key (f x) (map f l) = map f (insert_desc (fun a => key (f a)) x l).
Proof.
  induction l as [|y l IH]; [reflexivity|]. cbn [map insert_desc].
  destruct (key (f x) <? key (f y)); [|reflexivity].
  cbn [map]. rewrite IH. reflexivity.
Qed.

Lemma sort_desc_map {A B} (f : A -> B) (key : B -> nat) l :
  sort_desc key (map f l) = map f (sort_desc (fun a => key (f a)) l).
Proof.
  unfold sort_desc. induction l as [|x l IH]; [reflexivity|].
  cbn [map fold_right]. rewrite IH. apply insert_desc_map.
Qed.

Lemma sort_desc_ext {A} (key key' : A -> nat) l :
  (forall x, key x = key' x) -> sort_desc key l = sort_desc key' l.
Proof.
  intros E. unfold sort_desc. induction l as [|x l IH]; [reflexivity|].
  cbn [fold_right]. rewrite IH. generalize (fold_right (insert_desc key') [] l).
  intros l'. induction l' as [|y l' IH']; [reflexivity|].
  cbn [insert_desc]. rewrite !E, IH'. reflexivity.
Qed.

Lemma descending_ext_in {A} (key key' : A -> nat) l :
  (forall x, In x l -> key x = key' x) -> descending key l -> descending key' l.
Proof.
  unfold descending. intros E H. induction H as [|x l Hs IH Hall]; constructor.
  - apply IH. intros y Hy. apply E. right. exact Hy.
  - rewrite Forall_forall in *. intros y Hy.
    rewrite <- (E x (or_introl eq_refl)), <- (E y (or_intror Hy)). apply Hall, Hy.
Qed.

Lemma keys_count_matches_all (P : string -> Prop) key ms :
  (forall m k, key m = Some k -> P k) ->
  forall c : Counter, Forall P (map fst c) -> Forall P (map fst (count_matches key ms c)).
Proof.
  intros Hkey. unfold count_matches.
  induction ms as [|m ms IH]; intros c H; cbn [fold_left]; [exact H|].
  apply IH. destruct (key m) as [k|] eqn:E; [|exact H].
  unfold add. rewrite keys_store_new.
  destruct (mem k (map fst c)); [exact H|].
  apply Forall_app. split; [exact H|]. repeat constructor. exact (Hkey m k E).
Qed.

Lemma keys_extract_terms_all text (c : Counter) :
  Forall (fun k => mem (lower k) _KW_STOPS = false) (map fst c) ->
  Forall (fun k => mem (lower k) _KW_STOPS = false) (map fst (_extract_terms text c)).
Proof.
  intros H. unfold _extract_terms. cbv zeta.
  apply keys_count_matches_all.
  { intros m k E. unfold proper_noun_key in E.
    destruct (negb (mem (lower m) _KW_STOPS)) eqn:En; [|discriminate].
    injection E as <-. apply negb_true_iff. exact En. }
  apply keys_count_matches_all.
  { intros m k E. rewrite hyphenated_key_kept in E.
    destruct (hyphenated_kept m) eqn:Ek; [|discriminate].
    injection E as <-. rewrite lower_idem. unfold hyphenated_kept in Ek.
    apply andb_prop in Ek. destruct Ek as [_ Ek]. apply negb_true_iff. exact Ek. }
  apply keys_count_matches_all; [|exact H].
  intros m k E. unfold acronym_key in E.
  destruct (negb (mem (lower m) _KW_STOPS)) eqn:En; [|discriminate].
  injection E as <-. apply negb_true_iff. exact En.
Qed.

Lemma keys_all_candidates_all content :
  Forall (fun k => mem (lower k) _KW_STOPS = false) (map fst (all_candidates content)).
Proof.
  assert (Hs : Forall (fun k => mem (lower k) _KW_STOPS = false)
                      (map fst (section_candidates content))).
  { unfold section_candidates, scan_section. cbv zeta.
    repeat match goal with
           | |- context [Re.search ?p ?t] => destruct (Re.search p t)
           end;
      repeat apply keys_extract_terms_all; constructor. }
  unfold all_candidates. cbv zeta.
  destruct (_ <? 5); [apply keys_extract_terms_all|]; exact Hs.
Qed.

Lemma keywords_closed content :
  extract_keywords_from_semantic_core content
  = map fst (firstn 15 (sort_desc (fun e => weight_of (fst e)
                                            * Nat.max (doc_freq_of content (fst e)) (snd e))
                                  (all_candidates content))).
Proof.
  unfold extract_keywords_from_semantic_core, scored. cbv zeta.
  rewrite sort_desc_map, firstn_map, map_map.
  assert (Ek : forall l l' : list (string * nat),
             l = l' -> map (fun x => fst (fst (score_entry content x))) l = map fst l').
  { intros l l' <-. apply map_ext. intros [term sf]. reflexivity. }
  apply Ek. f_equal. apply sort_desc_ext. intros [term sf]. reflexivity.
Qed.

(** X24.  The keywords read from a semantic core: fifteen at most, no one twice,
    each a candidate whose lower-case form is not a stop word; they stand
    by non-increasing score, a candidate left out scores no more than any
    keyword, and with fifteen candidates or fewer all are keywords. *)
Theorem keywords_ranked (content : string) :
  let keywords := extract_keywords_from_semantic_core content in
  let candidates := map fst (all_candidates content) in
  List.length keywords <= 15
  /\ NoDup keywords
  /\ Forall (fun k => In k candidates /\ mem (lower k) _KW_STOPS = false) keywords
  /\ descending (score_of content) keywords
  /\ (forall t, In t candidates -> ~ In t keywords ->
        List.length keywords = 15
        /\ Forall (fun k => score_of content t <= score_of content k) keywords)
  /\ (List.length candidates <= 15 -> Permutation keywords candidates).
Proof.
  cbv zeta. rewrite keywords_closed.
  set (c := all_candidates content).
  set (key := fun e : string * nat =>
                weight_of (fst e) * Nat.max (doc_freq_of content (fst e)) (snd e)).
  assert (Hkeys : NoDup (map fst c)) by apply keys_all_candidates.
  assert (Hperm : Permutation (sort_desc key c) c) by apply sort_desc_perm.
  assert (Hsorted : descending key (sort_desc key c)) by apply sort_desc_descending.
  assert (Hscore : forall e, In e c -> key e = score_of content (fst e)).
  { intros [term sf] He. unfold key, score_of. cbn [fst snd]. fold c.
    rewrite (tally_of_entry c term sf Hkeys He). reflexivity. }
  assert (Hin : forall e, In e (sort_desc key c) -> In e c).
  { intros e He. eapply Permutation_in; [exact Hperm|exact He]. }
  split; [|split; [|split; [|split; [|split]]]].
  - rewrite length_map, length_firstn. lia.
  - rewrite <- firstn_map. apply nodup_firstn.
    eapply Permutation_NoDup; [apply Permutation_sym, Permutation_map, Hperm|exact Hkeys].
  - apply Forall_forall. intros k Hk. apply in_map_iff in Hk.
    destruct Hk as [e [<- He]]. apply in_firstn in He. apply Hin in He.
    apply (in_map fst) in He. split; [exact He|].
    pose proof (keys_all_candidates_all content) as Hall. fold c in Hall.
    rewrite Forall_forall in Hall. apply Hall, He.
  - apply descending_map. apply descending_ext_in with (key := key).
    + intros e He. apply Hscore. apply Hin. eapply in_firstn. exact He.
    + apply descending_firstn, Hsorted.
  - intros t Ht Hout.
    assert (Hkey : In t (map fst (sort_desc key c))).
    { eapply Permutation_in; [apply Permutation_sym, Permutation_map, Hperm|exact Ht]. }
    apply in_map_iff in Hkey. destruct Hkey as [e [Et He]].
    pose proof He as Hec. apply Hin in Hec.
    rewrite <- (firstn_skipn 15 (sort_desc key c)) in He, Hsorted.
    apply in_app_or in He. destruct He as [He|He].
    { exfalso. apply Hout. rewrite <- Et. apply in_map. exact He. }
    split.
    + rewrite length_map, length_firstn.
      destruct (Nat.le_gt_cases 15 (List.length (sort_desc key c))) as [L|G]; [lia|].
      rewrite skipn_all2 in He by lia. destruct He.
    + apply Forall_forall. intros k Hk. apply in_map_iff in Hk.
      destruct Hk as [e' [<- He']].
      pose proof (descending_app _ _ Hsorted e' e He' He) as Hle.
      rewrite <- Et, <- (Hscore e Hec).
      rewrite <- (Hscore e'); [exact Hle|]. apply Hin. eapply in_firstn. exact He'.
  - intros Hfew. rewrite firstn_all2.
    + apply Permutation_map, Hperm.
    + rewrite (Permutation_length Hperm), <- (length_map fst). exact Hfew.
Qed.

(** ** Topic alignment *)

(** [sub in s] exactly when [s.count(sub)] is not zero. *)
Lemma contains_count sub s : contains sub s = true <-> 1 <= count sub s.
Proof.
  unfold contains, count.
  destruct (chars sub) as [|c p] eqn:E.
  - split; [intros _; lia|]. intros _. destruct (chars s); reflexivity.
  - generalize (chars s). intros l. induction l as [|x l IH].
    + simpl. split; [discriminate|lia].
    + cbn [contains_from count_from].
      destruct (prefixb (c :: p) (x :: l)) eqn:Ep; cbn [orb].
      * split; [intros _; lia|reflexivity].
      * exact IH.
Qed.

Lemma filter_le_sum {A} (p : A -> bool) (f : A -> nat) l :
  (forall x, p x = true -> 1 <= f x) -> List.length (filter p l) <= sum (map f l).
Proof.
  intros H. unfold sum. induction l as [|x l IH]; [simpl; lia|].
  cbn [filter map fold_right]. specialize (H x).
  destruct (p x); cbn [List.length]; [specialize (H eq_refl)|]; lia.
Qed.

Lemma sum_zero_filter {A} (p : A -> bool) (f : A -> nat) l :
  (forall x, p x = false -> f x = 0) -> filter p l = [] -> sum (map f l) = 0.
Proof.
  intros H. unfold sum. induction l as [|x l IH]; [reflexivity|].
  cbn [filter map fold_right]. specialize (H x).
  destruct (p x); [discriminate|]. intros E. rewrite (H eq_refl), (IH E). reflexivity.
Qed.

Lemma values_store_all {V} (P : V -> Prop) k v (d : dict V) :
  Forall P (values d) -> P v -> Forall P (values (store k v d)).
Proof.
  unfold values. induction d as [|[k0 v0] d IH]; intros H Hv; cbn [store map snd].
  - repeat constructor. exact Hv.
  - cbn [map snd] in H. inversion H; subst.
    destruct (String.eqb k k0); cbn [map snd]; constructor; auto.
Qed.

Lemma entries_store_all {V} (P : string -> V -> Prop) k v (d : dict V) :
  Forall (fun e => P (fst e) (snd e)) d -> P k v ->
  Forall (fun e => P (fst e) (snd e)) (store k v d).
Proof.
  induction d as [|[k0 v0] d IH]; intros H Hv; cbn [store].
  - repeat constructor. exact Hv.
  - inversion H; subst. destruct (String.eqb k k0) eqn:E.
    + apply String.eqb_eq in E. subst k0. constructor; [exact Hv|assumption].
    + constructor; auto.
Qed.

Lemma keyword_scores_all (P : string -> keyword_score -> Prop) n texts keywords :
  (forall kw, In kw keywords -> P kw (score_keyword n texts kw)) ->
  forall d, Forall (fun e => P (fst e) (snd e)) d ->
  Forall (fun e => P (fst e) (snd e))
         (fold_left (fun d kw => store kw (score_keyword n texts kw) d) keywords d).
Proof.
  induction keywords as [|kw keywords IH]; intros H d Hd; cbn [fold_left]; [exact Hd|].
  apply IH.
  - intros kw' Hin. apply H. right. exact Hin.
  - apply entries_store_all; [exact Hd|]. apply H. left. reflexivity.
Qed.

Lemma keyword_scores_keys n texts keywords : forall d : dict keyword_score,
  map fst (fold_left (fun d kw => store kw (score_keyword n texts kw) d) keywords d)
  = add_all keywords (map fst d).
Proof.
  unfold add_all. induction keywords as [|kw keywords IH]; intros d; [reflexivity|].
  cbn [fold_left]. rewrite IH. f_equal. unfold set_add. apply keys_store_new.
Qed.

(** ** Sentences *)

Lemma drop_while_suffix (p : ascii -> bool) l :
  exists dropped, l = dropped ++ drop_while p l.
Proof.
  induction l as [|c l [d IH]]; [exists []; reflexivity|].
  cbn [drop_while]. destruct (p c); [|exists []; reflexivity].
  exists (c :: d). cbn [app]. rewrite <- IH. reflexivity.
Qed.

Lemma drop_while_head (p : ascii -> bool) l :
  match drop_while p l with
  | [] => True
  | c :: _ => p c = false
  end.
Proof.
  induction l as [|c l IH]; [exact I|].
  cbn [drop_while]. destruct (p c) eqn:E; [exact IH|exact E].
Qed.

Lemma drop_while_fixed (p : ascii -> bool) l :
  match l with [] => True | c :: _ => p c = false end -> drop_while p l = l.
Proof.
  destruct l as [|c l]; [reflexivity|]. intros H. cbn [drop_while]. rewrite H. reflexivity.
Qed.

(** A stripped text neither begins nor ends with white space. *)
Lemma strip_ends s :
  match chars (strip s) with [] => True | c :: _ => is_space c = false end
  /\ match rev (chars (strip s)) with [] => True | c :: _ => is_space c = false end.
Proof.
  unfold strip. rewrite chars_of_chars, rev_involutive.
  pose proof (drop_while_head is_space (chars s)) as Hm.
  set (m := drop_while is_space (chars s)) in *. clearbody m.
  split; [|apply drop_while_head].
  destruct (drop_while_suffix is_space (rev m)) as [d Hd].
  set (x := drop_while is_space (rev m)) in *. clearbody x.
  assert (E : m = rev x ++ rev d).
  { rewrite <- rev_app_distr, <- Hd, rev_involutive. reflexivity. }
  destruct (rev x) as [|c t]; [exact I|].
  rewrite E in Hm. exact Hm.
Qed.

(** [s.strip().strip() == s.strip()] *)
Lemma strip_idem s : strip (strip s) = strip s.
Proof.
  destruct (strip_ends s) as [H1 H2].
  unfold strip at 1. rewrite (drop_while_fixed _ _ H1), (drop_while_fixed _ _ H2).
  rewrite rev_involutive. apply of_chars_chars.
Qed.

(** X19.  Every sentence the splitter returns has a character, and neither begins
    nor ends with white space. *)
Theorem split_sentences_stripped (text : string) :
  Forall (fun s => 1 <= len s /\ strip s = s
                   /\ match chars s with [] => False | c :: _ => is_space c = false end
                   /\ match rev (chars s) with [] => False | c :: _ => is_space c = false end)
         (split_sentences text).
Proof.
  unfold split_sentences. cbv zeta.
  apply Forall_forall. intros s Hs. apply filter_In in Hs.
  destruct Hs as [Hin Hne]. apply in_map_iff in Hin.
  destruct Hin as [s0 [Es _]].
  match type of Es with strip ?x = _ => set (u := x) in * end. clearbody u.
  subst s. apply negb_true_iff, String.eqb_neq in Hne.
  destruct (strip_ends u) as [H1 H2].
  assert (Hc : chars (strip u) <> []).
  { intros E. apply Hne. rewrite <- (of_chars_chars (strip u)), E. reflexivity. }
  split; [|split; [apply strip_idem|split]].
  - unfold len. destruct (chars (strip u)); [contradiction|simpl; lia].
  - destruct (chars (strip u)); [contradiction|exact H1].
  - destruct (rev (chars (strip u))) eqn:Er; [|exact H2].
    apply Hc. rewrite <- (rev_involutive (chars (strip u))), Er. reflexivity.
Qed.

(** ** Case and margins *)

Lemma is_space_lower c : is_space (lower_char c) = is_space c.
Proof.
  assert (H : forallb (fun c => implb true (Bool.eqb (is_space (lower_char c)) (is_space c)))
                      all_chars = true) by (vm_compute; reflexivity).
  apply eqb_prop. exact (by_all_chars (fun _ => true) _ H c eq_refl).
Qed.

Lemma drop_while_lower l :
  map lower_char (drop_while is_space l) = drop_while is_space (map lower_char l).
Proof.
  induction l as [|c l IH]; [reflexivity|].
  cbn [drop_while map]. rewrite is_space_lower.
  destruct (is_space c); [exact IH|reflexivity].
Qed.

(** [s.strip().lower() == s.lower().strip()] *)
Lemma lower_strip s : lower (strip s) = strip (lower s).
Proof.
  unfold lower, strip. rewrite !chars_of_chars.
  rewrite map_rev, drop_while_lower, map_rev, drop_while_lower. reflexivity.
Qed.

(** X14.  The label of a sentence does not depend on the case of its letters nor
    on white space around it. *)
Theorem labels_ignore_case_and_margins (sentence : string) :
  classify_opening (lower sentence) = classify_opening sentence
  /\ classify_opening (strip sentence) = classify_opening sentence
  /\ classify_closing (lower sentence) = classify_closing sentence
  /\ classify_closing (strip sentence) = classify_closing sentence.
Proof.
  unfold classify_opening, classify_closing. cbv zeta.
  rewrite lower_idem, lower_strip, strip_idem. repeat split.
Qed.

(** ** The alignment score *)

Local Open Scope R_scope.

Lemma Rround_half_even_ge (y : R) (z : Z) :
  IZR z <= y -> (z <= Rround_half_even y)%Z.
Proof.
  intros Hy. unfold Rround_half_even.
  pose proof (Rplus_Int_part_frac_part y) as Hx.
  pose proof (base_fp y) as [Hf0 Hf1].
  set (f := Int_part y) in *. set (fr := frac_part y) in *.
  assert (Hfz : (z <= f)%Z).
  { assert (H : IZR z < IZR (f + 1)) by (rewrite plus_IZR; lra).
    apply lt_IZR in H. lia. }
  destruct (Rlt_dec fr (1 / 2)); [exact Hfz|].
  destruct (Rlt_dec (1 / 2) fr); [lia|].
  destruct (Z.even f); lia.
Qed.

Lemma pow10_positive nd : 0 < 10 ^ nd.
Proof. apply pow_lt. lra. Qed.

Lemma Rround_nonneg (x : R) (nd : nat) : 0 <= x -> 0 <= Rround x nd.
Proof.
  intros Hx. unfold Rround. pose proof (pow10_positive nd) as Hp.
  assert (H : (0 <= Rround_half_even (x * 10 ^ nd))%Z).
  { apply Rround_half_even_ge. apply Rmult_le_pos; lra. }
  apply IZR_le in H. apply Rmult_le_pos; [exact H|].
  apply Rlt_le, Rinv_0_lt_compat, Hp.
Qed.

Lemma Rround_zero (nd : nat) : Rround 0 nd = 0.
Proof.
  unfold Rround. rewrite Rmult_0_l.
  rewrite (@Rround_half_even_near 0 0) by lra.
  unfold Rdiv. apply Rmult_0_l.
Qed.

Lemma Rsum_from (l : list R) : forall acc, fold_left Rplus l acc = acc + Rsum l.
Proof.
  unfold Rsum. induction l as [|x l IH]; intros acc; cbn [fold_left]; [lra|].
  rewrite IH, (IH (0 + x)). lra.
Qed.

Lemma Rsum_nonneg (l : list R) : Forall (fun x => 0 <= x) l -> 0 <= Rsum l.
Proof.
  induction 1 as [|x l Hx Hl IH]; [unfold Rsum; simpl; lra|].
  unfold Rsum. cbn [fold_left]. rewrite Rsum_from. lra.
Qed.

Lemma ln_nonneg (x : R) : 1 <= x -> 0 <= ln x.
Proof.
  intros [H|<-]; [|rewrite ln_1; lra].
  rewrite <- ln_1. apply Rlt_le, ln_increasing; lra.
Qed.

(** The weight of a keyword that is not in every document is not
    negative. *)
Lemma tf_idf_nonneg (n : nat) (texts : list string) (kw : string) :
  (documents_with kw texts < n)%nat -> 0 <= tf_idf (score_keyword n texts kw).
Proof.
  intros H. unfold score_keyword. cbv zeta. cbn [tf_idf].
  fold (documents_with kw texts).
  set (df := documents_with kw texts) in *.
  set (total := sum _). clearbody total df.
  apply Rround_nonneg.
  destruct (0 <? df)%nat; [|lra].
  apply Rmult_le_pos; [apply pos_INR|].
  assert (Hd : 0 < 1 + INR df) by (pose proof (pos_INR df); lra).
  assert (Hn : 1 + INR df <= INR n).
  { rewrite Rplus_comm, <- S_INR. apply le_INR. lia. }
  apply ln_nonneg.
  apply Rmult_le_reg_r with (1 + INR df); [exact Hd|].
  unfold Rdiv. rewrite Rmult_assoc, Rinv_l by lra. lra.
Qed.

(** X15.  The score lies between 0 and 100 as soon as no keyword occurs in every
    document. *)
Theorem alignment_range (keywords texts : list string) :
  Forall (fun kw => (documents_with kw texts < List.length texts)%nat) keywords ->
  0 <= fst (compute_topic_alignment keywords texts) <= 100.
Proof.
  intros H. split; [|apply alignment_at_most_100].
  unfold compute_topic_alignment. cbv zeta.
  destruct (List.length texts =? 0)%nat eqn:E; [simpl; lra|].
  cbn [fst]. apply Rround_nonneg.
  match goal with |- context [values ?s] => set (scores := s) end.
  assert (Hs : Forall (fun e => 0 <= tf_idf (snd e)) scores).
  { subst scores.
    apply (@keyword_scores_all (fun _ ks => 0 <= tf_idf ks)); [|constructor].
    intros kw Hin. rewrite Forall_forall in H. apply tf_idf_nonneg, H, Hin. }
  assert (Ht : 0 <= Rsum (map tf_idf (values scores))).
  { apply Rsum_nonneg. unfold values. rewrite map_map.
    apply Forall_forall. intros x Hx. apply in_map_iff in Hx.
    destruct Hx as [e [<- He]]. rewrite Forall_forall in Hs. apply Hs, He. }
  clearbody scores.
  set (m := Rmax _ 1). assert (Hm : 1 <= m) by apply Rmax_r. clearbody m.
  apply Rmin_glb; [lra|].
  apply Rmult_le_pos; [|lra].
  apply Rmult_le_pos; [exact Ht|]. apply Rlt_le, Rinv_0_lt_compat. lra.
Qed.

Lemma alignment_range_witness :
  Forall (fun kw => (documents_with kw ["an optical comb"%string; "a laser"%string]
                     < List.length ["an optical comb"%string; "a laser"%string])%nat)
         ["comb"%string]
  /\ 0 <= fst (compute_topic_alignment ["comb"%string]
                                       ["an optical comb"%string; "a laser"%string])
       <= 100.
Proof.
  assert (H : Forall (fun kw =>
                        (documents_with kw ["an optical comb"%string; "a laser"%string]
                         < List.length ["an optical comb"%string; "a laser"%string])%nat)
                     ["comb"%string]).
  { repeat constructor. }
  exact (conj H (@alignment_range ["comb"%string]
                                  ["an optical comb"%string; "a laser"%string] H)).
Defined.

Lemma alignment_without_keywords (texts : list string) :
  compute_topic_alignment [] texts = (0, []).
Proof.
  unfold compute_topic_alignment. cbv zeta.
  destruct (List.length texts =? 0)%nat; [reflexivity|].
  cbn [fold_left values map]. unfold Rsum. cbn [fold_left].
  f_equal. unfold Rdiv. rewrite !Rmult_0_l, Rmin_right by lra. apply Rround_zero.
Qed.

(** X16.  The detail of an alignment has one entry per distinct keyword, in the
    order given; an entry counts the documents with the keyword, not more
    than there are documents nor than there are mentions, and without a
    document there is no mention and no weight.  Without keywords, and
    without documents, the score is 0. *)
Theorem alignment_detail (keywords texts : list string) :
  let detail := snd (compute_topic_alignment keywords texts) in
  (texts <> [] -> map fst detail = first_seen keywords)
  /\ Forall (fun e =>
               doc_frequency (snd e) = documents_with (fst e) texts
               /\ (doc_frequency (snd e) <= List.length texts)%nat
               /\ (doc_frequency (snd e) <= total_mentions (snd e))%nat
               /\ (doc_frequency (snd e) = 0%nat ->
                   total_mentions (snd e) = 0%nat /\ tf_idf (snd e) = 0)
               /\ coverage (snd e) = (doc_frequency (snd e), List.length texts))
            detail
  /\ (keywords = [] \/ texts = [] -> compute_topic_alignment keywords texts = (0, [])).
Proof.
  cbv zeta. unfold compute_topic_alignment. cbv zeta.
  destruct (List.length texts =? 0)%nat eqn:E.
  { apply Nat.eqb_eq in E. apply length_zero_iff_nil in E. subst texts.
    split; [intros H; contradiction|]. split; [constructor|reflexivity]. }
  cbn [snd]. split; [|split].
  - intros _. rewrite keyword_scores_keys. reflexivity.
  - apply (@keyword_scores_all
             (fun kw ks =>
                doc_frequency ks = documents_with kw texts
                /\ (doc_frequency ks <= List.length texts)%nat
                /\ (doc_frequency ks <= total_mentions ks)%nat
                /\ (doc_frequency ks = 0%nat -> total_mentions ks = 0%nat /\ tf_idf ks = 0)
                /\ coverage ks = (doc_frequency ks, List.length texts)));
      [|constructor].
    intros kw _. unfold score_keyword. cbv zeta.
    cbn [doc_frequency total_mentions tf_idf coverage].
    fold (documents_with kw texts).
    split; [reflexivity|]. split; [apply filter_length_le|].
    split.
    { unfold documents_with. apply filter_le_sum.
      intros text Hc. apply contains_count. exact Hc. }
    split; [|reflexivity].
    intros Hz. split.
    + unfold documents_with in Hz. apply length_zero_iff_nil in Hz.
      apply (@sum_zero_filter _ (fun text => contains (lower kw) (lower text)));
        [|exact Hz].
      intros text Hc.
      destruct (count (lower kw) (lower text)) as [|k] eqn:Ek; [reflexivity|].
      assert (Hp : contains (lower kw) (lower text) = true)
        by (apply contains_count; lia).
      congruence.
    + rewrite Hz. cbn [Nat.ltb Nat.leb]. apply Rround_zero.
  - intros [Hk|Ht]; [subst keywords|subst texts; discriminate E].
    pose proof (alignment_without_keywords texts) as Ha.
    unfold compute_topic_alignment in Ha. cbv zeta in Ha. rewrite E in Ha. exact Ha.
Qed.

(** ** The entry point *)

(** X2.  How the script ends.  It exits with status 1 when the corpus file is
    missing or holds no record; it dies of [ZeroDivisionError] when no
    record has text; otherwise it saves a report whose manuscript keywords
    are those extracted from the semantic core (none without it), fifteen
    at most, and whose alignment is that of these keywords with the texts
    analysed; without a semantic core the alignment is 0 with no detail. *)
Theorem main_outcome (abstracts_file : option (list abstract))
  (semantic_core : option string) :
  match main abstracts_file semantic_core with
  | Exit status _ =>
      status = 1%nat /\ (abstracts_file = None \/ abstracts_file = Some [])
  | Uncaught e =>
      e = ZeroDivisionError
      /\ exists abstracts,
           abstracts_file = Some abstracts /\ abstracts <> [] /\ valid_of abstracts = []
  | Saved r _ =>
      exists abstracts,
        abstracts_file = Some abstracts
        /\ n_analyzed r = List.length (valid_of abstracts)
        /\ (1 <= n_analyzed r)%nat
        /\ manuscript_keywords (topic_alignment r)
           = match semantic_core with
             | Some content => extract_keywords_from_semantic_core content
             | None => []
             end
        /\ (List.length (manuscript_keywords (topic_alignment r)) <= 15)%nat
        /\ score_pct (topic_alignment r)
           = fst (compute_topic_alignment (manuscript_keywords (topic_alignment r))
                                          (map body (valid_of abstracts)))
        /\ keyword_detail (topic_alignment r)
           = snd (compute_topic_alignment (manuscript_keywords (topic_alignment r))
                                          (map body (valid_of abstracts)))
        /\ (semantic_core = None ->
            score_pct (topic_alignment r) = 0 /\ keyword_detail (topic_alignment r) = [])
  end.
Proof.
  unfold main. destruct abstracts_file as [abstracts|]; [|split; auto].
  cbv zeta.
  set (keywords := match semantic_core with
                   | Some content => extract_keywords_from_semantic_core content
                   | None => []
                   end).
  assert (Hk : (List.length keywords <= 15)%nat).
  { subst keywords. destruct semantic_core as [content|]; [|simpl; lia].
    rewrite keywords_closed, length_map, length_firstn. lia. }
  destruct (existsb has_content abstracts) eqn:E.
  - destruct (analyze_fields abstracts (Some keywords) E)
      as [r [post [Hr [Hn [_ [_ [_ [_ [_ [_ [_ [_ [_ [_ [_ [_ Ha]]]]]]]]]]]]]]]].
    rewrite Hr. exists abstracts. split; [reflexivity|]. split; [exact Hn|].
    split.
    { rewrite Hn. apply valid_nonempty in E.
      destruct (valid_of abstracts); [contradiction|simpl; lia]. }
    rewrite Ha. cbn [manuscript_keywords score_pct keyword_detail given].
    split; [reflexivity|]. split; [exact Hk|].
    split; [reflexivity|]. split; [reflexivity|].
    intros Hc. subst keywords. rewrite Hc.
    rewrite alignment_without_keywords. split; reflexivity.
  - assert (Hv : valid_of abstracts = []).
    { destruct (valid_of abstracts) eqn:Ev; [reflexivity|].
      assert (Hne : valid_of abstracts <> []) by (rewrite Ev; discriminate).
      apply valid_nonempty in Hne. congruence. }
    destruct abstracts as [|a0 rest].
    + simpl. split; auto.
    + rewrite analyze_without_valid; [|discriminate|exact Hv].
      split; [reflexivity|]. exists (a0 :: rest).
      split; [reflexivity|]. split; [discriminate|exact Hv].
Qed.

Local Close Scope R_scope.

(** The entry point on the sample corpus and the sample semantic core: the
    report is saved for the two keywords of the core and the run ends
    without an exception. *)
Example main_on_the_samples :
  exists r,
    main (Some sample_corpus) (Some sample_core) = Saved r None
    /\ manuscript_keywords (topic_alignment r) = ["SRS"; "near-field"]
    /\ n_analyzed r = 4
    /\ n_total r = 5.
Proof.
  change (main (Some sample_corpus) (Some sample_core))
    with (analyze sample_corpus (Some (extract_keywords_from_semantic_core sample_core))).
  assert (K : extract_keywords_from_semantic_core sample_core = ["SRS"; "near-field"])
    by (vm_compute; reflexivity).
  rewrite K.
  assert (H : existsb has_content sample_corpus = true) by reflexivity.
  destruct (analyze_fields sample_corpus (Some ["SRS"; "near-field"]) H)
    as [r [post [Hr [Hn [Ht [_ [_ [_ [_ [_ [_ [_ [_ [Hp [_ [_ Ha]]]]]]]]]]]]]]]].
  assert (Ep : post = None) by (rewrite Hp; vm_compute; reflexivity).
  exists r. rewrite Hr, Ep. split; [reflexivity|].
  split; [rewrite Ha; reflexivity|].
  split; [rewrite Hn|rewrite Ht]; vm_compute; reflexivity.
Qed.
